(** * gen-reloc: PE base relocations generated from ELF absolute relocations

    A shallow embedding of [gen-reloc.py] and the verification of its
    specification.  Python integers are unbounded, so they are [Z]; a
    [bytes]/[bytearray] object is a [list byte]; a [str] is a [string] holding
    its UTF-8 encoding; a [dict] keyed by section name is a
    [gmap string _]; a [set] of integers is a [gset Z].  Exceptions are the
    [Raise] results of a small error monad; the destination file is the state
    of a state-and-error monad. *)

From Stdlib Require Import ZArith Lia.
From Stdlib.Strings Require Import Byte.
From stdpp Require Import base option list list_numbers sorting gmap strings.

Local Open Scope Z_scope.

(** ** Exceptions and results *)

Inductive exn : Type :=
  | ValueError (msg : string)
  | StructError
  | UnicodeDecodeError
  | KeyError
  | IndexError.

(** [OutOfFuel] is not a Python outcome: it marks a [while] loop of the model
    that was given too few iterations. *)
Inductive result (A : Type) : Type :=
  | Ok (a : A)
  | Raise (e : exn)
  | OutOfFuel.
Arguments Ok {A} a.
Arguments Raise {A} e.
Arguments OutOfFuel {A}.

#[global] Instance result_ret : MRet result := @Ok.
#[global] Instance result_bind : MBind result := λ A B f m,
  match m with
  | Ok a => f a
  | Raise e => Raise e
  | OutOfFuel => OutOfFuel
  end.

(** A [for] loop that threads an accumulator and may raise. *)
Fixpoint foldM {A B : Type} (f : B → A → result B) (acc : B) (l : list A)
  : result B :=
  match l with
  | [] => Ok acc
  | x :: l' => acc' ← f acc x; foldM f acc' l'
  end.

(** ** Bytes and [struct] *)

Notation bytes := (list byte).

Definition u8 (b : byte) : Z := Z.of_N (Byte.to_N b).
Definition byte_of_Z (z : Z) : byte :=
  default "000"%byte (Byte.of_N (Z.to_N (z mod 256))).

Definition len {A} (l : list A) : Z := Z.of_nat (length l).

(** Little-endian value of a byte string, and the [n]-byte encoding. *)
Fixpoint le_decode (bs : bytes) : Z :=
  match bs with
  | [] => 0
  | b :: bs' => u8 b + 256 * le_decode bs'
  end.

Fixpoint le_encode (n : nat) (x : Z) : bytes :=
  match n with
  | O => []
  | S n' => byte_of_Z (x mod 256) :: le_encode n' (x / 256)
  end.

(** [data[a:b]] for [0 <= a]: the bounds are clamped to the length. *)
Definition slice {A} (data : list A) (a b : Z) : list A :=
  take (Z.to_nat (b - a)) (drop (Z.to_nat a) data).

(** [buf[a:b] = data] on a [bytearray], for [0 <= a]; a stop before the start
    counts as the start. *)
Definition slice_assign (buf : bytes) (a b : Z) (data : bytes) : bytes :=
  take (Z.to_nat a) buf ++ data ++ drop (Z.to_nat (Z.max a b)) buf.

(** [struct.unpack_from] of one little-endian unsigned field of [n] bytes. *)
Definition unpack_from (n : nat) (data : bytes) (off : Z) : result Z :=
  if bool_decide (0 ≤ off ∧ off + Z.of_nat n ≤ len data)
  then Ok (le_decode (slice data off (off + Z.of_nat n)))
  else Raise StructError.

(** [struct.pack] of one little-endian unsigned field of [n] bytes. *)
Definition pack (n : nat) (x : Z) : result bytes :=
  if bool_decide (0 ≤ x < 2 ^ (8 * Z.of_nat n))
  then Ok (le_encode n x)
  else Raise StructError.

(** [struct.pack("<II", a, b)]. *)
Definition pack_II (a b : Z) : result bytes :=
  pa ← pack 4 a; pb ← pack 4 b; Ok (pa ++ pb).

(** [struct.pack_into] of one field of [n] bytes at offset [off >= 0]. *)
Definition pack_into (n : nat) (buf : bytes) (off : Z) (x : Z) : result bytes :=
  p ← pack n x;
  if bool_decide (0 ≤ off ∧ off + Z.of_nat n ≤ len buf)
  then Ok (slice_assign buf off (off + Z.of_nat n) p)
  else Raise StructError.

Definition zeros (n : Z) : bytes := replicate (Z.to_nat n) "000"%byte.

(** [range(start, stop, step)] for [step > 0]. *)
Definition py_range (start stop step : Z) : list Z :=
  (λ k, start + step * k) <$> seqZ 0 ((stop - start + step - 1) `div` step).

(** ** Constants *)

Definition IMAGE_REL_BASED_DIR64 : Z := 0xA.
Definition IMAGE_REL_BASED_ABSOLUTE : Z := 0x0.
Definition PE_FILE_ALIGNMENT : Z := 0x200.
Definition PE_SECTION_ALIGNMENT : Z := 0x1000.

(** ** Relocation Table Builder: [build_base_reloc_table] *)

(** Lines 127-130: group the intra-page offsets by page, in input order. *)
Definition group_pages (offsets : list Z) : gmap Z (list Z) :=
  foldl (λ pages rva,
           let page := Z.land rva (Z.lnot 0xFFF) in
           <[page := default [] (pages !! page) ++ [Z.land rva 0xFFF]]> pages)
        ∅ offsets.

(** Lines 138-139: [while (8 + len(entry_data)) % 4 != 0], one unit of fuel
    per evaluation of the loop condition. *)
Fixpoint pad_entries (fuel : nat) (entry_data : bytes) : result bytes :=
  match fuel with
  | O => OutOfFuel
  | S fuel' =>
      if bool_decide ((8 + len entry_data) `mod` 4 ≠ 0)
      then p ← pack 2 IMAGE_REL_BASED_ABSOLUTE;
           pad_entries fuel' (entry_data ++ p)
      else Ok entry_data
  end.

(** Lines 134-142: the bytes of one block. *)
Definition build_block (fuel : nat) (page_rva : Z) (entries : list Z)
  : result bytes :=
  entry_data ← foldM (λ entry_data off,
                        p ← pack 2 (Z.lor (Z.shiftl IMAGE_REL_BASED_DIR64 12) off);
                        Ok (entry_data ++ p))
                     [] (merge_sort Z.le entries);
  entry_data ← pad_entries fuel entry_data;
  let block_size := 8 + len entry_data in
  hdr ← pack_II page_rva block_size;
  Ok (hdr ++ entry_data).

Definition build_base_reloc_table (fuel : nat) (offsets : list Z)
  : result bytes :=
  let pages := group_pages offsets in
  foldM (λ buf page_rva,
           entries ← from_option Ok (Raise KeyError) (pages !! page_rva);
           blk ← build_block fuel page_rva entries;
           Ok (buf ++ blk))
        [] (merge_sort Z.le (fst <$> map_to_list pages)).

(** ** Reading a relocation table back

    The decoder is the loader's view of the table: a sequence of blocks, each
    an 8-byte header (page RVA, block byte length) followed by 16-bit
    entries. *)

Record block : Type := Block {
  blk_page : Z;
  blk_size : Z;
  blk_entries : list Z;
}.

Fixpoint decode_entries (n : nat) (body : bytes) : list Z :=
  match n with
  | O => []
  | S n' => le_decode (take 2 body) :: decode_entries n' (drop 2 body)
  end.

Fixpoint decode_blocks (fuel : nat) (buf : bytes) : option (list block) :=
  match buf with
  | [] => Some []
  | _ =>
      match fuel with
      | O => None
      | S fuel' =>
          match unpack_from 4 buf 0, unpack_from 4 buf 4 with
          | Ok page, Ok size =>
              if bool_decide (8 ≤ size ≤ len buf ∧ size `mod` 2 = 0)
              then rest ← decode_blocks fuel' (drop (Z.to_nat size) buf);
                   Some (Block page size
                           (decode_entries (Z.to_nat ((size - 8) `div` 2))
                                           (slice buf 8 size)) :: rest)
              else None
          | _, _ => None
          end
      end
  end.

Definition decode_table (buf : bytes) : option (list block) :=
  decode_blocks (length buf) buf.

Definition entry_type (e : Z) : Z := Z.shiftr e 12.
Definition entry_offset (e : Z) : Z := Z.land e 0xFFF.

(** The entries of a block that are not no-op padding. *)
Definition real_entries (b : block) : list Z :=
  filter (λ e, entry_type e ≠ IMAGE_REL_BASED_ABSOLUTE) (blk_entries b).
Definition padding_entries (b : block) : list Z :=
  filter (λ e, entry_type e = IMAGE_REL_BASED_ABSOLUTE) (blk_entries b).

(** The (page, intra-page offset) pairs a table denotes. *)
Definition block_pairs (b : block) : list (Z * Z) :=
  (λ e, (blk_page b, entry_offset e)) <$> real_entries b.
Definition table_pairs (bs : list block) : list (Z * Z) :=
  concat (block_pairs <$> bs).

Definition rva_pair (rva : Z) : Z * Z :=
  (Z.land rva (Z.lnot 0xFFF), Z.land rva 0xFFF).


(** ** ELF Section Reader: [parse_elf_sections] *)

#[global] Instance byte_eq_dec : EqDecision byte := Byte.byte_eq_dec.

(** [data.index(b, start)] for a single byte [b] and [start >= 0]. *)
Definition bytes_index (data : bytes) (b : byte) (start : Z) : result Z :=
  match list_find (λ x, x = b) (drop (Z.to_nat start) data) with
  | Some (i, _) => Ok (start + Z.of_nat i)
  | None => Raise (ValueError "subsection not found")
  end.

(** [data[i]] for [i >= 0]. *)
Definition index (data : bytes) (i : Z) : result Z :=
  from_option (λ b, Ok (u8 b)) (Raise IndexError) (data !! Z.to_nat i).

(** [bs.decode("ascii")]. *)
Definition decode_ascii (bs : bytes) : result string :=
  if bool_decide (Forall (λ b, u8 b < 128) bs)
  then Ok (String.string_of_list_byte bs)
  else Raise UnicodeDecodeError.

(** [bs.decode("ascii", errors="replace")]: a byte that is not ASCII becomes
    U+FFFD, whose UTF-8 encoding is EF BF BD. *)
Definition decode_ascii_replace (bs : bytes) : string :=
  String.string_of_list_byte
    (b ← bs; if bool_decide (u8 b < 128) then [b]
             else ["239"%byte; "191"%byte; "189"%byte]).

(** [bs.rstrip(b)] for a single byte [b]. *)
Fixpoint rstrip (b : byte) (bs : bytes) : bytes :=
  match bs with
  | [] => []
  | x :: bs' =>
      match rstrip b bs' with
      | [] => if decide (x = b) then [] else [x]
      | r => x :: r
      end
  end.

Record elf_section : Type := ElfSection {
  sec_addr : Z;
  sec_offset : Z;
  sec_size : Z;
  sec_type : Z;
  sec_entsize : Z;
}.

Definition sec_name (elf_data : bytes) (st_off name_off : Z) : result string :=
  end_ ← bytes_index elf_data "000"%byte (st_off + name_off);
  decode_ascii (slice elf_data (st_off + name_off) end_).

Definition parse_elf_sections (elf_data : bytes)
  : result (gmap string elf_section) :=
  let u16 := unpack_from 2 elf_data in
  let u32 := unpack_from 4 elf_data in
  let u64 := unpack_from 8 elf_data in
  e_shoff ← u64 40;
  e_shentsize ← u16 58;
  e_shnum ← u16 60;
  e_shstrndx ← u16 62;
  let strtab_base := e_shoff + e_shstrndx * e_shentsize in
  st_off ← u64 (strtab_base + 24);
  foldM (λ sections i,
           let base := e_shoff + i * e_shentsize in
           name_off ← u32 base;
           name ← sec_name elf_data st_off name_off;
           addr ← u64 (base + 16);
           offset ← u64 (base + 24);
           size ← u64 (base + 32);
           type ← u32 (base + 4);
           entsize ← u64 (base + 56);
           Ok (<[name := ElfSection addr offset size type entsize]> sections))
        ∅ (py_range 0 e_shnum 1).

(** ** Relocation Discoverer *)

Definition SHT_RELA : Z := 4.
Definition abs_type : Z := 2.

(** Lines 77-81: the records of one relocation section. *)
Definition read_rela_records (raw : bytes) (entsize : Z) (offsets : gset Z)
  : result (gset Z) :=
  foldM (λ offsets j,
           r_offset ← unpack_from 8 raw j;
           r_info ← unpack_from 8 raw (j + 8);
           if bool_decide (Z.land r_info 0xFFFFFFFF = abs_type)
           then Ok ({[r_offset]} ∪ offsets)
           else Ok offsets)
        offsets (py_range 0 (len raw) entsize).

Definition read_elf_reloc_offsets (elf_data : bytes)
    (sections : gmap string elf_section) : result (gset Z) :=
  e_machine ← unpack_from 2 elf_data 18;
  if bool_decide (e_machine ∉ [0xF3; 0x102])
  then Raise (ValueError "unsupported e_machine")
  else
    foldM (λ offsets '(name, sec),
             if bool_decide (sec_type sec ≠ SHT_RELA) then Ok offsets
             else if bool_decide (name ∉ [".rela.data"; ".rela.rodata"]%string)
             then Ok offsets
             else
               let entsize :=
                 if bool_decide (sec_entsize sec = 0) then 24
                 else sec_entsize sec in
               let raw := slice elf_data (sec_offset sec)
                                (sec_offset sec + sec_size sec) in
               read_rela_records raw entsize offsets)
          ∅ (map_to_list sections).

(** Lines 99-107: the address range of the image. *)
Definition image_range (sections : gmap string elf_section) : option Z * Z :=
  foldl (λ '(image_lo, image_hi) sec,
           if bool_decide (sec_addr sec > 0 ∧ sec_size sec > 0)
           then
             let image_lo :=
               match image_lo with
               | None => Some (sec_addr sec)
               | Some lo =>
                   if bool_decide (sec_addr sec < lo) then Some (sec_addr sec)
                   else Some lo
               end in
             let end_ := sec_addr sec + sec_size sec in
             (image_lo, if bool_decide (end_ > image_hi) then end_ else image_hi)
           else (image_lo, image_hi))
        (None, 0) (snd <$> map_to_list sections).

(** Lines 118-120: the body of the scan loop, at section-relative offset
    [i]. *)
Definition scan_word (elf_data : bytes) (base addr image_lo image_hi : Z)
    (offsets : gset Z) (i : Z) : result (gset Z) :=
  val ← unpack_from 8 elf_data (base + i);
  if bool_decide (image_lo ≤ val < image_hi)
  then Ok ({[addr + i]} ∪ offsets)
  else Ok offsets.

Definition scan_data_for_pointers (elf_data : bytes)
    (sections : gmap string elf_section) : result (gset Z) :=
  match sections !! ".data"%string with
  | None => Ok ∅
  | Some data_sec =>
      match image_range sections with
      | (None, _) => Ok ∅
      | (Some image_lo, image_hi) =>
          let base := sec_offset data_sec in
          let addr := sec_addr data_sec in
          let size := sec_size data_sec in
          foldM (scan_word elf_data base addr image_lo image_hi)
                ∅ (py_range 0 (Z.land size (Z.lnot 7)) 8)
      end
  end.

(** ** The destination file: a state-and-error monad

    The state is the content of the file at [pe_path]; an exception leaves
    the state as it was when it was raised. *)

Definition M (A : Type) : Type := bytes → result A * bytes.

#[global] Instance M_ret : MRet M := λ A a disk, (Ok a, disk).
#[global] Instance M_bind : MBind M := λ A B f m disk,
  match m disk with
  | (Ok a, disk') => f a disk'
  | (Raise e, disk') => (Raise e, disk')
  | (OutOfFuel, disk') => (OutOfFuel, disk')
  end.

(** [open(pe_path, "rb").read()] and [open(pe_path, "wb").write(data)]. *)
Definition read_file : M bytes := λ disk, (Ok disk, disk).
Definition write_file (data : bytes) : M unit := λ _, (Ok (), data).
(** A computation on values in memory only. *)
Definition lift {A} (r : result A) : M A := λ disk, (r, disk).

(** ** PE Patcher: [patch_pe] *)

Definition PE_SIGNATURE : bytes := ["P"; "E"; "000"; "000"]%byte.
Definition PE32_PLUS_MAGIC : Z := 0x20B.
Definition RELOC_NAME : bytes := ["."; "r"; "e"; "l"; "o"; "c"; "000"; "000"]%byte.

Record pe_header : Type := PeHeader {
  coff_off : Z;
  num_sections : Z;
  opt_hdr_size : Z;
  coff_chars_off : Z;
  opt_off : Z;
  size_of_image_off : Z;
  size_of_headers_off : Z;
  dd5_off : Z;
  sec_table_off : Z;
}.

(** Lines 155-173. *)
Definition read_pe_header (pe : bytes) : result pe_header :=
  let u16 := unpack_from 2 pe in
  let u32 := unpack_from 4 pe in
  pe_sig_off ← u32 0x3C;
  if bool_decide (slice pe pe_sig_off (pe_sig_off + 4) ≠ PE_SIGNATURE)
  then Raise (ValueError "invalid PE signature")
  else
    let coff_off := pe_sig_off + 4 in
    num_sections ← u16 (coff_off + 2);
    opt_hdr_size ← u16 (coff_off + 16);
    let coff_chars_off := coff_off + 18 in
    let opt_off := coff_off + 20 in
    magic ← u16 opt_off;
    if bool_decide (magic ≠ PE32_PLUS_MAGIC)
    then Raise (ValueError "not PE32+")
    else
      let size_of_image_off := opt_off + 56 in
      let size_of_headers_off := opt_off + 60 in
      let data_dir_off := opt_off + 112 in
      let dd5_off := data_dir_off + 5 * 8 in
      let sec_table_off := opt_off + opt_hdr_size in
      Ok (PeHeader coff_off num_sections opt_hdr_size coff_chars_off opt_off
                   size_of_image_off size_of_headers_off dd5_off sec_table_off).

Record pe_section : Type := PeSection {
  idx : Z;
  name : string;
  header_off : Z;
  virtual_size : Z;
  virtual_address : Z;
  raw_size : Z;
  raw_offset : Z;
}.

(** Lines 178-188: the descriptor of section [i]. *)
Definition read_section_header (pe : bytes) (hdr : pe_header) (i : Z)
  : result pe_section :=
  let u32 := unpack_from 4 pe in
  let sh_off := sec_table_off hdr + i * 40 in
  let name :=
    decode_ascii_replace (rstrip "000"%byte (slice pe sh_off (sh_off + 8))) in
  vs ← u32 (sh_off + 8);
  va ← u32 (sh_off + 12);
  rs ← u32 (sh_off + 16);
  ro ← u32 (sh_off + 20);
  Ok (PeSection i name sh_off vs va rs ro).

(** Lines 175-191: the section table and the index of the last section named
    [.reloc]. *)
Definition read_pe_sections (pe : bytes) (hdr : pe_header)
  : result (list pe_section * option Z) :=
  foldM (λ '(sections, reloc_idx) i,
           s ← read_section_header pe hdr i;
           Ok (sections ++ [s],
               if bool_decide (name s = ".reloc"%string) then Some i
               else reloc_idx))
        ([], None) (py_range 0 (num_sections hdr) 1).

(** Lines 196-205: the edits of the in-place path on the buffer [pe]. *)
Definition replace_reloc (pe : bytes) (hdr : pe_header) (sec : pe_section)
    (reloc_data : bytes) : result bytes :=
  let ro := raw_offset sec in
  let pe := slice_assign pe ro (ro + len reloc_data) reloc_data in
  let pe := slice_assign pe (ro + len reloc_data) (ro + raw_size sec)
              (zeros (raw_size sec - len reloc_data)) in
  pe ← pack_into 4 pe (header_off sec + 8) (len reloc_data);
  pe ← pack_into 4 pe (dd5_off hdr) (virtual_address sec);
  pe ← pack_into 4 pe (dd5_off hdr + 4) (len reloc_data);
  chars ← unpack_from 2 pe (coff_chars_off hdr);
  pack_into 2 pe (coff_chars_off hdr) (Z.land chars (Z.lnot 0x0001)).

(** [max(sections, key=...)]: the first element with the largest key. *)
Definition max_by {A} (key : A → Z) (l : list A) : result A :=
  match l with
  | [] => Raise (ValueError "max() arg is an empty sequence")
  | x :: l' =>
      Ok (foldl (λ best y, if bool_decide (key y > key best) then y else best)
                x l')
  end.

Definition align_up (x a : Z) : Z := Z.land (x + a - 1) (Z.lnot (a - 1)).

(** Lines 211-248: the edits of the append path on the buffer [pe]. *)
Definition append_reloc (pe : bytes) (hdr : pe_header)
    (sections : list pe_section) (reloc_data : bytes) : result bytes :=
  let raw_size_ := align_up (len reloc_data) PE_FILE_ALIGNMENT in
  last ← max_by virtual_address sections;
  let last_va_end :=
    virtual_address last + Z.max (virtual_size last) (raw_size last) in
  let new_rva := align_up last_va_end PE_SECTION_ALIGNMENT in
  let new_raw_off := align_up (len pe) PE_FILE_ALIGNMENT in
  let headers_end := sec_table_off hdr + num_sections hdr * 40 in
  size_of_headers ← unpack_from 4 pe (size_of_headers_off hdr);
  if bool_decide (headers_end + 40 > size_of_headers)
  then Raise (ValueError "no room in PE header area for new section")
  else
    let new_sh_off := sec_table_off hdr + num_sections hdr * 40 in
    let header := zeros 40 in
    let header := slice_assign header 0 8 RELOC_NAME in
    header ← pack_into 4 header 8 (len reloc_data);
    header ← pack_into 4 header 12 new_rva;
    header ← pack_into 4 header 16 raw_size_;
    header ← pack_into 4 header 20 new_raw_off;
    header ← pack_into 4 header 36 0x42000040;
    let pe := slice_assign pe new_sh_off (new_sh_off + 40) header in
    pe ← pack_into 2 pe (coff_off hdr + 2) (num_sections hdr + 1);
    let new_image_size := new_rva + PE_SECTION_ALIGNMENT in
    pe ← pack_into 4 pe (size_of_image_off hdr) new_image_size;
    pe ← pack_into 4 pe (dd5_off hdr) new_rva;
    pe ← pack_into 4 pe (dd5_off hdr + 4) (len reloc_data);
    chars ← unpack_from 2 pe (coff_chars_off hdr);
    pe ← pack_into 2 pe (coff_chars_off hdr) (Z.land chars (Z.lnot 0x0001));
    let pe :=
      if bool_decide (len pe < new_raw_off)
      then pe ++ zeros (new_raw_off - len pe) else pe in
    let pe := pe ++ reloc_data in
    let pe := pe ++ zeros (raw_size_ - len reloc_data) in
    Ok pe.

Definition patch_pe (reloc_data : bytes) : M unit :=
  pe ← read_file;
  hdr ← lift (read_pe_header pe);
  '(sections, reloc_idx) ← lift (read_pe_sections pe hdr);
  let append : M unit :=
    pe' ← lift (append_reloc pe hdr sections reloc_data);
    write_file pe' in
  match reloc_idx with
  | Some i =>
      sec ← lift (from_option Ok (Raise IndexError) (sections !! Z.to_nat i));
      if bool_decide (len reloc_data ≤ raw_size sec)
      then pe' ← lift (replace_reloc pe hdr sec reloc_data);
           write_file pe'
      else append
  | None => append
  end.

(** ** [main] *)

Definition ELF_MAGIC : bytes := ["127"; "E"; "L"; "F"]%byte.

(** Line 264. *)
Definition check_elf_ident (elf_data : bytes) : result unit :=
  if bool_decide (slice elf_data 0 4 ≠ ELF_MAGIC)
  then Raise (ValueError "not a 64-bit little-endian ELF file")
  else
    ei_class ← index elf_data 4;
    if bool_decide (ei_class ≠ 2)
    then Raise (ValueError "not a 64-bit little-endian ELF file")
    else
      ei_data ← index elf_data 5;
      if bool_decide (ei_data ≠ 1)
      then Raise (ValueError "not a 64-bit little-endian ELF file")
      else Ok ().

(** The line printed on success. *)
Inductive report : Type :=
  | NoRelocations
  | Patched (total from_rela extra table_bytes : Z).

(** [main] after the argument check, with [elf_data] the content of the ELF
    file; the state is the content of the PE file. *)
Definition main (fuel : nat) (elf_data : bytes) : M report :=
  _ ← lift (check_elf_ident elf_data);
  sections ← lift (parse_elf_sections elf_data);
  reloc_offsets ← lift (read_elf_reloc_offsets elf_data sections);
  scan_offsets ← lift (scan_data_for_pointers elf_data sections);
  let all_offsets := merge_sort Z.le (elements (reloc_offsets ∪ scan_offsets)) in
  let extra := len all_offsets - Z.of_nat (size reloc_offsets) in
  match all_offsets with
  | [] => mret NoRelocations
  | _ =>
      reloc_data ← lift (build_base_reloc_table fuel all_offsets);
      _ ← patch_pe reloc_data;
      mret (Patched (len all_offsets) (Z.of_nat (size reloc_offsets)) extra
                    (len reloc_data))
  end.

(** ** The table layout the builder is checked against *)

(** The bytes of a decoded block. *)
Definition block_bytes (b : block) : bytes :=
  le_encode 4 (blk_page b) ++ le_encode 4 (blk_size b)
    ++ concat (le_encode 2 <$> blk_entries b).

(** The block of one page: a DIR64 entry per offset, then a no-op entry when
    the number of offsets is odd. *)
Definition dir64_entry (off : Z) : Z :=
  Z.lor (Z.shiftl IMAGE_REL_BASED_DIR64 12) off.

Definition page_block (page_rva : Z) (offs : list Z) : block :=
  let entries :=
    (dir64_entry <$> offs)
      ++ (if bool_decide (len offs `mod` 2 = 0) then []
          else [IMAGE_REL_BASED_ABSOLUTE]) in
  Block page_rva (8 + 2 * len entries) entries.

(** The keys of [pages] in the order [sorted(pages)] visits them. *)
Definition sorted_pages (offsets : list Z) : list Z :=
  merge_sort Z.le (fst <$> map_to_list (group_pages offsets)).

Definition table_blocks (offsets : list Z) : list block :=
  (λ page_rva,
     page_block page_rva
       (merge_sort Z.le (default [] (group_pages offsets !! page_rva))))
    <$> sorted_pages offsets.

Definition wf_block (b : block) : Prop :=
  0 ≤ blk_page b < 2 ^ 32 ∧ blk_size b < 2 ^ 32
  ∧ blk_size b = 8 + 2 * len (blk_entries b)
  ∧ Forall (λ e, 0 ≤ e < 2 ^ 16) (blk_entries b).

(** ** What the discoverer is checked against *)

(** The section [sec] holds, at one of the record positions the loop visits,
    a relocation record with target offset [t] and the 64-bit absolute
    type. *)
Definition rela_record (elf_data : bytes) (sec : elf_section) (t : Z) : Prop :=
  let entsize :=
    if bool_decide (sec_entsize sec = 0) then 24 else sec_entsize sec in
  let raw := slice elf_data (sec_offset sec) (sec_offset sec + sec_size sec) in
  ∃ j r_info, j ∈ py_range 0 (len raw) entsize
    ∧ unpack_from 8 raw j = Ok t
    ∧ unpack_from 8 raw (j + 8) = Ok r_info
    ∧ Z.land r_info 0xFFFFFFFF = abs_type.

(** The sections the explicit-record scan processes. *)
Definition rela_section_selected (name : string) (sec : elf_section) : Prop :=
  sec_type sec = SHT_RELA
  ∧ (name = ".rela.data" ∨ name = ".rela.rodata")%string.

(** Every record position of [sec] holds a whole record header. *)
Definition rela_readable (elf_data : bytes) (sec : elf_section) : Prop :=
  let entsize :=
    if bool_decide (sec_entsize sec = 0) then 24 else sec_entsize sec in
  let raw := slice elf_data (sec_offset sec) (sec_offset sec + sec_size sec) in
  ∀ j, j ∈ py_range 0 (len raw) entsize → 0 ≤ j ∧ j + 16 ≤ len raw.

(** The 8-byte little-endian word at file position [pos] lies in the image
    address range. *)
Definition in_range_pattern (elf_data : bytes) (image_lo image_hi pos : Z)
  : Prop :=
  ∃ val, unpack_from 8 elf_data pos = Ok val ∧ image_lo ≤ val < image_hi.





(** The file holds the whole extent of the section named [.data]. *)
Definition data_in_file (elf_data : bytes)
    (sections : gmap string elf_section) : Prop :=
  ∀ d, sections !! ".data"%string = Some d →
       0 ≤ sec_offset d ∧ sec_offset d + sec_size d ≤ len elf_data.

(** ** What the patcher is checked against *)

(** Overwriting [len data] bytes of [buf] at offset [a]. *)
Definition write_at (buf : bytes) (a : Z) (data : bytes) : bytes :=
  slice_assign buf a (a + len data) data.

(** The index of the last section named [.reloc]. *)
Definition last_reloc (sections : list pe_section) : option Z :=
  foldl (λ reloc_idx s,
           if bool_decide (name s = ".reloc"%string) then Some (idx s)
           else reloc_idx)
        None sections.

(** The layout the PE format prescribes around the relocation section [sec]:
    the PE header lies after the DOS header, the optional header holds the
    base-relocation data directory entry, and the raw data of [sec] lies
    after the section table and inside the file. *)
Definition wf_pe_layout (pe : bytes) (hdr : pe_header) (sec : pe_section)
  : Prop :=
  0x44 ≤ coff_off hdr
  ∧ 160 ≤ opt_hdr_size hdr
  ∧ sec_table_off hdr + 40 * num_sections hdr ≤ raw_offset sec
  ∧ raw_offset sec + raw_size sec ≤ len pe.

(** The bytes the in-place path writes: the raw data of the section, its
    virtual-size field, the data directory entry and the characteristics. *)
Definition in_place_written (hdr : pe_header) (sec : pe_section) (pos : Z)
  : Prop :=
  raw_offset sec ≤ pos < raw_offset sec + raw_size sec
  ∨ header_off sec + 8 ≤ pos < header_off sec + 12
  ∨ dd5_off hdr ≤ pos < dd5_off hdr + 8
  ∨ coff_chars_off hdr ≤ pos < coff_chars_off hdr + 2.

(** [sec] with its virtual size replaced. *)
Definition with_virtual_size (sec : pe_section) (vs : Z) : pe_section :=
  PeSection (idx sec) (name sec) (header_off sec) vs (virtual_address sec)
            (raw_size sec) (raw_offset sec).

(** The header fields [read_pe_header] relies on. *)
Definition pe_header_view (pe : bytes) (hdr : pe_header) : Prop :=
  ∃ pe_sig_off,
    unpack_from 4 pe 0x3C = Ok pe_sig_off
    ∧ slice pe pe_sig_off (pe_sig_off + 4) = PE_SIGNATURE
    ∧ coff_off hdr = pe_sig_off + 4
    ∧ unpack_from 2 pe (coff_off hdr + 2) = Ok (num_sections hdr)
    ∧ unpack_from 2 pe (coff_off hdr + 16) = Ok (opt_hdr_size hdr)
    ∧ coff_chars_off hdr = coff_off hdr + 18
    ∧ opt_off hdr = coff_off hdr + 20
    ∧ unpack_from 2 pe (opt_off hdr) = Ok PE32_PLUS_MAGIC
    ∧ size_of_image_off hdr = opt_off hdr + 56
    ∧ size_of_headers_off hdr = opt_off hdr + 60
    ∧ dd5_off hdr = opt_off hdr + 152
    ∧ sec_table_off hdr = opt_off hdr + opt_hdr_size hdr.

(** The result of the edits of the in-place path, written as overwrites. *)
Definition in_place_image (pe : bytes) (hdr : pe_header) (sec : pe_section)
    (reloc_data : bytes) (chars : Z) : bytes :=
  let ro := raw_offset sec in
  let pe := write_at pe ro reloc_data in
  let pe := write_at pe (ro + len reloc_data)
              (zeros (raw_size sec - len reloc_data)) in
  let pe := write_at pe (header_off sec + 8) (le_encode 4 (len reloc_data)) in
  let pe := write_at pe (dd5_off hdr) (le_encode 4 (virtual_address sec)) in
  let pe := write_at pe (dd5_off hdr + 4) (le_encode 4 (len reloc_data)) in
  write_at pe (coff_chars_off hdr) (le_encode 2 (Z.land chars (Z.lnot 0x0001))).

(** The reading of "updates its raw-data-size field" that the in-place path
    does not satisfy: after patching, the raw-size field (offset 16 of the
    section header) holds the length of the new table. *)
Definition raw_size_field_rewritten (pe reloc_data : bytes) : Prop :=
  ∀ hdr sections i sec pe',
    read_pe_header pe = Ok hdr →
    read_pe_sections pe hdr = Ok (sections, Some i) →
    sections !! Z.to_nat i = Some sec →
    len reloc_data ≤ raw_size sec →
    patch_pe reloc_data pe = (Ok (), pe') →
    unpack_from 4 pe' (header_off sec + 16) = Ok (len reloc_data).

(** [pe'] is the image [pe0] with every edit of one of the two paths
    applied. *)
Definition fully_patched (pe0 reloc_data pe' : bytes) : Prop :=
  ∃ hdr sections reloc_idx,
    read_pe_header pe0 = Ok hdr
    ∧ read_pe_sections pe0 hdr = Ok (sections, reloc_idx)
    ∧ ((∃ i sec, reloc_idx = Some i
          ∧ sections !! Z.to_nat i = Some sec
          ∧ len reloc_data ≤ raw_size sec
          ∧ replace_reloc pe0 hdr sec reloc_data = Ok pe')
       ∨ ((reloc_idx = None
           ∨ ∃ i sec, reloc_idx = Some i
               ∧ sections !! Z.to_nat i = Some sec
               ∧ raw_size sec < len reloc_data)
          ∧ append_reloc pe0 hdr sections reloc_data = Ok pe')).

(** The fatal conditions of the patcher and of the discoverer. *)
Definition bad_pe_signature (pe : bytes) : Prop :=
  ∃ pe_sig_off,
    unpack_from 4 pe 0x3C = Ok pe_sig_off
    ∧ slice pe pe_sig_off (pe_sig_off + 4) ≠ PE_SIGNATURE.

Definition not_pe32_plus (pe : bytes) : Prop :=
  ∃ pe_sig_off n sz magic,
    unpack_from 4 pe 0x3C = Ok pe_sig_off
    ∧ slice pe pe_sig_off (pe_sig_off + 4) = PE_SIGNATURE
    ∧ unpack_from 2 pe (pe_sig_off + 4 + 2) = Ok n
    ∧ unpack_from 2 pe (pe_sig_off + 4 + 16) = Ok sz
    ∧ unpack_from 2 pe (pe_sig_off + 4 + 20) = Ok magic
    ∧ magic ≠ PE32_PLUS_MAGIC.

Definition no_header_room (pe reloc_data : bytes) : Prop :=
  ∃ hdr sections reloc_idx last size_of_headers,
    read_pe_header pe = Ok hdr
    ∧ read_pe_sections pe hdr = Ok (sections, reloc_idx)
    ∧ (reloc_idx = None
       ∨ ∃ i sec, reloc_idx = Some i
           ∧ sections !! Z.to_nat i = Some sec
           ∧ raw_size sec < len reloc_data)
    ∧ max_by virtual_address sections = Ok last
    ∧ unpack_from 4 pe (size_of_headers_off hdr) = Ok size_of_headers
    ∧ sec_table_off hdr + num_sections hdr * 40 + 40 > size_of_headers.

Definition unsupported_machine (elf_data : bytes) : Prop :=
  ∃ e_machine,
    unpack_from 2 elf_data 18 = Ok e_machine ∧ e_machine ∉ [0xF3; 0x102].

(** The outcome of a buffer edit followed by the write. *)
Definition write_result (r : result bytes) (pe0 : bytes) : result () * bytes :=
  match r with
  | Ok pe' => (Ok (), pe')
  | Raise e => (Raise e, pe0)
  | OutOfFuel => (OutOfFuel, pe0)
  end.

(** The outcome of [main] once the offsets are known. *)
Definition patch_outcome (fuel : nat) (reloc_offsets scan_offsets : gset Z)
    (pe0 : bytes) : result report * bytes :=
  let all_offsets := merge_sort Z.le (elements (reloc_offsets ∪ scan_offsets)) in
  let extra := len all_offsets - Z.of_nat (size reloc_offsets) in
  match all_offsets with
  | [] => (Ok NoRelocations, pe0)
  | _ =>
      match build_base_reloc_table fuel all_offsets with
      | Ok reloc_data =>
          match patch_pe reloc_data pe0 with
          | (Ok _, pe') =>
              (Ok (Patched (len all_offsets) (Z.of_nat (size reloc_offsets))
                           extra (len reloc_data)), pe')
          | (Raise e, pe') => (Raise e, pe')
          | (OutOfFuel, pe') => (OutOfFuel, pe')
          end
      | Raise e => (Raise e, pe0)
      | OutOfFuel => (OutOfFuel, pe0)
      end
  end.


(** The image-size field of [pe] covers the section of index [i]: it is at
    least the section's virtual address plus its virtual size rounded up to
    the section alignment. *)
Definition size_of_image_covers (pe : bytes) (i : Z) : Prop :=
  ∃ hdr sections reloc_idx sec size_of_image,
    read_pe_header pe = Ok hdr
    ∧ read_pe_sections pe hdr = Ok (sections, reloc_idx)
    ∧ sections !! Z.to_nat i = Some sec
    ∧ unpack_from 4 pe (size_of_image_off hdr) = Ok size_of_image
    ∧ virtual_address sec + align_up (virtual_size sec) PE_SECTION_ALIGNMENT
      ≤ size_of_image.

(** ** Sample inputs *)

(** Five RVAs on three pages, in no particular order. *)
Definition sample_offsets : list Z := [0x2010; 0x1008; 0x2008; 0x1000; 0x3ff8].

Definition sample_table : bytes :=
  Eval vm_compute in
    match build_base_reloc_table 2 sample_offsets with
    | Ok buf => buf
    | _ => []
    end.

(** A [.data] section of 20 bytes at file offset 0 and a [.rodata] section of
    8 bytes at file offset 24; the image range is [0x2000, 0x3008). *)
Definition sample_scan_sections : gmap string elf_section :=
  <[".data"%string := ElfSection 0x2000 0 20 1 0]>
    (<[".rodata"%string := ElfSection 0x3000 24 8 1 0]> ∅).


(** An in-range pointer in the first word of [.data]; the last 4 bytes of
    [.data] and the 4 bytes after it would read as the in-range value
    [0x2010]. *)
Definition sample_data_pointer : bytes :=
  le_encode 8 0x2008 ++ le_encode 8 0 ++ le_encode 8 0x2010 ++ le_encode 8 0.


(** A 40-byte PE section header. *)
Definition pe_section_header (name_ : bytes) (vsize va rawsize rawoff chars : Z)
  : bytes :=
  name_ ++ zeros (8 - len name_)
    ++ le_encode 4 vsize ++ le_encode 4 va
    ++ le_encode 4 rawsize ++ le_encode 4 rawoff
    ++ zeros 12 ++ le_encode 4 chars.

(** A PE32+ image: DOS header with [e_lfanew = 0x40], COFF header, a 240-byte
    optional header with 16 data directories, the section table, padding up
    to [SizeOfHeaders = 0x200], then the raw data of the sections. *)
Definition pe_image (chars size_of_image : Z) (section_headers : list bytes)
    (body : bytes) : bytes :=
  let headers :=
    zeros 60 ++ le_encode 4 0x40
      ++ PE_SIGNATURE
      ++ le_encode 2 0x5064 ++ le_encode 2 (len section_headers)
      ++ zeros 12 ++ le_encode 2 240 ++ le_encode 2 chars
      ++ le_encode 2 PE32_PLUS_MAGIC ++ zeros 54
      ++ le_encode 4 size_of_image ++ le_encode 4 0x200 ++ zeros 176
      ++ concat section_headers in
  headers ++ zeros (0x200 - len headers) ++ body.

Definition text_name : bytes := ["."; "t"; "e"; "x"; "t"]%byte.
Definition reloc_name : bytes := ["."; "r"; "e"; "l"; "o"; "c"]%byte.

(** One [.text] section, no [.reloc] section, relocations stripped. *)
Definition sample_pe_plain : bytes :=
  Eval vm_compute in
    pe_image 0x0023 0x2000
      [pe_section_header text_name 0x10 0x1000 0x200 0x200 0x60000020]
      (zeros 0x200).

(** A [.text] section and a [.reloc] section of raw size 0x200 whose raw data
    is all 0xFF. *)
Definition sample_pe_reloc : bytes :=
  Eval vm_compute in
    pe_image 0x0023 0x3000
      [pe_section_header text_name 0x10 0x1000 0x200 0x200 0x60000020;
       pe_section_header reloc_name 0 0x2000 0x200 0x400 0x42000040]
      (zeros 0x200 ++ replicate 0x200 "255"%byte).

(** 2048 RVAs on four pages: a table of 4 * (8 + 2 * 512) = 4128 bytes. *)
Definition large_offsets : list Z := (λ k, 0x2000 + 8 * k) <$> seqZ 0 2048.

Definition large_table : bytes :=
  Eval vm_compute in
    match build_base_reloc_table 2 large_offsets with
    | Ok buf => buf
    | _ => []
    end.

(** The header view and the section table of [sample_pe_reloc]. *)
Definition sample_hdr : pe_header := PeHeader 68 2 240 86 88 144 148 240 328.

(** The header view of [sample_pe_plain]: one section. *)
Definition sample_hdr_plain : pe_header :=
  PeHeader 68 1 240 86 88 144 148 240 328.

Definition sample_text_sec : pe_section :=
  PeSection 0 ".text" 328 16 4096 512 512.
Definition sample_reloc_sec : pe_section :=
  PeSection 1 ".reloc" 368 0 8192 512 1024.
Definition sample_sections : list pe_section :=
  [sample_text_sec; sample_reloc_sec].

(** A 64-byte ELF64 section header. *)
Definition elf_section_header (name_off type addr offset size entsize : Z)
  : bytes :=
  le_encode 4 name_off ++ le_encode 4 type ++ zeros 8
    ++ le_encode 8 addr ++ le_encode 8 offset ++ le_encode 8 size
    ++ zeros 16 ++ le_encode 8 entsize.

(** A little-endian ELF64 file for machine [e_machine]: a [.data] section of
    two words at address 0x2000 whose first word is the in-image pointer
    0x2008, a [.rela.data] section with one absolute relocation of the word
    at 0x2008, and the section name table. *)
Definition sample_elf (e_machine : Z) : bytes :=
  let shstrtab :=
    zeros 1 ++ String.list_byte_of_string ".data" ++ zeros 1
      ++ String.list_byte_of_string ".rela.data" ++ zeros 1
      ++ String.list_byte_of_string ".shstrtab" ++ zeros 1 in
  ELF_MAGIC ++ map byte_of_Z [2; 1; 1] ++ zeros 9
    ++ le_encode 2 2 ++ le_encode 2 e_machine ++ le_encode 4 1
    ++ zeros 16 ++ le_encode 8 132 ++ zeros 4
    ++ le_encode 2 64 ++ zeros 4 ++ le_encode 2 64 ++ le_encode 2 4
    ++ le_encode 2 3
    ++ (le_encode 8 0x2008 ++ le_encode 8 0)
    ++ (le_encode 8 0x2008 ++ le_encode 8 0x100000002 ++ le_encode 8 0)
    ++ shstrtab
    ++ zeros 64
    ++ elf_section_header 1 1 0x2000 64 16 0
    ++ elf_section_header 7 4 0 80 24 24
    ++ elf_section_header 18 3 0 104 28 0.

Definition sample_elf_riscv : bytes := Eval vm_compute in sample_elf 0xF3.
Definition sample_elf_x86_64 : bytes := Eval vm_compute in sample_elf 0x3E.

(** [sample_pe_plain] with the optional-header magic of a 32-bit image. *)
Definition sample_pe32 : bytes :=
  Eval vm_compute in write_at sample_pe_plain 88 (le_encode 2 0x10B).

(** [sample_pe_plain] with [SizeOfHeaders] ending right after its one section
    header. *)
Definition sample_pe_full_headers : bytes :=
  Eval vm_compute in write_at sample_pe_plain 148 (le_encode 4 0x170).

(** [sample_pe_plain] with a wrong signature. *)
Definition sample_pe_bad_signature : bytes :=
  Eval vm_compute in write_at sample_pe_plain 64 (le_encode 2 0x5A4D).

(** [sample_offsets] in another order, and a list with a repeated RVA. *)
Definition sample_offsets_shuffled : list Z :=
  [0x3ff8; 0x1000; 0x2010; 0x2008; 0x1008].
Definition repeated_offsets : list Z := [0x1008; 0x2000; 0x1008].
Definition repeated_table : bytes :=
  Eval vm_compute in
    match build_base_reloc_table 2 repeated_offsets with
    | Ok buf => buf
    | _ => []
    end.


(** A supported machine type and a [.rela.data] section of 30 bytes: one
    whole 24-byte record and 6 bytes of a second one. *)
Definition sample_rela_sections : gmap string elf_section :=
  <[".rela.data"%string := ElfSection 0 0 30 4 24]> ∅.
Definition sample_rela_truncated : bytes :=
  zeros 18 ++ le_encode 2 0xF3 ++ zeros 10.

(** A PE32+ image with an empty section table. *)
Definition sample_pe_no_sections : bytes :=
  Eval vm_compute in pe_image 0x0023 0x1000 [] [].

Definition sample_hdr_no_sections : pe_header :=
  PeHeader 68 0 240 86 88 144 148 240 328.

(** ** Further definitions the proofs refer to *)

(** The header fields of a block fit their 32-bit slots. *)
Definition block_fits (b : block) : Prop :=
  0 ≤ blk_page b < 2 ^ 32 ∧ 0 ≤ blk_size b < 2 ^ 32.

#[global] Instance block_fits_dec b : Decision (block_fits b).
Proof. unfold block_fits. apply _. Defined.


(** A section that takes part in the image address range (lines 101-102). *)
Definition loaded (sec : elf_section) : Prop :=
  sec_addr sec > 0 ∧ sec_size sec > 0.

(** One step of the loop of lines 101-107. *)
Definition image_range_step (acc : option Z * Z) (sec : elf_section)
  : option Z * Z :=
  let '(image_lo, image_hi) := acc in
  if bool_decide (sec_addr sec > 0 ∧ sec_size sec > 0)
  then
    let image_lo :=
      match image_lo with
      | None => Some (sec_addr sec)
      | Some lo =>
          if bool_decide (sec_addr sec < lo) then Some (sec_addr sec)
          else Some lo
      end in
    let end_ := sec_addr sec + sec_size sec in
    (image_lo, if bool_decide (end_ > image_hi) then end_ else image_hi)
  else (image_lo, image_hi).

(** The invariant of the loop: the bounds are those of the loaded sections
    seen so far. *)
Definition range_of (l : list elf_section) (lo : option Z) (hi : Z) : Prop :=
  0 ≤ hi
  ∧ (lo = None ↔ ∀ sec, sec ∈ l → ¬ loaded sec)
  ∧ (∀ lo', lo = Some lo' →
       (∃ sec, sec ∈ l ∧ loaded sec ∧ sec_addr sec = lo')
       ∧ ∀ sec, sec ∈ l → loaded sec → lo' ≤ sec_addr sec)
  ∧ (∀ sec, sec ∈ l → loaded sec → sec_addr sec + sec_size sec ≤ hi)
  ∧ (hi = 0 ∨ ∃ sec, sec ∈ l ∧ loaded sec ∧ sec_addr sec + sec_size sec = hi).


(** Lines 32-39: the fields of the ELF header the reader uses, as
    [(e_shoff, e_shentsize, e_shnum, st_off)]. *)
Definition elf_header_fields (elf_data : bytes) : result (Z * Z * Z * Z) :=
  e_shoff ← unpack_from 8 elf_data 40;
  e_shentsize ← unpack_from 2 elf_data 58;
  e_shnum ← unpack_from 2 elf_data 60;
  e_shstrndx ← unpack_from 2 elf_data 62;
  st_off ← unpack_from 8 elf_data (e_shoff + e_shstrndx * e_shentsize + 24);
  Ok (e_shoff, e_shentsize, e_shnum, st_off).

(** Lines 47-55: the name and the descriptor of section header [i]. *)
Definition elf_section_at (elf_data : bytes) (e_shoff e_shentsize st_off i : Z)
  : result (string * elf_section) :=
  let base := e_shoff + i * e_shentsize in
  name_off ← unpack_from 4 elf_data base;
  name ← sec_name elf_data st_off name_off;
  addr ← unpack_from 8 elf_data (base + 16);
  offset ← unpack_from 8 elf_data (base + 24);
  size ← unpack_from 8 elf_data (base + 32);
  type ← unpack_from 4 elf_data (base + 4);
  entsize ← unpack_from 8 elf_data (base + 56);
  Ok (name, ElfSection addr offset size type entsize).

(** The numbers of the append path (lines 211-216). *)
Definition append_raw_size (reloc_data : bytes) : Z :=
  align_up (len reloc_data) PE_FILE_ALIGNMENT.

Definition append_rva (last : pe_section) : Z :=
  align_up (virtual_address last + Z.max (virtual_size last) (raw_size last))
           PE_SECTION_ALIGNMENT.

Definition append_raw_off (pe : bytes) : Z :=
  align_up (len pe) PE_FILE_ALIGNMENT.

(** The header area of [pe] is laid out as the PE format prescribes: the PE
    header lies after the DOS header, the optional header holds the
    base-relocation data directory entry, and the area announced by
    [SizeOfHeaders] lies inside the file. *)
Definition wf_pe_headers (pe : bytes) (hdr : pe_header) : Prop :=
  0x44 ≤ coff_off hdr
  ∧ 160 ≤ opt_hdr_size hdr
  ∧ ∃ size_of_headers,
      unpack_from 4 pe (size_of_headers_off hdr) = Ok size_of_headers
      ∧ size_of_headers ≤ len pe.

(** [hdr] with the section count replaced. *)
Definition with_num_sections (hdr : pe_header) (n : Z) : pe_header :=
  PeHeader (coff_off hdr) n (opt_hdr_size hdr) (coff_chars_off hdr)
           (opt_off hdr) (size_of_image_off hdr) (size_of_headers_off hdr)
           (dd5_off hdr) (sec_table_off hdr).

(** The bytes of the original file that the append path writes: the slot of
    the new section header, the section count, the image size, the data
    directory entry and the characteristics. *)
Definition append_written (hdr : pe_header) (pos : Z) : Prop :=
  let new_sh_off := sec_table_off hdr + num_sections hdr * 40 in
  new_sh_off ≤ pos < new_sh_off + 40
  ∨ coff_off hdr + 2 ≤ pos < coff_off hdr + 4
  ∨ size_of_image_off hdr ≤ pos < size_of_image_off hdr + 4
  ∨ dd5_off hdr ≤ pos < dd5_off hdr + 8
  ∨ coff_chars_off hdr ≤ pos < coff_chars_off hdr + 2.

(** The header edits of the append path, written as overwrites. *)
Definition append_headers (pe : bytes) (hdr : pe_header) (n chars : Z)
    (new_rva raw_size_ new_raw_off : Z) : bytes :=
  let new_sh_off := sec_table_off hdr + num_sections hdr * 40 in
  let pe := write_at pe new_sh_off
              (pe_section_header RELOC_NAME n new_rva raw_size_ new_raw_off
                                 0x42000040) in
  let pe := write_at pe (coff_off hdr + 2)
              (le_encode 2 (num_sections hdr + 1)) in
  let pe := write_at pe (size_of_image_off hdr)
              (le_encode 4 (new_rva + PE_SECTION_ALIGNMENT)) in
  let pe := write_at pe (dd5_off hdr) (le_encode 4 new_rva) in
  let pe := write_at pe (dd5_off hdr + 4) (le_encode 4 n) in
  write_at pe (coff_chars_off hdr) (le_encode 2 (Z.land chars (Z.lnot 0x0001))).

(** The result of the append path: the edited headers, zeros up to the file
    alignment, the table, and zeros up to its raw size. *)
Definition append_image (pe : bytes) (hdr : pe_header) (reloc_data : bytes)
    (chars new_rva raw_size_ new_raw_off : Z) : bytes :=
  append_headers pe hdr (len reloc_data) chars new_rva raw_size_ new_raw_off
    ++ zeros (new_raw_off - len pe)
    ++ reloc_data
    ++ zeros (raw_size_ - len reloc_data).

(** The descriptor of the section that the append path adds. *)
Definition appended_section (hdr : pe_header) (n new_rva raw_size_ new_raw_off : Z)
  : pe_section :=
  PeSection (num_sections hdr) ".reloc"
            (sec_table_off hdr + num_sections hdr * 40)
            n new_rva raw_size_ new_raw_off.

(** The append path is the one taken when no section is named [.reloc] or
    the last such section is too small. *)
Definition append_taken (sections : list pe_section) (reloc_idx : option Z)
    (reloc_data : bytes) : Prop :=
  reloc_idx = None
  ∨ ∃ i sec, reloc_idx = Some i ∧ sections !! Z.to_nat i = Some sec
             ∧ raw_size sec < len reloc_data.

(** * Proofs *)

(** ** The error monad *)

Lemma bind_Ok {A B} (f : A → result B) (m : result A) (b : B) :
  m ≫= f = Ok b ↔ ∃ a, m = Ok a ∧ f a = Ok b.
Proof. destruct m; simpl; naive_solver. Qed.

Lemma foldM_app {A B} (f : B → A → result B) acc l1 l2 :
  foldM f acc (l1 ++ l2) = foldM f acc l1 ≫= λ acc', foldM f acc' l2.
Proof.
  revert acc. induction l1 as [|x l1 IH]; intros acc; simpl; [done|].
  destruct (f acc x); simpl; auto.
Qed.

Lemma foldM_ext {A B} (f g : B → A → result B) acc l :
  (∀ acc x, f acc x = g acc x) → foldM f acc l = foldM g acc l.
Proof.
  intros Hfg. revert acc. induction l as [|x l IH]; intros acc; simpl; [done|].
  rewrite Hfg. destruct (g acc x); simpl; auto.
Qed.

(** A loop that appends one chunk per element produces the concatenation of
    the chunks. *)
Lemma foldM_append {A} (g : A → result bytes) acc l r :
  foldM (λ buf x, b ← g x; Ok (buf ++ b)) acc l = Ok r ↔
  ∃ chunks, Forall2 (λ x b, g x = Ok b) l chunks ∧ r = acc ++ concat chunks.
Proof.
  revert acc. induction l as [|x l IH]; intros acc; simpl.
  - split.
    + intros [= <-]. exists []. split; [constructor|]. by rewrite app_nil_r.
    + intros (chunks & Hc & ->). inversion Hc; subst. simpl.
      by rewrite app_nil_r.
  - destruct (g x) as [b| |] eqn:Hg; simpl.
    + rewrite IH. split.
      * intros (chunks & Hc & ->). exists (b :: chunks). split.
        -- by constructor.
        -- simpl. by rewrite app_assoc.
      * intros (chunks & Hc & ->). inversion Hc as [|? b' ? chunks' Hb Hc']; subst.
        assert (b' = b) as -> by congruence.
        exists chunks'. split; [done|]. simpl. by rewrite app_assoc.
    + split; [done|]. intros (chunks & Hc & _). inversion Hc; congruence.
    + split; [done|]. intros (chunks & Hc & _). inversion Hc; congruence.
Qed.

(** ** Bytes *)

Lemma len_app {A} (l1 l2 : list A) : len (l1 ++ l2) = len l1 + len l2.
Proof. unfold len. rewrite length_app. lia. Qed.

Lemma len_nonneg {A} (l : list A) : 0 ≤ len l.
Proof. unfold len. lia. Qed.

Lemma u8_range b : 0 ≤ u8 b < 256.
Proof.
  unfold u8. pose proof (Byte.to_N_bounded b). lia.
Qed.

Lemma u8_byte_of_Z z : 0 ≤ z < 256 → u8 (byte_of_Z z) = z.
Proof.
  intros Hz. unfold u8, byte_of_Z. rewrite Z.mod_small by done.
  destruct (Byte.of_N (Z.to_N z)) as [b|] eqn:Hb; simpl.
  - apply Byte.to_of_N in Hb. rewrite Hb. lia.
  - apply Byte.of_N_None_iff in Hb. lia.
Qed.

Lemma byte_of_Z_u8 b : byte_of_Z (u8 b) = b.
Proof.
  unfold byte_of_Z. rewrite Z.mod_small by apply u8_range.
  unfold u8. rewrite N2Z.id, Byte.of_to_N. done.
Qed.

Lemma length_le_encode n x : length (le_encode n x) = n.
Proof. revert x. induction n; intros; simpl; auto. Qed.

Lemma len_le_encode n x : len (le_encode n x) = Z.of_nat n.
Proof. unfold len. by rewrite length_le_encode. Qed.

Lemma le_decode_encode n x :
  0 ≤ x < 2 ^ (8 * Z.of_nat n) → le_decode (le_encode n x) = x.
Proof.
  revert x. induction n as [|n IH]; intros x Hx.
  - simpl in *. lia.
  - cbn [le_encode le_decode].
    rewrite u8_byte_of_Z by (apply Z.mod_pos_bound; lia).
    rewrite IH.
    + pose proof (Z.div_mod x 256). lia.
    + replace (8 * Z.of_nat (S n)) with (8 + 8 * Z.of_nat n) in Hx by lia.
      rewrite Z.pow_add_r in Hx by lia. change (2 ^ 8) with 256 in Hx.
      split; [apply Z.div_pos; lia|].
      apply Z.div_lt_upper_bound; lia.
Qed.

Lemma le_decode_range bs : 0 ≤ le_decode bs < 2 ^ (8 * len bs).
Proof.
  induction bs as [|b bs IH].
  - simpl. unfold len. simpl. lia.
  - cbn [le_decode]. pose proof (u8_range b).
    replace (8 * len (b :: bs)) with (8 + 8 * len bs) by (unfold len; simpl; lia).
    rewrite Z.pow_add_r by (pose proof (len_nonneg bs); lia).
    change (2 ^ 8) with 256. lia.
Qed.

Lemma le_encode_decode bs : le_encode (length bs) (le_decode bs) = bs.
Proof.
  induction bs as [|b bs IH]; [done|].
  cbn [length le_encode le_decode]. pose proof (u8_range b).
  replace ((u8 b + 256 * le_decode bs) `mod` 256) with (u8 b).
  2:{ replace (256 * le_decode bs) with (le_decode bs * 256) by lia.
      rewrite Z.mod_add by lia. by rewrite Z.mod_small. }
  replace ((u8 b + 256 * le_decode bs) `div` 256) with (le_decode bs).
  2:{ replace (256 * le_decode bs) with (le_decode bs * 256) by lia.
      rewrite Z.div_add by lia. rewrite Z.div_small by done. lia. }
  by rewrite byte_of_Z_u8, IH.
Qed.

Lemma pack_Ok n x p :
  pack n x = Ok p ↔ 0 ≤ x < 2 ^ (8 * Z.of_nat n) ∧ p = le_encode n x.
Proof. unfold pack. case_bool_decide; naive_solver. Qed.

Lemma unpack_from_Ok n data off v :
  unpack_from n data off = Ok v ↔
  0 ≤ off ∧ off + Z.of_nat n ≤ len data
  ∧ v = le_decode (slice data off (off + Z.of_nat n)).
Proof. unfold unpack_from. case_bool_decide; naive_solver. Qed.

Lemma length_slice {A} (data : list A) a b :
  0 ≤ a → a ≤ b → b ≤ len data → length (slice data a b) = Z.to_nat (b - a).
Proof.
  unfold slice, len. intros. rewrite length_take, length_drop. lia.
Qed.

Lemma slice_app_exact {A} (l1 l2 l3 : list A) :
  slice (l1 ++ l2 ++ l3) (len l1) (len l1 + len l2) = l2.
Proof.
  unfold slice, len. rewrite Nat2Z.id.
  rewrite drop_app_length.
  replace (Z.to_nat _) with (length l2) by lia.
  by rewrite take_app_length.
Qed.

Lemma elem_of_concat {A} (x : A) (ls : list (list A)) :
  x ∈ concat ls ↔ ∃ l, x ∈ l ∧ l ∈ ls.
Proof.
  induction ls as [|l ls IH]; cbn [concat].
  - split; [by intros ?%elem_of_nil|]. by intros (l & _ & ?%elem_of_nil).
  - rewrite elem_of_app, IH. split.
    + intros [Hx|(l' & Hx & Hl')]; [exists l; split; [done|by left]|].
      exists l'. split; [done|by right].
    + intros (l' & Hx & Hl'). apply elem_of_cons in Hl' as [->|Hl']; eauto.
Qed.

(** ** Pages and intra-page offsets *)

Lemma land_fff_range rva : 0 ≤ Z.land rva 0xFFF < 4096.
Proof.
  change 0xFFF with (Z.ones 12). rewrite Z.land_ones by lia.
  apply Z.mod_pos_bound. lia.
Qed.

Lemma land_lnot_fff rva : Z.land rva (Z.lnot 0xFFF) = 4096 * (rva `div` 4096).
Proof.
  rewrite <- Z.ldiff_land. change 0xFFF with (Z.ones 12).
  rewrite Z.ldiff_ones_r by lia.
  rewrite Z.shiftl_mul_pow2, Z.shiftr_div_pow2 by lia.
  change (2 ^ 12) with 4096. lia.
Qed.

Lemma page_offset_sum rva :
  Z.land rva (Z.lnot 0xFFF) + Z.land rva 0xFFF = rva.
Proof.
  rewrite land_lnot_fff. change 0xFFF with (Z.ones 12).
  rewrite Z.land_ones by lia. change (2 ^ 12) with 4096.
  pose proof (Z.div_mod rva 4096). lia.
Qed.

Lemma rva_pair_sum rva : (rva_pair rva).1 + (rva_pair rva).2 = rva.
Proof. apply page_offset_sum. Qed.

#[global] Instance rva_pair_inj : Inj (=) (=) rva_pair.
Proof.
  intros x y Hxy. rewrite <- (rva_pair_sum x), <- (rva_pair_sum y).
  by rewrite Hxy.
Qed.

Lemma page_range rva :
  0 ≤ rva < 2 ^ 32 → 0 ≤ Z.land rva (Z.lnot 0xFFF) < 2 ^ 32.
Proof.
  intros Hr. pose proof (page_offset_sum rva). pose proof (land_fff_range rva).
  rewrite land_lnot_fff in *.
  assert (0 ≤ rva `div` 4096) by (apply Z.div_pos; lia). lia.
Qed.

(** The 16-bit entry of an intra-page offset: kind in the high nibble, offset
    in the low 12 bits. *)
Lemma dir64_entry_facts off :
  0 ≤ off < 4096 →
  dir64_entry off = 0xA000 + off
  ∧ entry_type (dir64_entry off) = IMAGE_REL_BASED_DIR64
  ∧ entry_offset (dir64_entry off) = off.
Proof.
  intros Hoff.
  assert (Hall : Forall (λ off, dir64_entry off = 0xA000 + off
                   ∧ entry_type (dir64_entry off) = IMAGE_REL_BASED_DIR64
                   ∧ entry_offset (dir64_entry off) = off) (seqZ 0 4096)).
  { apply (bool_decide_unpack _). vm_compute. exact I. }
  rewrite Forall_forall in Hall. apply Hall. apply elem_of_seqZ. lia.
Qed.

Lemma dir64_entry_range off : 0 ≤ off < 4096 → 0 ≤ dir64_entry off < 2 ^ 16.
Proof. intros H. destruct (dir64_entry_facts off H) as (-> & _). lia. Qed.

(** ** One block *)

Lemma len_concat_le_encode n (es : list Z) :
  len (concat (le_encode n <$> es)) = Z.of_nat n * len es.
Proof.
  induction es as [|e es IH].
  - unfold len. simpl. lia.
  - rewrite fmap_cons. cbn [concat]. rewrite len_app, IH, len_le_encode.
    unfold len. cbn [length]. lia.
Qed.

Lemma len_block_bytes b :
  len (block_bytes b) = 8 + 2 * len (blk_entries b).
Proof.
  unfold block_bytes. rewrite !len_app, !len_le_encode, len_concat_le_encode.
  lia.
Qed.

Lemma entry_loop_Ok (offs : list Z) :
  Forall (λ o, 0 ≤ o < 4096) offs →
  foldM (λ entry_data off,
           p ← pack 2 (Z.lor (Z.shiftl IMAGE_REL_BASED_DIR64 12) off);
           Ok (entry_data ++ p)) [] offs
  = Ok (concat (le_encode 2 <$> (dir64_entry <$> offs))).
Proof.
  intros Hoffs. apply foldM_append.
  exists (le_encode 2 <$> (dir64_entry <$> offs)). split; [|done].
  rewrite <- list_fmap_compose. apply Forall2_fmap_r, Forall_Forall2_diag.
  eapply Forall_impl; [exact Hoffs|]. intros o Ho. simpl.
  apply pack_Ok. split; [|done]. apply (dir64_entry_range o Ho).
Qed.

Lemma pad_entries_even fuel entry_data :
  (2 ≤ fuel)%nat → len entry_data `mod` 2 = 0 →
  pad_entries fuel entry_data
  = Ok (entry_data ++ if bool_decide (len entry_data `mod` 4 = 0) then []
                      else le_encode 2 IMAGE_REL_BASED_ABSOLUTE).
Proof.
  intros Hfuel Heven.
  destruct fuel as [|[|fuel]]; [lia..|].
  cbn [pad_entries].
  assert (Hmod : (8 + len entry_data) `mod` 4 = len entry_data `mod` 4).
  { replace (8 + len entry_data) with (len entry_data + 2 * 4) by lia.
    by rewrite Z.mod_add by lia. }
  rewrite Hmod. case_bool_decide as H4.
  - assert (pack 2 IMAGE_REL_BASED_ABSOLUTE
            = Ok (le_encode 2 IMAGE_REL_BASED_ABSOLUTE)) as ->
      by (by apply pack_Ok).
    cbn [mbind result_bind].
    rewrite len_app, len_le_encode.
    rewrite bool_decide_eq_false_2; [by rewrite bool_decide_eq_false_2|].
    intros Hne. apply Hne.
    replace (8 + (len entry_data + Z.of_nat 2))
      with (len entry_data + 2 + 2 * 4) by lia.
    rewrite Z.mod_add by lia.
    pose proof (Z.div_mod (len entry_data) 4).
    pose proof (Z.mod_pos_bound (len entry_data) 4).
    pose proof (Z.div_mod (len entry_data) 2).
    pose proof (Z.div_mod (len entry_data + 2) 4).
    pose proof (Z.mod_pos_bound (len entry_data + 2) 4).
    lia.
  - rewrite bool_decide_eq_true_2 by lia. by rewrite app_nil_r.
Qed.

Lemma even_len_iff (n : Z) : 0 ≤ n → (2 * n) `mod` 4 = 0 ↔ n `mod` 2 = 0.
Proof.
  intros Hn.
  pose proof (Z.div_mod (2 * n) 4). pose proof (Z.mod_pos_bound (2 * n) 4).
  pose proof (Z.div_mod n 2). pose proof (Z.mod_pos_bound n 2). lia.
Qed.

(** What lines 134-142 produce for one page. *)
Lemma build_block_spec fuel page_rva entries :
  (2 ≤ fuel)%nat → Forall (λ o, 0 ≤ o < 4096) entries →
  build_block fuel page_rva entries =
    let b := page_block page_rva (merge_sort Z.le entries) in
    if bool_decide (0 ≤ page_rva < 2 ^ 32 ∧ 0 ≤ blk_size b < 2 ^ 32)
    then Ok (block_bytes b) else Raise StructError.
Proof.
  intros Hfuel Hentries. unfold build_block.
  set (sorted := merge_sort Z.le entries).
  assert (Hsorted : Forall (λ o, 0 ≤ o < 4096) sorted).
  { unfold sorted. by rewrite merge_sort_Permutation. }
  rewrite (entry_loop_Ok sorted Hsorted). cbn [mbind result_bind].
  rewrite pad_entries_even; [|done|].
  2:{ rewrite len_concat_le_encode. rewrite Z.mul_comm. by apply Z.mod_mul. }
  cbn [mbind result_bind].
  rewrite len_concat_le_encode.
  assert (len (dir64_entry <$> sorted) = len sorted) as ->
    by (unfold len; by rewrite length_fmap).
  change (Z.of_nat 2) with 2.
  assert (Hentries_eq :
    concat (le_encode 2 <$> (dir64_entry <$> sorted))
      ++ (if bool_decide ((2 * len sorted) `mod` 4 = 0) then []
          else le_encode 2 IMAGE_REL_BASED_ABSOLUTE)
    = concat (le_encode 2 <$> blk_entries (page_block page_rva sorted))).
  { unfold page_block. cbn [blk_entries].
    rewrite fmap_app, concat_app.
    pose proof (even_len_iff (len sorted) (len_nonneg _)).
    f_equal. repeat case_bool_decide; try tauto; done. }
  rewrite Hentries_eq. rewrite len_concat_le_encode. change (Z.of_nat 2) with 2.
  unfold pack_II. cbn zeta.
  assert (Hsize : blk_size (page_block page_rva sorted)
                  = 8 + 2 * len (blk_entries (page_block page_rva sorted)))
    by done.
  rewrite <- Hsize.
  unfold pack. change (2 ^ (8 * Z.of_nat 4)) with (2 ^ 32).
  unfold block_bytes. cbn [blk_page page_block].
  repeat case_bool_decide; cbn [mbind result_bind]; try done; tauto.
Qed.

(** ** Grouping by page *)

Lemma group_pages_lookup offsets p :
  group_pages offsets !! p =
    match filter (λ rva, Z.land rva (Z.lnot 0xFFF) = p) offsets with
    | [] => None
    | l => Some ((λ rva, Z.land rva 0xFFF) <$> l)
    end.
Proof.
  unfold group_pages.
  induction offsets as [|x offsets IH] using rev_ind; [done|].
  rewrite foldl_app. cbn [foldl]. rewrite filter_app, filter_cons, filter_nil.
  set (pages := foldl _ ∅ offsets) in *.
  destruct (decide (Z.land x (Z.lnot 0xFFF) = p)) as [Hp|Hp].
  - rewrite Hp. rewrite lookup_insert_eq. rewrite IH.
    destruct (filter _ offsets) as [|y l]; [done|].
    simpl. by rewrite fmap_app.
  - rewrite lookup_insert_ne by done. rewrite IH. by rewrite app_nil_r.
Qed.

Lemma group_pages_Some offsets p es :
  group_pages offsets !! p = Some es →
  es = (λ rva, Z.land rva 0xFFF)
         <$> filter (λ rva, Z.land rva (Z.lnot 0xFFF) = p) offsets
  ∧ es ≠ [].
Proof.
  rewrite group_pages_lookup.
  destruct (filter _ offsets) as [|y l]; [done|].
  intros [= <-]. done.
Qed.

Lemma group_pages_is_Some offsets p :
  is_Some (group_pages offsets !! p) ↔
  ∃ rva, rva ∈ offsets ∧ Z.land rva (Z.lnot 0xFFF) = p.
Proof.
  rewrite group_pages_lookup.
  destruct (filter _ offsets) as [|y l] eqn:Hf.
  - split; [by intros [? ?]|]. intros (rva & Hin & Hp).
    assert (rva ∈ filter (λ rva, Z.land rva (Z.lnot 0xFFF) = p) offsets)
      as Hin' by (by apply list_elem_of_filter).
    rewrite Hf in Hin'. by apply elem_of_nil in Hin'.
  - split; [|by eauto]. intros _.
    assert (y ∈ filter (λ rva, Z.land rva (Z.lnot 0xFFF) = p) offsets)
      as Hin' by (rewrite Hf; left).
    apply list_elem_of_filter in Hin'. naive_solver.
Qed.

Lemma group_pages_entries_range offsets p es :
  group_pages offsets !! p = Some es → Forall (λ o, 0 ≤ o < 4096) es.
Proof.
  intros (-> & _)%group_pages_Some.
  apply Forall_fmap, Forall_forall. intros rva _. apply land_fff_range.
Qed.

Lemma group_pages_entries_NoDup offsets p es :
  NoDup offsets → group_pages offsets !! p = Some es → NoDup es.
Proof.
  intros Hnd (-> & _)%group_pages_Some.
  apply NoDup_fmap_2_strong; [|by apply NoDup_filter].
  intros x y [Hx _]%list_elem_of_filter [Hy _]%list_elem_of_filter Hxy.
  rewrite <- (page_offset_sum x), <- (page_offset_sum y). congruence.
Qed.

Lemma NoDup_range_length (l : list Z) n :
  NoDup l → Forall (λ o, 0 ≤ o < n) l → len l ≤ Z.max 0 n.
Proof.
  intros Hnd Hl.
  assert (Hsub : l ⊆+ seqZ 0 n).
  { apply NoDup_submseteq; [done|]. intros x Hx. apply elem_of_seqZ.
    rewrite Forall_forall in Hl. specialize (Hl x Hx). lia. }
  apply submseteq_length in Hsub. rewrite length_seqZ in Hsub.
  unfold len. lia.
Qed.

Lemma elem_of_sorted_pages offsets p :
  p ∈ sorted_pages offsets ↔ is_Some (group_pages offsets !! p).
Proof.
  unfold sorted_pages. rewrite merge_sort_Permutation.
  rewrite list_elem_of_fmap. split.
  - intros ([p' es] & -> & Hin). apply elem_of_map_to_list in Hin. eauto.
  - intros [es Hes]. exists (p, es). split; [done|].
    by apply elem_of_map_to_list.
Qed.

Lemma NoDup_sorted_pages offsets : NoDup (sorted_pages offsets).
Proof.
  unfold sorted_pages. rewrite merge_sort_Permutation.
  apply NoDup_fst_map_to_list.
Qed.

(** ** The whole table *)

Lemma page_block_size_bound page_rva (offs : list Z) :
  len offs ≤ 4096 → 0 ≤ blk_size (page_block page_rva offs) < 2 ^ 32.
Proof.
  intros Hlen. unfold page_block. cbn [blk_size]. rewrite len_app.
  pose proof (len_nonneg offs).
  assert (len (dir64_entry <$> offs) = len offs) as ->
    by (unfold len; by rewrite length_fmap).
  set (n := len offs) in *. case_bool_decide; unfold len; simpl; lia.
Qed.

Lemma page_block_wf page_rva (offs : list Z) :
  0 ≤ page_rva < 2 ^ 32 → 0 ≤ blk_size (page_block page_rva offs) < 2 ^ 32 →
  Forall (λ o, 0 ≤ o < 4096) offs →
  wf_block (page_block page_rva offs).
Proof.
  intros Hp Hs Ho. unfold wf_block.
  split_and!; [cbn [blk_page page_block]; lia..|lia|done|].
  unfold page_block. cbn [blk_entries]. apply Forall_app. split.
  - apply Forall_fmap. eapply Forall_impl; [done|].
    intros o Hr. by apply dir64_entry_range.
  - case_bool_decide; [done|]. repeat constructor. done.
Qed.

(** The chunk the outer loop appends for one page. *)
Lemma build_loop_chunks fuel offsets acc keys :
  foldM (λ buf page_rva,
           entries ← from_option Ok (Raise KeyError)
                        (group_pages offsets !! page_rva);
           blk ← build_block fuel page_rva entries;
           Ok (buf ++ blk)) acc keys
  = foldM (λ buf page_rva,
             blk ← (entries ← from_option Ok (Raise KeyError)
                                 (group_pages offsets !! page_rva);
                    build_block fuel page_rva entries);
             Ok (buf ++ blk)) acc keys.
Proof.
  apply foldM_ext. intros buf p.
  by destruct (from_option Ok (Raise KeyError) (group_pages offsets !! p)).
Qed.

(** The bytes the builder returns are the serialised blocks of
    [table_blocks], and every block fits its 32-bit header fields. *)
Lemma build_base_reloc_table_Ok fuel offsets buf :
  (2 ≤ fuel)%nat →
  build_base_reloc_table fuel offsets = Ok buf →
  buf = concat (block_bytes <$> table_blocks offsets)
  ∧ Forall wf_block (table_blocks offsets).
Proof.
  intros Hfuel. unfold build_base_reloc_table. cbn zeta.
  fold (sorted_pages offsets). rewrite build_loop_chunks, foldM_append.
  intros (chunks & Hchunks & ->). rewrite app_nil_l.
  unfold table_blocks.
  assert (Hkeys : ∀ p, p ∈ sorted_pages offsets →
                       is_Some (group_pages offsets !! p))
    by (intros p; apply elem_of_sorted_pages).
  induction Hchunks as [|p chunk keys chunks Hp Hrest IH].
  - split; [done|constructor].
  - destruct IH as [IH1 IH2].
    { intros q Hq. apply Hkeys. by right. }
    destruct (Hkeys p) as [es Hes]; [by left|].
    rewrite Hes in Hp. cbn [from_option mbind result_bind] in Hp.
    pose proof (group_pages_entries_range _ _ _ Hes) as Hrange.
    rewrite build_block_spec in Hp by done. cbn zeta in Hp.
    case_bool_decide as Hcond; [|done].
    injection Hp as <-.
    rewrite !fmap_cons. cbn [concat]. rewrite Hes. cbn [default].
    split; [by rewrite IH1|].
    constructor; [|done].
    apply page_block_wf; [tauto..|].
    by rewrite merge_sort_Permutation.
Qed.

(** The builder returns a table whenever every RVA fits the 32-bit page
    field. *)
Lemma build_base_reloc_table_total fuel offsets :
  (2 ≤ fuel)%nat → NoDup offsets →
  Forall (λ rva, 0 ≤ rva < 2 ^ 32) offsets →
  ∃ buf, build_base_reloc_table fuel offsets = Ok buf.
Proof.
  intros Hfuel Hnd Hrange. unfold build_base_reloc_table. cbn zeta.
  fold (sorted_pages offsets).
  exists ([] ++ concat (block_bytes <$> table_blocks offsets)).
  rewrite build_loop_chunks. apply foldM_append. eexists. split; [|done].
  unfold table_blocks. rewrite <- list_fmap_compose.
  apply Forall2_fmap_r, Forall_Forall2_diag, Forall_forall.
  intros p Hp. apply elem_of_sorted_pages in Hp as [es Hes].
  cbn [compose]. rewrite !Hes. cbn [from_option mbind result_bind default].
  pose proof (group_pages_entries_range _ _ _ Hes) as Hes_range.
  rewrite build_block_spec by done. cbn zeta.
  rewrite bool_decide_eq_true_2; [done|]. split.
  - assert (is_Some (group_pages offsets !! p)) as Hsome by eauto.
    apply group_pages_is_Some in Hsome as (rva & Hin & <-).
    apply page_range. rewrite Forall_forall in Hrange. by apply Hrange.
  - apply page_block_size_bound.
    assert (Hperm : merge_sort Z.le es ≡ₚ es) by apply merge_sort_Permutation.
    unfold len. rewrite Hperm. fold (len es).
    pose proof (NoDup_range_length es 4096
                  (group_pages_entries_NoDup _ _ _ Hnd Hes) Hes_range).
    lia.
Qed.

(** ** Decoding a serialised table *)

Lemma decode_entries_concat (es : list Z) rest :
  Forall (λ e, 0 ≤ e < 2 ^ 16) es →
  decode_entries (length es) (concat (le_encode 2 <$> es) ++ rest) = es.
Proof.
  induction 1 as [|e es He Hes IH]; [done|].
  cbn [length decode_entries]. rewrite fmap_cons. cbn [concat].
  rewrite <- app_assoc.
  assert (Hlen : length (le_encode 2 e) = 2%nat) by apply length_le_encode.
  rewrite take_app_length' by done. rewrite drop_app_length' by done.
  rewrite le_decode_encode by done. by rewrite IH.
Qed.

Lemma decode_blocks_S fuel buf :
  buf ≠ [] →
  decode_blocks (S fuel) buf =
    match unpack_from 4 buf 0, unpack_from 4 buf 4 with
    | Ok page, Ok size =>
        if bool_decide (8 ≤ size ≤ len buf ∧ size `mod` 2 = 0)
        then rest ← decode_blocks fuel (drop (Z.to_nat size) buf);
             Some (Block page size
                     (decode_entries (Z.to_nat ((size - 8) `div` 2))
                                     (slice buf 8 size)) :: rest)
        else None
    | _, _ => None
    end.
Proof. by destruct buf. Qed.

Lemma decode_blocks_cons fuel b rest :
  wf_block b →
  decode_blocks (S fuel) (block_bytes b ++ rest)
  = (bs ← decode_blocks fuel rest; Some (b :: bs)).
Proof.
  intros (Hpage & Hsize_lt & Hsize & Hes).
  pose proof (len_nonneg (blk_entries b)) as Hn.
  assert (Hbuf : block_bytes b ++ rest
                 = le_encode 4 (blk_page b) ++ le_encode 4 (blk_size b)
                   ++ (concat (le_encode 2 <$> blk_entries b) ++ rest)).
  { unfold block_bytes. by rewrite <- !app_assoc. }
  assert (Hlen : len (block_bytes b ++ rest) = blk_size b + len rest).
  { rewrite len_app, len_block_bytes. lia. }
  pose proof (len_nonneg rest) as Hrest.
  rewrite decode_blocks_S.
  2:{ intros Hnil. rewrite Hnil in Hlen. unfold len in Hlen. simpl in Hlen.
      lia. }
  assert (unpack_from 4 (block_bytes b ++ rest) 0 = Ok (blk_page b)) as ->.
  { apply unpack_from_Ok. split_and!; [lia|lia|].
    rewrite Hbuf.
    pose proof (slice_app_exact [] (le_encode 4 (blk_page b))
      (le_encode 4 (blk_size b)
         ++ concat (le_encode 2 <$> blk_entries b) ++ rest)) as Hs.
    rewrite len_le_encode in Hs. cbn [app] in Hs.
    change (len (@nil byte)) with 0 in Hs. rewrite Hs.
    by rewrite le_decode_encode. }
  assert (unpack_from 4 (block_bytes b ++ rest) 4 = Ok (blk_size b)) as ->.
  { apply unpack_from_Ok. split_and!; [lia|lia|].
    rewrite Hbuf.
    pose proof (slice_app_exact (le_encode 4 (blk_page b))
      (le_encode 4 (blk_size b))
      (concat (le_encode 2 <$> blk_entries b) ++ rest)) as Hs.
    rewrite !len_le_encode in Hs. change (Z.of_nat 4) with 4 in *.
    rewrite Hs.
    rewrite le_decode_encode; [done|]. change (2 ^ (8 * Z.of_nat 4)) with (2 ^ 32).
    lia. }
  rewrite bool_decide_eq_true_2.
  2:{ split; [lia|]. rewrite Hsize.
      replace (8 + 2 * len (blk_entries b)) with ((4 + len (blk_entries b)) * 2)
        by lia.
      apply Z.mod_mul. lia. }
  assert (Hdrop : drop (Z.to_nat (blk_size b)) (block_bytes b ++ rest) = rest).
  { rewrite drop_app_length'; [done|].
    pose proof (len_block_bytes b). unfold len in *. lia. }
  rewrite Hdrop.
  assert (Hentries :
    decode_entries (Z.to_nat ((blk_size b - 8) `div` 2))
      (slice (block_bytes b ++ rest) 8 (blk_size b)) = blk_entries b).
  { replace ((blk_size b - 8) `div` 2) with (len (blk_entries b)).
    2:{ rewrite Hsize.
        replace (8 + 2 * len (blk_entries b) - 8) with (len (blk_entries b) * 2)
          by lia.
        by rewrite Z.div_mul. }
    unfold len at 1. rewrite Nat2Z.id.
    assert (slice (block_bytes b ++ rest) 8 (blk_size b)
            = concat (le_encode 2 <$> blk_entries b)) as ->.
    { pose proof (slice_app_exact
        (le_encode 4 (blk_page b) ++ le_encode 4 (blk_size b))
        (concat (le_encode 2 <$> blk_entries b)) rest) as Hs.
      rewrite len_app, !len_le_encode, len_concat_le_encode in Hs.
      rewrite <- !app_assoc in Hs. rewrite <- Hbuf in Hs.
      rewrite <- Hs. f_equal. lia. }
    rewrite <- (app_nil_r (concat _)). by apply decode_entries_concat. }
  rewrite Hentries. by destruct b.
Qed.

Lemma decode_blocks_concat fuel (bs : list block) :
  Forall wf_block bs → (length bs ≤ fuel)%nat →
  decode_blocks fuel (concat (block_bytes <$> bs)) = Some bs.
Proof.
  intros Hwf. revert fuel. induction Hwf as [|b bs Hb Hbs IH]; intros fuel Hf.
  - by destruct fuel.
  - destruct fuel as [|fuel]; [simpl in Hf; lia|].
    rewrite fmap_cons. cbn [concat]. rewrite decode_blocks_cons by done.
    rewrite IH by (simpl in Hf; lia). done.
Qed.

Lemma decode_table_concat (bs : list block) :
  Forall wf_block bs → decode_table (concat (block_bytes <$> bs)) = Some bs.
Proof.
  intros Hwf. apply decode_blocks_concat; [done|].
  induction bs as [|b bs IH]; [done|].
  rewrite fmap_cons. cbn [concat length]. rewrite length_app.
  inversion Hwf; subst. specialize (IH ltac:(done)).
  pose proof (len_block_bytes b). pose proof (len_nonneg (blk_entries b)).
  unfold len in *. lia.
Qed.

(** The builder's output decodes to [table_blocks]. *)
Lemma build_then_decode fuel offsets buf :
  (2 ≤ fuel)%nat →
  build_base_reloc_table fuel offsets = Ok buf →
  decode_table buf = Some (table_blocks offsets)
  ∧ buf = concat (block_bytes <$> table_blocks offsets).
Proof.
  intros Hfuel Hbuild.
  destruct (build_base_reloc_table_Ok _ _ _ Hfuel Hbuild) as [-> Hwf].
  split; [by apply decode_table_concat|done].
Qed.

(** ** Real and padding entries of a block *)

Lemma filter_all {A} (P : A → Prop) `{∀ x, Decision (P x)} (l : list A) :
  Forall P l → filter P l = l.
Proof.
  induction 1 as [|x l Hx Hl IH]; [done|].
  rewrite filter_cons_True by done. by rewrite IH.
Qed.

Lemma filter_none {A} (P : A → Prop) `{∀ x, Decision (P x)} (l : list A) :
  Forall (λ x, ¬ P x) l → filter P l = [].
Proof.
  induction 1 as [|x l Hx Hl IH]; [done|].
  rewrite filter_cons_False by done. by rewrite IH.
Qed.

Section page_block.
Context (page_rva : Z) (offs : list Z).
Hypothesis Hoffs : Forall (λ o, 0 ≤ o < 4096) offs.

Let padding : list Z :=
  if bool_decide (len offs `mod` 2 = 0) then []
  else [IMAGE_REL_BASED_ABSOLUTE].

Lemma dir64_entries_real :
  Forall (λ e, entry_type e ≠ IMAGE_REL_BASED_ABSOLUTE) (dir64_entry <$> offs).
Proof.
  apply Forall_fmap. eapply Forall_impl; [exact Hoffs|].
  intros o Ho. simpl. destruct (dir64_entry_facts o Ho) as (_ & -> & _). done.
Qed.

Lemma padding_not_real :
  Forall (λ e, ¬ entry_type e ≠ IMAGE_REL_BASED_ABSOLUTE) padding.
Proof.
  unfold padding. case_bool_decide; [done|].
  constructor; [|done]. intros Hne. by apply Hne.
Qed.

Lemma real_entries_page_block :
  real_entries (page_block page_rva offs) = dir64_entry <$> offs.
Proof.
  unfold real_entries, page_block. cbn [blk_entries]. rewrite filter_app.
  rewrite (filter_all _ _ dir64_entries_real).
  fold padding. rewrite (filter_none _ _ padding_not_real).
  by rewrite app_nil_r.
Qed.

Lemma padding_entries_page_block :
  padding_entries (page_block page_rva offs) = padding.
Proof.
  unfold padding_entries, page_block. cbn [blk_entries]. rewrite filter_app.
  fold padding. rewrite filter_none.
  2:{ eapply Forall_impl; [exact dir64_entries_real|]. naive_solver. }
  rewrite filter_all; [done|].
  eapply Forall_impl; [exact padding_not_real|].
  intros e He. simpl in *. destruct (decide (entry_type e = IMAGE_REL_BASED_ABSOLUTE)); tauto.
Qed.

Lemma entries_page_block :
  blk_entries (page_block page_rva offs)
  = real_entries (page_block page_rva offs)
    ++ padding_entries (page_block page_rva offs).
Proof. by rewrite real_entries_page_block, padding_entries_page_block. Qed.

Lemma entry_offsets_page_block :
  entry_offset <$> real_entries (page_block page_rva offs) = offs.
Proof.
  rewrite real_entries_page_block, <- list_fmap_compose.
  rewrite <- (list_fmap_id offs) at 2. apply Forall_fmap_ext_1.
  eapply Forall_impl; [exact Hoffs|]. intros o Ho. simpl.
  by destruct (dir64_entry_facts o Ho) as (_ & _ & ->).
Qed.

Lemma block_pairs_page_block :
  block_pairs (page_block page_rva offs) = (λ o, (page_rva, o)) <$> offs.
Proof.
  unfold block_pairs. cbn [blk_page page_block].
  rewrite <- entry_offsets_page_block at 2.
  by rewrite <- list_fmap_compose.
Qed.

Lemma page_block_lengths :
  let b := page_block page_rva offs in
  blk_size b `mod` 4 = 0
  ∧ blk_size b = 8 + 2 * (len (real_entries b) + len (padding_entries b))
  ∧ len (padding_entries b) ≤ 1.
Proof.
  cbn zeta. rewrite real_entries_page_block, padding_entries_page_block.
  unfold page_block. cbn [blk_size]. fold padding. rewrite len_app.
  assert (len (dir64_entry <$> offs) = len offs) as ->
    by (unfold len; by rewrite length_fmap).
  pose proof (len_nonneg offs).
  split_and!; [|done|].
  - unfold padding. case_bool_decide as Heven.
    + change (len (@nil Z)) with 0.
      pose proof (Z.div_mod (len offs) 2).
      replace (8 + 2 * (len offs + 0)) with ((2 + len offs `div` 2) * 4) by lia.
      by apply Z.mod_mul.
    + change (len [IMAGE_REL_BASED_ABSOLUTE]) with 1.
      pose proof (Z.div_mod (len offs) 2).
      pose proof (Z.mod_pos_bound (len offs) 2).
      replace (8 + 2 * (len offs + 1)) with ((3 + len offs `div` 2) * 4) by lia.
      by apply Z.mod_mul.
  - unfold padding. case_bool_decide; unfold len; simpl; lia.
Qed.
End page_block.

(** ** Strict order *)

Lemma StronglySorted_le_NoDup_lt (l : list Z) :
  StronglySorted Z.le l → NoDup l → StronglySorted Z.lt l.
Proof.
  induction 1 as [|x l Hl IH Hx]; intros Hnd; [constructor|].
  apply NoDup_cons in Hnd as [Hnotin Hnd]. constructor; [by apply IH|].
  rewrite Forall_forall in Hx |- *. intros y Hy.
  specialize (Hx y Hy). assert (x ≠ y) by (intros ->; done). lia.
Qed.

Lemma merge_sort_strict (l : list Z) :
  NoDup l → StronglySorted Z.lt (merge_sort Z.le l).
Proof.
  intros Hnd. apply StronglySorted_le_NoDup_lt.
  - apply (StronglySorted_merge_sort Z.le).
  - by rewrite merge_sort_Permutation.
Qed.

(** ** The blocks of a table *)

Lemma elem_of_table_blocks offsets b :
  b ∈ table_blocks offsets ↔
  ∃ p es, group_pages offsets !! p = Some es
          ∧ b = page_block p (merge_sort Z.le es).
Proof.
  unfold table_blocks. rewrite list_elem_of_fmap. split.
  - intros (p & -> & Hp). apply elem_of_sorted_pages in Hp as [es Hes].
    exists p, es. by rewrite Hes.
  - intros (p & es & Hes & ->). exists p. rewrite Hes. split; [done|].
    apply elem_of_sorted_pages. eauto.
Qed.

Lemma table_blocks_pages offsets :
  blk_page <$> table_blocks offsets = sorted_pages offsets.
Proof.
  unfold table_blocks. rewrite <- list_fmap_compose.
  rewrite <- (list_fmap_id (sorted_pages offsets)) at 2. by apply list_fmap_ext.
Qed.

Lemma sorted_entries_range offsets p es :
  group_pages offsets !! p = Some es →
  Forall (λ o, 0 ≤ o < 4096) (merge_sort Z.le es).
Proof.
  intros Hes. rewrite merge_sort_Permutation.
  by eapply group_pages_entries_range.
Qed.

Lemma elem_of_table_pairs offsets pr :
  pr ∈ table_pairs (table_blocks offsets) ↔ pr ∈ rva_pair <$> offsets.
Proof.
  unfold table_pairs. rewrite elem_of_concat. split.
  - intros (l & Hpr & Hl). apply list_elem_of_fmap in Hl as (b & -> & Hb).
    apply elem_of_table_blocks in Hb as (p & es & Hes & ->).
    rewrite block_pairs_page_block in Hpr by (by eapply sorted_entries_range).
    apply list_elem_of_fmap in Hpr as (o & -> & Ho).
    rewrite merge_sort_Permutation in Ho.
    apply group_pages_Some in Hes as [-> _].
    apply list_elem_of_fmap in Ho as (rva & -> & Hrva).
    apply list_elem_of_filter in Hrva as [<- Hrva].
    apply list_elem_of_fmap. by exists rva.
  - intros (rva & -> & Hrva)%list_elem_of_fmap.
    assert (is_Some (group_pages offsets !! Z.land rva (Z.lnot 0xFFF)))
      as [es Hes] by (apply group_pages_is_Some; eauto).
    exists (block_pairs
              (page_block (Z.land rva (Z.lnot 0xFFF)) (merge_sort Z.le es))).
    split.
    + rewrite block_pairs_page_block by (by eapply sorted_entries_range).
      apply list_elem_of_fmap. exists (Z.land rva 0xFFF). split; [done|].
      rewrite merge_sort_Permutation.
      apply group_pages_Some in Hes as [-> _].
      apply list_elem_of_fmap. exists rva. split; [done|].
      by apply list_elem_of_filter.
    + apply list_elem_of_fmap. eexists. split; [done|].
      apply elem_of_table_blocks. eauto.
Qed.

Lemma NoDup_concat_keyed {A} (key : A → Z) (f : Z → list A) (keys : list Z) :
  NoDup keys →
  (∀ k, k ∈ keys → NoDup (f k)) →
  (∀ k x, k ∈ keys → x ∈ f k → key x = k) →
  NoDup (concat (f <$> keys)).
Proof.
  induction 1 as [|k keys Hk Hnd IH]; intros Hf Hkey; [constructor|].
  rewrite fmap_cons. cbn [concat]. apply NoDup_app. split_and!.
  - apply Hf. by left.
  - intros x Hx Hx'. apply elem_of_concat in Hx' as (l & Hxl & Hl).
    apply list_elem_of_fmap in Hl as (k' & -> & Hk').
    assert (key x = k) by (apply Hkey; [by left|done]).
    assert (key x = k') by (apply Hkey; [by right|done]).
    congruence.
  - apply IH.
    + intros k' Hk'. apply Hf. by right.
    + intros k' x Hk'. apply Hkey. by right.
Qed.

Lemma NoDup_table_pairs offsets :
  NoDup offsets → NoDup (table_pairs (table_blocks offsets)).
Proof.
  intros Hnd. unfold table_pairs, table_blocks.
  rewrite <- list_fmap_compose.
  apply (NoDup_concat_keyed fst); [apply NoDup_sorted_pages|..].
  - intros p Hp. apply elem_of_sorted_pages in Hp as [es Hes].
    cbn [compose]. rewrite Hes. cbn [default].
    rewrite block_pairs_page_block by (by eapply sorted_entries_range).
    apply NoDup_fmap_2; [by intros ?? [=]|].
    rewrite merge_sort_Permutation. by eapply group_pages_entries_NoDup.
  - intros p pr Hp. apply elem_of_sorted_pages in Hp as [es Hes].
    cbn [compose]. rewrite Hes. cbn [default].
    rewrite block_pairs_page_block by (by eapply sorted_entries_range).
    by intros (o & -> & _)%list_elem_of_fmap.
Qed.

(** ** Loops over sets of offsets *)

Lemma foldM_ext_in {A B} (f g : B → A → result B) acc l :
  (∀ acc x, x ∈ l → f acc x = g acc x) → foldM f acc l = foldM g acc l.
Proof.
  revert acc. induction l as [|x l IH]; intros acc Hfg; simpl; [done|].
  rewrite Hfg by left. destruct (g acc x); simpl; [|done..].
  apply IH. intros acc' y Hy. apply Hfg. by right.
Qed.

Lemma foldM_total {A B} (f : B → A → result B) acc l :
  (∀ acc x, x ∈ l → ∃ r, f acc x = Ok r) → ∃ r, foldM f acc l = Ok r.
Proof.
  revert acc. induction l as [|x l IH]; intros acc Hf; simpl; [eauto|].
  destruct (Hf acc x) as [r ->]; [by left|]. simpl.
  apply IH. intros acc' y Hy. apply Hf. by right.
Qed.

(** A loop whose steps only add the elements described by [P]. *)
Lemma foldM_collect {A} (f : gset Z → A → result (gset Z))
    (P : A → Z → Prop) l acc r :
  (∀ acc x r, x ∈ l → f acc x = Ok r → ∀ t, t ∈ r ↔ t ∈ acc ∨ P x t) →
  foldM f acc l = Ok r →
  ∀ t, t ∈ r ↔ t ∈ acc ∨ ∃ x, x ∈ l ∧ P x t.
Proof.
  revert acc. induction l as [|x l IH]; intros acc Hf; simpl.
  - intros [= <-] t. split; [by left|].
    intros [?|(x & ?%elem_of_nil & _)]; done.
  - destruct (f acc x) as [acc'| |] eqn:Hx; simpl; [|done..].
    intros Hr t.
    assert (Htail : ∀ t, t ∈ r ↔ t ∈ acc' ∨ ∃ y, y ∈ l ∧ P y t).
    { apply IH; [|done]. intros acc0 y r0 Hy. apply Hf. by right. }
    assert (Hhead : ∀ t, t ∈ acc' ↔ t ∈ acc ∨ P x t).
    { apply Hf; [by left|done]. }
    rewrite Htail, Hhead. split.
    + intros [[?|?]|(y & Hy & HP)]; [by left|right..].
      * exists x. split; [by left|done].
      * exists y. split; [by right|done].
    + intros [?|(y & Hy & HP)]; [by left; left|].
      apply elem_of_cons in Hy as [->|Hy]; [by left; right|].
      right. eauto.
Qed.

(** ** Explicit-record scan *)

Lemma read_rela_records_spec raw entsize acc r :
  read_rela_records raw entsize acc = Ok r →
  ∀ t, t ∈ r ↔ t ∈ acc ∨
    ∃ j, j ∈ py_range 0 (len raw) entsize
      ∧ ∃ r_info, unpack_from 8 raw j = Ok t
          ∧ unpack_from 8 raw (j + 8) = Ok r_info
          ∧ Z.land r_info 0xFFFFFFFF = abs_type.
Proof.
  unfold read_rela_records. apply foldM_collect.
  intros acc' j r' _ Hstep t.
  destruct (unpack_from 8 raw j) as [r_offset| |] eqn:Hoff; simpl in Hstep;
    [|done..].
  destruct (unpack_from 8 raw (j + 8)) as [r_info| |] eqn:Hinfo;
    simpl in Hstep; [|done..].
  case_bool_decide as Htype; injection Hstep as <-.
  - rewrite elem_of_union, elem_of_singleton. split.
    + intros [->|?]; [right|by left]. eauto.
    + intros [?|(r_info' & [= ->] & _)]; [by right|by left].
  - split; [by left|]. intros [?|(r_info' & _ & [= <-] & ?)]; done.
Qed.

Lemma read_rela_records_total raw entsize acc :
  (∀ j, j ∈ py_range 0 (len raw) entsize → 0 ≤ j ∧ j + 16 ≤ len raw) →
  ∃ r, read_rela_records raw entsize acc = Ok r.
Proof.
  intros Hread. unfold read_rela_records. apply foldM_total.
  intros acc' j Hj. destruct (Hread j Hj) as [Hj0 Hj16].
  unfold unpack_from. change (Z.of_nat 8) with 8.
  rewrite !bool_decide_eq_true_2 by lia. simpl.
  case_bool_decide; eauto.
Qed.

Lemma rela_name_selected (name : string) :
  name ∈ [".rela.data"; ".rela.rodata"]%string
  ↔ (name = ".rela.data" ∨ name = ".rela.rodata")%string.
Proof.
  rewrite !elem_of_cons. split; [|tauto].
  intros [?|[?|?%elem_of_nil]]; tauto.
Qed.

Lemma reloc_section_step_spec elf_data name sec acc r :
  (if bool_decide (sec_type sec ≠ SHT_RELA) then Ok acc
   else if bool_decide (name ∉ [".rela.data"; ".rela.rodata"]%string)
   then Ok acc
   else
     let entsize :=
       if bool_decide (sec_entsize sec = 0) then 24 else sec_entsize sec in
     let raw := slice elf_data (sec_offset sec)
                      (sec_offset sec + sec_size sec) in
     read_rela_records raw entsize acc) = Ok r →
  ∀ t, t ∈ r ↔ t ∈ acc
               ∨ (rela_section_selected name sec ∧ rela_record elf_data sec t).
Proof.
  unfold rela_section_selected, rela_record.
  case_bool_decide as Htype.
  { intros [= <-] t. split; [by left|]. intros [?|[[? _] _]]; done. }
  case_bool_decide as Hname.
  { intros [= <-] t. split; [by left|].
    intros [?|[[_ Hsel%rela_name_selected] _]]; done. }
  cbn zeta. intros Hr t. rewrite (read_rela_records_spec _ _ _ _ Hr t).
  assert (Hsel : (name = ".rela.data" ∨ name = ".rela.rodata")%string).
  { apply rela_name_selected.
    by destruct (decide (name ∈ [".rela.data"; ".rela.rodata"]%string)). }
  assert (Htype' : sec_type sec = SHT_RELA)
    by (by destruct (decide (sec_type sec = SHT_RELA))).
  split.
  - intros [?|(j & Hj & r_info & ? & ? & ?)]; [by left|right].
    split; [done|]. exists j, r_info. done.
  - intros [?|[_ (j & r_info & ? & ? & ? & ?)]]; [by left|right].
    exists j. split; [done|]. exists r_info. done.
Qed.

(** ** Heuristic pointer scan *)

Lemma land_lnot_7 size : Z.land size (Z.lnot 7) = 8 * (size `div` 8).
Proof.
  rewrite <- Z.ldiff_land. change 7 with (Z.ones 3).
  rewrite Z.ldiff_ones_r by lia.
  rewrite Z.shiftl_mul_pow2, Z.shiftr_div_pow2 by lia.
  change (2 ^ 3) with 8. lia.
Qed.

(** [range(0, size & ~7, 8)] is 0, 8, ..., 8 * (size // 8 - 1). *)
Lemma scan_range size :
  py_range 0 (Z.land size (Z.lnot 7)) 8 = (λ k, 8 * k) <$> seqZ 0 (size `div` 8).
Proof.
  unfold py_range. rewrite land_lnot_7.
  replace ((8 * (size `div` 8) - 0 + 8 - 1) `div` 8) with (size `div` 8).
  2:{ replace (8 * (size `div` 8) - 0 + 8 - 1) with (size `div` 8 * 8 + 7)
        by lia.
      rewrite Z.div_add_l by lia. change (7 `div` 8) with 0. lia. }
  apply list_fmap_ext. intros _ k _. lia.
Qed.

Lemma elem_of_scan_range size i :
  i ∈ py_range 0 (Z.land size (Z.lnot 7)) 8 ↔
  ∃ k, 0 ≤ k < size `div` 8 ∧ i = 8 * k.
Proof.
  rewrite scan_range, list_elem_of_fmap. split.
  - intros (k & -> & Hk%elem_of_seqZ). exists k. lia.
  - intros (k & Hk & ->). exists k. split; [done|]. apply elem_of_seqZ. lia.
Qed.

Lemma div8_bound size : 0 ≤ size → 8 * (size `div` 8) ≤ size.
Proof. intros. pose proof (Z.div_mod size 8). pose proof (Z.mod_pos_bound size 8). lia. Qed.

Lemma lookup_slice {A} (data : list A) a b (i : nat) :
  0 ≤ a →
  slice data a b !! i
  = if bool_decide (Z.of_nat i < b - a) then data !! (Z.to_nat a + i)%nat
    else None.
Proof.
  intros Ha. unfold slice. case_bool_decide.
  - rewrite lookup_take_lt by lia. by rewrite lookup_drop.
  - by rewrite lookup_take_ge by lia.
Qed.

(** Two buffers that agree on the bytes of a field unpack to the same
    value. *)
Lemma unpack_from_agree n (data data' : bytes) off :
  length data' = length data →
  (∀ pos : nat, off ≤ Z.of_nat pos < off + Z.of_nat n →
                data' !! pos = data !! pos) →
  unpack_from n data' off = unpack_from n data off.
Proof.
  intros Hlen Hagree. unfold unpack_from, len. rewrite Hlen.
  case_bool_decide as Hin; [|done]. do 2 f_equal.
  apply list_eq. intros i. rewrite !lookup_slice by lia.
  case_bool_decide; [|done]. apply Hagree. lia.
Qed.

Lemma scan_word_agree elf_data elf_data' base addr lo hi acc i :
  length elf_data' = length elf_data →
  (∀ pos : nat, base + i ≤ Z.of_nat pos < base + i + 8 →
                elf_data' !! pos = elf_data !! pos) →
  scan_word elf_data' base addr lo hi acc i
  = scan_word elf_data base addr lo hi acc i.
Proof.
  intros Hlen Hagree. unfold scan_word.
  by rewrite (unpack_from_agree 8 elf_data elf_data').
Qed.

(** The scan depends on the file only through its length and the whole
    8-byte words of the [.data] extent. *)
Lemma scan_frame elf_data elf_data' sections data_sec :
  sections !! ".data"%string = Some data_sec →
  length elf_data' = length elf_data →
  (∀ pos : nat,
     sec_offset data_sec ≤ Z.of_nat pos
       < sec_offset data_sec + 8 * (sec_size data_sec `div` 8) →
     elf_data' !! pos = elf_data !! pos) →
  scan_data_for_pointers elf_data' sections
  = scan_data_for_pointers elf_data sections.
Proof.
  intros Hdata Hlen Hagree. unfold scan_data_for_pointers. rewrite Hdata.
  destruct (image_range sections) as [[lo|] hi]; [|done].
  apply foldM_ext_in. intros acc i (k & Hk & ->)%elem_of_scan_range.
  apply scan_word_agree; [done|]. intros pos Hpos. apply Hagree. lia.
Qed.

Lemma scan_word_spec elf_data base addr lo hi acc i r :
  scan_word elf_data base addr lo hi acc i = Ok r →
  ∀ t, t ∈ r ↔ t ∈ acc
               ∨ (t = addr + i ∧ in_range_pattern elf_data lo hi (base + i)).
Proof.
  unfold scan_word, in_range_pattern.
  destruct (unpack_from 8 elf_data (base + i)) as [val| |]; simpl; [|done..].
  case_bool_decide as Hval; intros [= <-] t.
  - rewrite elem_of_union, elem_of_singleton. split.
    + intros [->|?]; [right|by left]. eauto.
    + intros [?|[-> _]]; [by right|by left].
  - split; [by left|]. intros [?|[_ (val' & [= <-] & ?)]]; done.
Qed.

(** The set the scan returns: the RVAs of the whole words of [.data] whose
    value lies in the image range. *)
Lemma scan_spec elf_data sections offsets :
  scan_data_for_pointers elf_data sections = Ok offsets →
  ∀ rva, rva ∈ offsets ↔
    ∃ data_sec lo hi k,
      sections !! ".data"%string = Some data_sec
      ∧ image_range sections = (Some lo, hi)
      ∧ 0 ≤ k < sec_size data_sec `div` 8
      ∧ rva = sec_addr data_sec + 8 * k
      ∧ in_range_pattern elf_data lo hi (sec_offset data_sec + 8 * k).
Proof.
  unfold scan_data_for_pointers.
  destruct (sections !! ".data"%string) as [data_sec|] eqn:Hdata.
  2:{ intros [= <-] rva. rewrite elem_of_empty. naive_solver. }
  destruct (image_range sections) as [[lo|] hi] eqn:Hrange.
  2:{ intros [= <-] rva. rewrite elem_of_empty. naive_solver. }
  intros Hloop rva.
  rewrite (foldM_collect _
    (λ i t, t = sec_addr data_sec + i
            ∧ in_range_pattern elf_data lo hi (sec_offset data_sec + i))
    _ _ _ ltac:(intros acc i r _; apply scan_word_spec) Hloop rva).
  rewrite elem_of_empty. split.
  - intros [[]|(i & (k & Hk & ->)%elem_of_scan_range & -> & Hpat)].
    exists data_sec, lo, hi, k. done.
  - intros (d & lo' & hi' & k & [= <-] & [= <- <-] & Hk & -> & Hpat).
    right. exists (8 * k). split; [|done]. apply elem_of_scan_range. eauto.
Qed.

Lemma scan_total elf_data sections :
  data_in_file elf_data sections →
  ∃ offsets, scan_data_for_pointers elf_data sections = Ok offsets.
Proof.
  intros Hfile. unfold scan_data_for_pointers.
  destruct (sections !! ".data"%string) as [data_sec|] eqn:Hdata; [|eauto].
  destruct (image_range sections) as [[lo|] hi]; [|eauto].
  destruct (Hfile data_sec Hdata) as [Hoff Hend].
  apply foldM_total. intros acc i (k & Hk & ->)%elem_of_scan_range.
  unfold scan_word, unpack_from. change (Z.of_nat 8) with 8.
  assert (0 ≤ sec_size data_sec).
  { destruct (decide (0 ≤ sec_size data_sec)); [done|].
    assert (sec_size data_sec `div` 8 < 0)
      by (apply Z.div_lt_upper_bound; lia). lia. }
  pose proof (div8_bound (sec_size data_sec)).
  rewrite bool_decide_eq_true_2 by lia. simpl. case_bool_decide; eauto.
Qed.


(** ** Overwriting bytes in place *)

Section write_at.
Context (buf : bytes) (a : Z) (data : bytes).
Hypothesis Ha : 0 ≤ a.
Hypothesis Hend : a + len data ≤ len buf.

Lemma length_write_at : length (write_at buf a data) = length buf.
Proof.
  unfold write_at, slice_assign, len in *.
  rewrite !length_app, length_take, length_drop. lia.
Qed.

Lemma len_write_at : len (write_at buf a data) = len buf.
Proof. unfold len. by rewrite length_write_at. Qed.

Lemma lookup_write_at (pos : nat) :
  write_at buf a data !! pos
  = if bool_decide (a ≤ Z.of_nat pos < a + len data)
    then data !! (pos - Z.to_nat a)%nat else buf !! pos.
Proof.
  unfold write_at, slice_assign, len in *.
  rewrite Z.max_r by lia.
  destruct (decide (Z.of_nat pos < a)) as [Hlt|Hge].
  - rewrite bool_decide_eq_false_2 by lia.
    rewrite lookup_app_l by (rewrite length_take; lia).
    by rewrite lookup_take_lt by lia.
  - rewrite lookup_app_r by (rewrite length_take; lia).
    rewrite length_take. rewrite Nat.min_l by lia.
    case_bool_decide as Hin.
    + by rewrite lookup_app_l by lia.
    + rewrite lookup_app_r by lia. rewrite lookup_drop. f_equal. lia.
Qed.

Lemma slice_write_at_same : slice (write_at buf a data) a (a + len data) = data.
Proof.
  apply list_eq. intros i. rewrite lookup_slice by done.
  case_bool_decide as Hi.
  - rewrite lookup_write_at. rewrite bool_decide_eq_true_2 by lia.
    f_equal. lia.
  - symmetry. apply lookup_ge_None. unfold len in *. lia.
Qed.

Lemma slice_write_at_other c d :
  0 ≤ c → d ≤ a ∨ a + len data ≤ c →
  slice (write_at buf a data) c d = slice buf c d.
Proof.
  intros Hc Hdis. apply list_eq. intros i. rewrite !lookup_slice by done.
  case_bool_decide as Hi; [|done].
  rewrite lookup_write_at. by rewrite bool_decide_eq_false_2 by lia.
Qed.

Lemma unpack_from_write_at_other n off :
  off + Z.of_nat n ≤ a ∨ a + len data ≤ off →
  unpack_from n (write_at buf a data) off = unpack_from n buf off.
Proof.
  intros Hdis. apply unpack_from_agree; [apply length_write_at|].
  intros pos Hpos. rewrite lookup_write_at.
  by rewrite bool_decide_eq_false_2 by lia.
Qed.
End write_at.

Lemma unpack_from_write_at_same buf n off x :
  0 ≤ off → off + Z.of_nat n ≤ len buf → 0 ≤ x < 2 ^ (8 * Z.of_nat n) →
  unpack_from n (write_at buf off (le_encode n x)) off = Ok x.
Proof.
  intros Hoff Hend Hx. apply unpack_from_Ok.
  rewrite len_write_at by (rewrite ?len_le_encode; lia).
  split_and!; [done..|].
  pose proof (slice_write_at_same buf off (le_encode n x) Hoff) as Hs.
  rewrite len_le_encode in Hs. rewrite Hs by done.
  by rewrite le_decode_encode.
Qed.

Lemma pack_into_Ok n buf off x buf' :
  pack_into n buf off x = Ok buf' ↔
  0 ≤ x < 2 ^ (8 * Z.of_nat n) ∧ 0 ≤ off ∧ off + Z.of_nat n ≤ len buf
  ∧ buf' = write_at buf off (le_encode n x).
Proof.
  unfold pack_into, pack, write_at. rewrite len_le_encode.
  repeat case_bool_decide; simpl; naive_solver.
Qed.

Lemma len_zeros n : 0 ≤ n → len (zeros n) = n.
Proof. intros. unfold len, zeros. rewrite length_replicate. lia. Qed.

(** A [u32] field read from a buffer fits 32 bits. *)
Lemma unpack_from_range n data off v :
  unpack_from n data off = Ok v → 0 ≤ v < 2 ^ (8 * Z.of_nat n).
Proof.
  intros (Hoff & Hend & ->)%unpack_from_Ok.
  pose proof (le_decode_range (slice data off (off + Z.of_nat n))) as Hr.
  unfold len in Hr at 1. rewrite length_slice in Hr by lia.
  replace (Z.of_nat (Z.to_nat (off + Z.of_nat n - off))) with (Z.of_nat n)
    in Hr by lia.
  done.
Qed.

(** ** The header view *)

Lemma read_pe_header_Ok pe hdr :
  read_pe_header pe = Ok hdr ↔ pe_header_view pe hdr.
Proof.
  unfold read_pe_header, pe_header_view. split.
  - destruct (unpack_from 4 pe 60) as [sig_off| |]; simpl; [|done..].
    case_bool_decide as Hsig; [done|].
    destruct (unpack_from 2 pe (sig_off + 4 + 2)) as [n| |] eqn:Hn; simpl;
      [|done..].
    destruct (unpack_from 2 pe (sig_off + 4 + 16)) as [sz| |] eqn:Hsz; simpl;
      [|done..].
    destruct (unpack_from 2 pe (sig_off + 4 + 20)) as [magic| |] eqn:Hmagic;
      simpl; [|done..].
    case_bool_decide as Hm; [done|]. intros [= <-]. simpl.
    exists sig_off. split_and!; try done.
    + by rewrite Hmagic, Hm.
    + lia.
  - intros (sig_off & -> & Hsig & Hcoff & Hn & Hsz & Hchars & Hopt & Hmagic
            & Himg & Hhdrs & Hdd & Htab).
    simpl. rewrite bool_decide_eq_false_2 by (by intros ?).
    rewrite <- Hcoff, Hn, Hsz. simpl. rewrite <- Hopt, Hmagic. simpl.
    destruct hdr. simpl in *. subst. do 2 f_equal. lia.
Qed.

Lemma slice_agree {A} (data data' : list A) a b :
  0 ≤ a →
  (∀ pos : nat, a ≤ Z.of_nat pos < b → data' !! pos = data !! pos) →
  slice data' a b = slice data a b.
Proof.
  intros Ha Hagree. apply list_eq. intros i. rewrite !lookup_slice by done.
  case_bool_decide; [|done]. apply Hagree. lia.
Qed.

(** [read_pe_header] depends only on [e_lfanew], the signature, the COFF
    header up to the optional-header size, and the optional-header magic. *)
Lemma pe_header_view_agree pe pe' hdr :
  pe_header_view pe hdr →
  length pe' = length pe →
  (∀ pos : nat,
     0x3C ≤ Z.of_nat pos < 0x40
     ∨ coff_off hdr - 4 ≤ Z.of_nat pos < coff_off hdr + 18
     ∨ opt_off hdr ≤ Z.of_nat pos < opt_off hdr + 2 →
     pe' !! pos = pe !! pos) →
  pe_header_view pe' hdr.
Proof.
  intros (sig_off & Hsig_off & Hsig & Hcoff & Hn & Hsz & Hchars & Hopt & Hmagic
          & Himg & Hhdrs & Hdd & Htab) Hlen Hagree.
  assert (0 ≤ sig_off) by (apply unpack_from_range in Hsig_off; lia).
  assert (Hfield : ∀ n off v,
    unpack_from n pe off = Ok v →
    (∀ pos : nat, off ≤ Z.of_nat pos < off + Z.of_nat n →
       0x3C ≤ Z.of_nat pos < 0x40
       ∨ coff_off hdr - 4 ≤ Z.of_nat pos < coff_off hdr + 18
       ∨ opt_off hdr ≤ Z.of_nat pos < opt_off hdr + 2) →
    unpack_from n pe' off = Ok v).
  { intros n off v <- Hreg. apply unpack_from_agree; [done|].
    intros pos Hpos. by apply Hagree, Hreg. }
  exists sig_off. split_and!; [| |done| | |done|done| |done|done|done|done].
  - apply (Hfield _ _ _ Hsig_off). intros pos Hpos. lia.
  - rewrite <- Hsig. apply slice_agree; [done|].
    intros pos Hpos. apply Hagree. lia.
  - apply (Hfield _ _ _ Hn). intros pos Hpos. lia.
  - apply (Hfield _ _ _ Hsz). intros pos Hpos. lia.
  - apply (Hfield _ _ _ Hmagic). intros pos Hpos. lia.
Qed.

(** ** The section table *)

Lemma py_range_step1 n : py_range 0 n 1 = seqZ 0 n.
Proof.
  unfold py_range. replace ((n - 0 + 1 - 1) `div` 1) with n
    by (rewrite Z.div_1_r; lia).
  rewrite <- (list_fmap_id (seqZ 0 n)) at 2. apply list_fmap_ext.
  intros _ k _. simpl. lia.
Qed.

Lemma read_section_header_Ok pe hdr i s :
  read_section_header pe hdr i = Ok s ↔
  let sh_off := sec_table_off hdr + i * 40 in
  ∃ vs va rs ro,
    unpack_from 4 pe (sh_off + 8) = Ok vs
    ∧ unpack_from 4 pe (sh_off + 12) = Ok va
    ∧ unpack_from 4 pe (sh_off + 16) = Ok rs
    ∧ unpack_from 4 pe (sh_off + 20) = Ok ro
    ∧ s = PeSection i
            (decode_ascii_replace
               (rstrip "000"%byte (slice pe sh_off (sh_off + 8))))
            sh_off vs va rs ro.
Proof.
  unfold read_section_header. cbn zeta. split.
  - destruct (unpack_from 4 pe (sec_table_off hdr + i * 40 + 8)) as [vs| |];
      simpl; [|done..].
    destruct (unpack_from 4 pe (sec_table_off hdr + i * 40 + 12)) as [va| |];
      simpl; [|done..].
    destruct (unpack_from 4 pe (sec_table_off hdr + i * 40 + 16)) as [rs| |];
      simpl; [|done..].
    destruct (unpack_from 4 pe (sec_table_off hdr + i * 40 + 20)) as [ro| |];
      simpl; [|done..].
    intros [= <-]. by exists vs, va, rs, ro.
  - intros (vs & va & rs & ro & -> & -> & -> & -> & ->). done.
Qed.

Lemma last_reloc_snoc sections s :
  last_reloc (sections ++ [s])
  = if bool_decide (name s = ".reloc"%string) then Some (idx s)
    else last_reloc sections.
Proof. unfold last_reloc. by rewrite foldl_app. Qed.

Lemma read_pe_sections_loop pe hdr l acc ridx0 sections ridx :
  foldM (λ '(sections, reloc_idx) i,
           s ← read_section_header pe hdr i;
           Ok (sections ++ [s],
               if bool_decide (name s = ".reloc"%string) then Some i
               else reloc_idx))
        (acc, ridx0) l = Ok (sections, ridx) ↔
  ∃ new, Forall2 (λ i s, read_section_header pe hdr i = Ok s) l new
    ∧ sections = acc ++ new
    ∧ ridx = foldl (λ reloc_idx s,
                      if bool_decide (name s = ".reloc"%string)
                      then Some (idx s) else reloc_idx) ridx0 new.
Proof.
  revert acc ridx0. induction l as [|i l IH]; intros acc ridx0; simpl.
  - split.
    + intros [= <- <-]. exists []. by rewrite app_nil_r.
    + intros (new & Hnew & -> & ->). inversion Hnew; subst. simpl.
      by rewrite app_nil_r.
  - destruct (read_section_header pe hdr i) as [s| |] eqn:Hs; simpl.
    + assert (Hidx : idx s = i).
      { apply read_section_header_Ok in Hs as (?&?&?&?&_&_&_&_&->). done. }
      rewrite IH. split.
      * intros (new & Hnew & -> & ->). exists (s :: new).
        split_and!; [by constructor|by rewrite <- app_assoc|].
        simpl. by rewrite Hidx.
      * intros (new & Hnew & -> & ->).
        inversion Hnew as [|? s' ? new' Hs' Hnew']; subst.
        assert (s' = s) as -> by congruence.
        exists new'. split_and!; [done|by rewrite <- app_assoc|done].
    + split; [done|]. intros (new & Hnew & _). inversion Hnew; congruence.
    + split; [done|]. intros (new & Hnew & _). inversion Hnew; congruence.
Qed.

Lemma read_pe_sections_Ok pe hdr sections ridx :
  read_pe_sections pe hdr = Ok (sections, ridx) ↔
  Forall2 (λ i s, read_section_header pe hdr i = Ok s)
          (seqZ 0 (num_sections hdr)) sections
  ∧ ridx = last_reloc sections.
Proof.
  unfold read_pe_sections. rewrite read_pe_sections_loop, py_range_step1.
  unfold last_reloc. split.
  - intros (new & Hnew & -> & ->). done.
  - intros [Hall ->]. by exists sections.
Qed.

Lemma read_pe_sections_lookup pe hdr sections ridx (k : nat) s :
  read_pe_sections pe hdr = Ok (sections, ridx) →
  sections !! k = Some s →
  Z.of_nat k < num_sections hdr
  ∧ read_section_header pe hdr (Z.of_nat k) = Ok s.
Proof.
  intros [Hall _]%read_pe_sections_Ok Hk.
  destruct (Forall2_lookup_r _ _ _ _ _ Hall Hk) as (i & Hi & Hs).
  apply lookup_seqZ in Hi as [-> Hlt]. split; [done|].
  by rewrite Z.add_0_l in Hs.
Qed.

Lemma last_reloc_insert sections (k : nat) s s' :
  sections !! k = Some s → name s' = name s → idx s' = idx s →
  last_reloc (<[k := s']> sections) = last_reloc sections.
Proof.
  unfold last_reloc. generalize (@None Z) as acc. revert k.
  induction sections as [|x l IH]; intros k acc Hk Hname Hidx; [done|].
  destruct k as [|k]; simpl in *.
  - injection Hk as ->. by rewrite Hname, Hidx.
  - by apply IH.
Qed.

(** ** The in-place path *)

Lemma land_lnot_1_range c :
  0 ≤ c < 2 ^ 16 → 0 ≤ Z.land c (Z.lnot 0x0001) < 2 ^ 16.
Proof.
  intros Hc. rewrite <- Z.ldiff_land. change 1 with (Z.ones 1).
  rewrite Z.ldiff_ones_r by lia.
  rewrite Z.shiftl_mul_pow2, Z.shiftr_div_pow2 by lia. change (2 ^ 1) with 2.
  pose proof (Z.div_mod c 2). pose proof (Z.mod_pos_bound c 2).
  assert (0 ≤ c `div` 2) by (apply Z.div_pos; lia). lia.
Qed.

Ltac wa_side :=
  rewrite ?len_le_encode, ?len_zeros by lia;
  change (Z.of_nat 4) with 4 in *; change (Z.of_nat 2) with 2 in *;
  change (2 ^ (8 * 4)) with (2 ^ 32) in *;
  change (2 ^ (8 * 2)) with (2 ^ 16) in *; lia.

Section in_place.
Context (pe reloc_data : bytes) (hdr : pe_header) (sec : pe_section).
Context (sections : list pe_section) (ridx : option Z) (k : nat).
Hypothesis Hview : pe_header_view pe hdr.
Hypothesis Hsecs : read_pe_sections pe hdr = Ok (sections, ridx).
Hypothesis Hsec : sections !! k = Some sec.
Hypothesis Hfit : len reloc_data ≤ raw_size sec.
Hypothesis Hwf : wf_pe_layout pe hdr sec.

Let ro := raw_offset sec.
Let rs := raw_size sec.
Let ho := header_off sec.
Let va := virtual_address sec.
Let dd5 := dd5_off hdr.
Let co := coff_chars_off hdr.
Let n := len reloc_data.

(** The layout in numbers. *)
Lemma in_place_arith :
  ho = sec_table_off hdr + Z.of_nat k * 40
  ∧ Z.of_nat k < num_sections hdr
  ∧ ho + 24 ≤ len pe
  ∧ 0 ≤ rs < 2 ^ 32 ∧ 0 ≤ va < 2 ^ 32 ∧ 0 ≤ n ≤ rs
  ∧ co = coff_off hdr + 18 ∧ opt_off hdr = coff_off hdr + 20
  ∧ dd5 = opt_off hdr + 152
  ∧ sec_table_off hdr = opt_off hdr + opt_hdr_size hdr
  ∧ 0x44 ≤ coff_off hdr ∧ 160 ≤ opt_hdr_size hdr
  ∧ sec_table_off hdr + 40 * num_sections hdr ≤ ro
  ∧ ro + rs ≤ len pe.
Proof.
  destruct (read_pe_sections_lookup _ _ _ _ _ _ Hsecs Hsec) as [Hk Hread].
  apply read_section_header_Ok in Hread
    as (vs & va' & rs' & ro' & Hvs & Hva & Hrs & Hro & Heq).
  cbn zeta in *.
  destruct Hview as (sig_off & Hsig_off & Hsig & Hcoff & Hn & Hsz & Hchars
                     & Hopt & Hmagic & Himg & Hhdrs & Hdd & Htab).
  destruct Hwf as (Hw1 & Hw2 & Hw3 & Hw4).
  pose proof (unpack_from_range _ _ _ _ Hva) as Hva_r.
  pose proof (unpack_from_range _ _ _ _ Hrs) as Hrs_r.
  apply unpack_from_Ok in Hro as (_ & Hro_end & _).
  change (2 ^ (8 * Z.of_nat 4)) with (2 ^ 32) in *.
  change (Z.of_nat 4) with 4 in *.
  pose proof (len_nonneg reloc_data).
  subst ro rs ho va dd5 co n. rewrite Heq in *. simpl in *.
  split_and!; lia.
Qed.

Lemma in_place_chars :
  ∃ chars, unpack_from 2 pe co = Ok chars ∧ 0 ≤ chars < 2 ^ 16.
Proof.
  destruct in_place_arith as (?&?&?&?&?&?&Hco&Hopt&?).
  destruct Hview as (sig_off & _ & _ & _ & _ & _ & _ & _ & Hmagic & _).
  apply unpack_from_Ok in Hmagic as (_ & Hend & _).
  change (Z.of_nat 2) with 2 in *.
  destruct (unpack_from 2 pe co) as [chars| |] eqn:Hchars.
  - exists chars. split; [done|]. by apply unpack_from_range in Hchars.
  - unfold unpack_from in Hchars. change (Z.of_nat 2) with 2 in *.
    rewrite bool_decide_eq_true_2 in Hchars by lia. done.
  - unfold unpack_from in Hchars. by case_bool_decide.
Qed.

Context (chars : Z).
Hypothesis Hchars : unpack_from 2 pe co = Ok chars.

Let pe1 := write_at pe ro reloc_data.
Let pe2 := write_at pe1 (ro + n) (zeros (rs - n)).
Let pe3 := write_at pe2 (ho + 8) (le_encode 4 n).
Let pe4 := write_at pe3 dd5 (le_encode 4 va).
Let pe5 := write_at pe4 (dd5 + 4) (le_encode 4 n).
Let pe6 := write_at pe5 co (le_encode 2 (Z.land chars (Z.lnot 0x0001))).

Lemma in_place_image_unfold :
  in_place_image pe hdr sec reloc_data chars = pe6.
Proof. done. Qed.

Lemma in_place_lens :
  len pe1 = len pe ∧ len pe2 = len pe ∧ len pe3 = len pe
  ∧ len pe4 = len pe ∧ len pe5 = len pe ∧ len pe6 = len pe.
Proof.
  destruct in_place_arith as (?&?&?&?&?&?&?&?&?&?&?&?&?&?).
  assert (L1 : len pe1 = len pe) by (apply len_write_at; lia).
  assert (L2 : len pe2 = len pe).
  { unfold pe2. rewrite len_write_at; rewrite ?len_zeros; lia. }
  assert (L3 : len pe3 = len pe).
  { unfold pe3. rewrite len_write_at; rewrite ?len_le_encode; lia. }
  assert (L4 : len pe4 = len pe).
  { unfold pe4. rewrite len_write_at; rewrite ?len_le_encode; lia. }
  assert (L5 : len pe5 = len pe).
  { unfold pe5. rewrite len_write_at; rewrite ?len_le_encode; lia. }
  assert (L6 : len pe6 = len pe).
  { unfold pe6. rewrite len_write_at; rewrite ?len_le_encode; lia. }
  done.
Qed.

(** The edits succeed and amount to the six overwrites. *)
Lemma replace_reloc_Ok :
  replace_reloc pe hdr sec reloc_data
  = Ok (in_place_image pe hdr sec reloc_data chars).
Proof.
  destruct in_place_arith as (?&?&?&?&?&?&?&?&?&?&?&?&?&?).
  destruct in_place_lens as (L1 & L2 & L3 & L4 & L5 & L6).
  pose proof (unpack_from_range _ _ _ _ Hchars) as Hchars_r.
  pose proof (land_lnot_1_range chars Hchars_r) as Hclear.
  unfold replace_reloc. cbn zeta. fold ro rs ho va dd5 co n.
  change (slice_assign pe ro (ro + n) reloc_data) with pe1.
  assert (slice_assign pe1 (ro + n) (ro + rs) (zeros (rs - n)) = pe2) as ->.
  { unfold pe2, write_at. rewrite len_zeros by lia.
    by replace (ro + n + (rs - n)) with (ro + rs) by lia. }
  assert (pack_into 4 pe2 (ho + 8) n = Ok pe3) as ->.
  { apply pack_into_Ok. change (Z.of_nat 4) with 4.
    change (2 ^ (8 * 4)) with (2 ^ 32). split_and!; [lia..|done]. }
  cbn [mbind result_bind].
  assert (pack_into 4 pe3 dd5 va = Ok pe4) as ->.
  { apply pack_into_Ok. change (Z.of_nat 4) with 4.
    change (2 ^ (8 * 4)) with (2 ^ 32). split_and!; [lia..|done]. }
  cbn [mbind result_bind].
  assert (pack_into 4 pe4 (dd5 + 4) n = Ok pe5) as ->.
  { apply pack_into_Ok. change (Z.of_nat 4) with 4.
    change (2 ^ (8 * 4)) with (2 ^ 32). split_and!; [lia..|done]. }
  cbn [mbind result_bind].
  assert (unpack_from 2 pe5 co = Ok chars) as ->.
  { rewrite <- Hchars.
    do 5 (etrans; [apply unpack_from_write_at_other; wa_side|]). done. }
  cbn [mbind result_bind]. apply pack_into_Ok.
  change (Z.of_nat 2) with 2. change (2 ^ (8 * 2)) with (2 ^ 16).
  split_and!; [lia..|done].
Qed.

Lemma in_place_length : length pe6 = length pe.
Proof.
  destruct in_place_lens as (_ & _ & _ & _ & _ & L6).
  unfold len in L6. lia.
Qed.

(** Bytes outside the written regions keep their value. *)
Lemma in_place_frame (pos : nat) :
  ¬ in_place_written hdr sec (Z.of_nat pos) → pe6 !! pos = pe !! pos.
Proof.
  intros Hpos. unfold in_place_written in Hpos. fold ro rs ho dd5 co in Hpos.
  destruct in_place_arith as (?&?&?&?&?&?&?&?&?&?&?&?&?&?).
  destruct in_place_lens as (L1 & L2 & L3 & L4 & L5 & L6).
  unfold pe6. rewrite lookup_write_at by wa_side.
  rewrite bool_decide_eq_false_2 by wa_side.
  unfold pe5. rewrite lookup_write_at by wa_side.
  rewrite bool_decide_eq_false_2 by wa_side.
  unfold pe4. rewrite lookup_write_at by wa_side.
  rewrite bool_decide_eq_false_2 by wa_side.
  unfold pe3. rewrite lookup_write_at by wa_side.
  rewrite bool_decide_eq_false_2 by wa_side.
  unfold pe2. rewrite lookup_write_at by wa_side.
  rewrite bool_decide_eq_false_2 by wa_side.
  unfold pe1. rewrite lookup_write_at by wa_side.
  by rewrite bool_decide_eq_false_2 by wa_side.
Qed.

Lemma in_place_raw : slice pe6 ro (ro + n) = reloc_data.
Proof.
  destruct in_place_arith as (?&?&?&?&?&?&?&?&?&?&?&?&?&?).
  destruct in_place_lens as (L1 & L2 & L3 & L4 & L5 & L6).
  do 5 (etrans; [apply slice_write_at_other; wa_side|]).
  apply slice_write_at_same; wa_side.
Qed.

Lemma in_place_zero_fill : slice pe6 (ro + n) (ro + rs) = zeros (rs - n).
Proof.
  destruct in_place_arith as (?&?&?&?&?&?&?&?&?&?&?&?&?&?).
  destruct in_place_lens as (L1 & L2 & L3 & L4 & L5 & L6).
  do 4 (etrans; [apply slice_write_at_other; wa_side|]).
  replace (ro + rs) with (ro + n + len (zeros (rs - n)))
    by (rewrite len_zeros; lia).
  apply slice_write_at_same; wa_side.
Qed.

Lemma in_place_virtual_size : unpack_from 4 pe6 (ho + 8) = Ok n.
Proof.
  destruct in_place_arith as (?&?&?&?&?&?&?&?&?&?&?&?&?&?).
  destruct in_place_lens as (L1 & L2 & L3 & L4 & L5 & L6).
  do 3 (etrans; [apply unpack_from_write_at_other; wa_side|]).
  apply unpack_from_write_at_same; wa_side.
Qed.

Lemma in_place_dd_address : unpack_from 4 pe6 dd5 = Ok va.
Proof.
  destruct in_place_arith as (?&?&?&?&?&?&?&?&?&?&?&?&?&?).
  destruct in_place_lens as (L1 & L2 & L3 & L4 & L5 & L6).
  do 2 (etrans; [apply unpack_from_write_at_other; wa_side|]).
  apply unpack_from_write_at_same; wa_side.
Qed.

Lemma in_place_dd_size : unpack_from 4 pe6 (dd5 + 4) = Ok n.
Proof.
  destruct in_place_arith as (?&?&?&?&?&?&?&?&?&?&?&?&?&?).
  destruct in_place_lens as (L1 & L2 & L3 & L4 & L5 & L6).
  etrans; [apply unpack_from_write_at_other; wa_side|].
  apply unpack_from_write_at_same; wa_side.
Qed.

Lemma in_place_chars_cleared :
  unpack_from 2 pe6 co = Ok (Z.land chars (Z.lnot 0x0001)).
Proof.
  destruct in_place_arith as (?&?&?&?&?&?&?&?&?&?&?&?&?&?).
  destruct in_place_lens as (L1 & L2 & L3 & L4 & L5 & L6).
  pose proof (unpack_from_range _ _ _ _ Hchars) as Hchars_r.
  pose proof (land_lnot_1_range chars Hchars_r) as Hclear.
  apply unpack_from_write_at_same; wa_side.
Qed.

(** A field of the original buffer that no edit touches reads the same. *)
Lemma in_place_field_kept m off v :
  unpack_from m pe off = Ok v →
  (∀ pos : nat, off ≤ Z.of_nat pos < off + Z.of_nat m →
                ¬ in_place_written hdr sec (Z.of_nat pos)) →
  unpack_from m pe6 off = Ok v.
Proof.
  intros <- Hfree. apply unpack_from_agree; [apply in_place_length|].
  intros pos Hpos. by apply in_place_frame, Hfree.
Qed.

(** ** The header and the section table after the in-place path *)

Lemma in_place_header_view : pe_header_view pe6 hdr.
Proof.
  destruct in_place_arith as (?&?&?&?&?&?&?&?&?&?&?&?&?&?).
  apply (pe_header_view_agree pe); [done|apply in_place_length|].
  intros pos Hpos. apply in_place_frame.
  unfold in_place_written. fold ro rs ho dd5 co. lia.
Qed.

Lemma in_place_section_other (j : nat) s :
  j ≠ k → sections !! j = Some s →
  read_section_header pe6 hdr (Z.of_nat j) = Ok s.
Proof.
  intros Hjk Hj.
  destruct in_place_arith as (?&?&?&?&?&?&?&?&?&?&?&?&?&?).
  destruct (read_pe_sections_lookup _ _ _ _ _ _ Hsecs Hj) as [Hlt Hread].
  apply read_section_header_Ok in Hread
    as (vs & va' & rs' & ro' & Hvs & Hva & Hrs & Hro & ->).
  apply read_section_header_Ok. cbn zeta in *.
  assert (Hfree : ∀ pos : nat,
    sec_table_off hdr + Z.of_nat j * 40 ≤ Z.of_nat pos
      < sec_table_off hdr + Z.of_nat j * 40 + 24 →
    ¬ in_place_written hdr sec (Z.of_nat pos)).
  { intros pos Hpos. unfold in_place_written. fold ro rs ho dd5 co. lia. }
  exists vs, va', rs', ro'.
  split_and!;
    [apply (in_place_field_kept _ _ _ Hvs)
    |apply (in_place_field_kept _ _ _ Hva)
    |apply (in_place_field_kept _ _ _ Hrs)
    |apply (in_place_field_kept _ _ _ Hro)|];
    try (intros pos Hpos; apply Hfree; change (Z.of_nat 4) with 4 in Hpos;
         lia).
  do 3 f_equal. symmetry. apply slice_agree; [lia|].
  intros pos Hpos. apply in_place_frame, Hfree. lia.
Qed.

Lemma in_place_section_reloc :
  read_section_header pe6 hdr (Z.of_nat k) = Ok (with_virtual_size sec n).
Proof.
  destruct in_place_arith as (Hho&?&?&?&?&?&?&?&?&?&?&?&?&?).
  destruct (read_pe_sections_lookup _ _ _ _ _ _ Hsecs Hsec) as [Hlt Hread].
  apply read_section_header_Ok in Hread
    as (vs & va' & rs' & ro' & Hvs & Hva & Hrs & Hro & Heq).
  apply read_section_header_Ok. cbn zeta in *.
  assert (Hfree : ∀ pos : nat,
    sec_table_off hdr + Z.of_nat k * 40 ≤ Z.of_nat pos
      < sec_table_off hdr + Z.of_nat k * 40 + 8
    ∨ sec_table_off hdr + Z.of_nat k * 40 + 12 ≤ Z.of_nat pos
      < sec_table_off hdr + Z.of_nat k * 40 + 24 →
    ¬ in_place_written hdr sec (Z.of_nat pos)).
  { intros pos Hpos. unfold in_place_written. fold ro rs ho dd5 co. lia. }
  exists n, va', rs', ro'.
  split_and!;
    [rewrite <- Hho; apply in_place_virtual_size
    |apply (in_place_field_kept _ _ _ Hva)
    |apply (in_place_field_kept _ _ _ Hrs)
    |apply (in_place_field_kept _ _ _ Hro)|];
    try (intros pos Hpos; apply Hfree; change (Z.of_nat 4) with 4 in Hpos;
         lia).
  rewrite Heq. unfold with_virtual_size. cbn [idx name header_off
    virtual_address raw_size raw_offset].
  do 3 f_equal. symmetry. apply slice_agree; [lia|].
  intros pos Hpos. apply in_place_frame, Hfree. lia.
Qed.

Lemma in_place_sections :
  read_pe_sections pe6 hdr
  = Ok (<[k := with_virtual_size sec n]> sections, ridx).
Proof.
  pose proof Hsecs as [Hall Hridx]%read_pe_sections_Ok.
  apply read_pe_sections_Ok. split.
  - apply Forall2_same_length_lookup. split.
    + rewrite length_insert. by eapply Forall2_length.
    + intros i x y Hx Hy. apply lookup_seqZ in Hx as [-> _].
      rewrite Z.add_0_l.
      destruct (decide (i = k)) as [->|Hik].
      * rewrite list_lookup_insert_eq in Hy
          by (by eapply lookup_lt_Some).
        injection Hy as <-. apply in_place_section_reloc.
      * rewrite list_lookup_insert_ne in Hy by done.
        by apply in_place_section_other.
  - rewrite Hridx. symmetry. by eapply last_reloc_insert.
Qed.
End in_place.

(** ** [patch_pe] as a whole *)

Lemma patch_pe_in_place reloc_data pe hdr sections i sec pe' :
  read_pe_header pe = Ok hdr →
  read_pe_sections pe hdr = Ok (sections, Some i) →
  sections !! Z.to_nat i = Some sec →
  len reloc_data ≤ raw_size sec →
  replace_reloc pe hdr sec reloc_data = Ok pe' →
  patch_pe reloc_data pe = (Ok (), pe').
Proof.
  intros Hhdr Hsecs Hsec Hfit Hrep.
  unfold patch_pe, mbind, M_bind, read_file, lift, write_file.
  rewrite Hhdr, Hsecs, Hsec. simpl.
  rewrite bool_decide_eq_true_2 by done. by rewrite Hrep.
Qed.

Lemma patch_pe_unfold reloc_data pe0 :
  patch_pe reloc_data pe0 =
    match read_pe_header pe0 with
    | Ok hdr =>
        match read_pe_sections pe0 hdr with
        | Ok (sections, reloc_idx) =>
            match reloc_idx with
            | Some i =>
                match sections !! Z.to_nat i with
                | Some sec =>
                    if bool_decide (len reloc_data ≤ raw_size sec)
                    then write_result
                           (replace_reloc pe0 hdr sec reloc_data) pe0
                    else write_result
                           (append_reloc pe0 hdr sections reloc_data) pe0
                | None => (Raise IndexError, pe0)
                end
            | None =>
                write_result (append_reloc pe0 hdr sections reloc_data) pe0
            end
        | Raise e => (Raise e, pe0)
        | OutOfFuel => (OutOfFuel, pe0)
        end
    | Raise e => (Raise e, pe0)
    | OutOfFuel => (OutOfFuel, pe0)
    end.
Proof.
  unfold patch_pe, mbind, M_bind, read_file, lift, write_file, write_result.
  destruct (read_pe_header pe0) as [hdr| |]; simpl; [|done..].
  destruct (read_pe_sections pe0 hdr) as [[sections [i|]]| |]; simpl;
    [| |done..].
  - destruct (sections !! Z.to_nat i) as [sec|]; simpl; [|done].
    case_bool_decide.
    + by destruct (replace_reloc pe0 hdr sec reloc_data).
    + by destruct (append_reloc pe0 hdr sections reloc_data).
  - by destruct (append_reloc pe0 hdr sections reloc_data).
Qed.

(** [patch_pe] either writes the fully patched image, or does not succeed
    and writes nothing. *)
Lemma patch_pe_dichotomy reloc_data pe0 :
  ((patch_pe reloc_data pe0).1 = Ok ()
   ∧ fully_patched pe0 reloc_data (patch_pe reloc_data pe0).2)
  ∨ ((patch_pe reloc_data pe0).1 ≠ Ok ()
     ∧ (patch_pe reloc_data pe0).2 = pe0).
Proof.
  rewrite patch_pe_unfold.
  destruct (read_pe_header pe0) as [hdr| |] eqn:Hhdr; [|by right..].
  destruct (read_pe_sections pe0 hdr) as [[sections ridx]| |] eqn:Hsecs;
    [|by right..].
  assert (Happend :
    ridx = None
    ∨ (∃ i sec, ridx = Some i ∧ sections !! Z.to_nat i = Some sec
         ∧ raw_size sec < len reloc_data) →
    let out := write_result (append_reloc pe0 hdr sections reloc_data) pe0 in
    (out.1 = Ok () ∧ fully_patched pe0 reloc_data out.2)
    ∨ (out.1 ≠ Ok () ∧ out.2 = pe0)).
  { intros Hpath. cbn zeta.
    destruct (append_reloc pe0 hdr sections reloc_data) as [pe'| |] eqn:Happ;
      simpl; [|by right..].
    left. split; [done|]. exists hdr, sections, ridx.
    split_and!; [done..|]. right. done. }
  destruct ridx as [i|]; [|apply Happend; by left].
  destruct (sections !! Z.to_nat i) as [sec|] eqn:Hsec; [|by right].
  case_bool_decide as Hfit.
  - destruct (replace_reloc pe0 hdr sec reloc_data) as [pe'| |] eqn:Hrep;
      simpl; [|by right..].
    left. split; [done|]. exists hdr, sections, (Some i).
    split_and!; [done..|]. left. exists i, sec. done.
  - apply Happend. right. exists i, sec. split_and!; [done..|lia].
Qed.

(** The named fatal conditions of the patcher raise before any write. *)
Lemma patch_pe_bad_signature reloc_data pe0 :
  bad_pe_signature pe0 →
  patch_pe reloc_data pe0 = (Raise (ValueError "invalid PE signature"), pe0).
Proof.
  intros (sig_off & Hoff & Hsig).
  unfold patch_pe, mbind, M_bind, read_file, lift, read_pe_header.
  rewrite Hoff. simpl. by rewrite bool_decide_eq_true_2.
Qed.

Lemma patch_pe_not_pe32_plus reloc_data pe0 :
  not_pe32_plus pe0 →
  patch_pe reloc_data pe0 = (Raise (ValueError "not PE32+"), pe0).
Proof.
  intros (sig_off & n & sz & magic & Hoff & Hsig & Hn & Hsz & Hmagic & Hne).
  unfold patch_pe, mbind, M_bind, read_file, lift, read_pe_header.
  rewrite Hoff. simpl. rewrite bool_decide_eq_false_2 by (by intros ?).
  rewrite Hn, Hsz. simpl. rewrite Hmagic. simpl.
  by rewrite bool_decide_eq_true_2.
Qed.

Lemma patch_pe_no_header_room reloc_data pe0 :
  no_header_room pe0 reloc_data →
  patch_pe reloc_data pe0
  = (Raise (ValueError "no room in PE header area for new section"), pe0).
Proof.
  intros (hdr & sections & ridx & last & soh & Hhdr & Hsecs & Hpath & Hmax
          & Hsoh & Hroom).
  assert (Happ : append_reloc pe0 hdr sections reloc_data
                 = Raise (ValueError "no room in PE header area for new section")).
  { unfold append_reloc. rewrite Hmax. simpl. rewrite Hsoh. simpl.
    by rewrite bool_decide_eq_true_2. }
  unfold patch_pe, mbind, M_bind, read_file, lift.
  rewrite Hhdr, Hsecs. simpl.
  destruct Hpath as [->|(i & sec & -> & Hsec & Hsmall)].
  - by rewrite Happ.
  - rewrite Hsec. simpl. rewrite bool_decide_eq_false_2 by lia.
    by rewrite Happ.
Qed.

(** ** [main] as a whole *)

Lemma main_unfold fuel elf_data pe0 :
  main fuel elf_data pe0 =
    match check_elf_ident elf_data with
    | Ok _ =>
        match parse_elf_sections elf_data with
        | Ok sections =>
            match read_elf_reloc_offsets elf_data sections with
            | Ok reloc_offsets =>
                match scan_data_for_pointers elf_data sections with
                | Ok scan_offsets =>
                    patch_outcome fuel reloc_offsets scan_offsets pe0
                | Raise e => (Raise e, pe0)
                | OutOfFuel => (OutOfFuel, pe0)
                end
            | Raise e => (Raise e, pe0)
            | OutOfFuel => (OutOfFuel, pe0)
            end
        | Raise e => (Raise e, pe0)
        | OutOfFuel => (OutOfFuel, pe0)
        end
    | Raise e => (Raise e, pe0)
    | OutOfFuel => (OutOfFuel, pe0)
    end.
Proof.
  unfold main, patch_outcome, mbind, M_bind, lift, mret, M_ret.
  destruct (check_elf_ident elf_data) as [[]| |]; [|done..].
  destruct (parse_elf_sections elf_data) as [sections| |]; [|done..].
  destruct (read_elf_reloc_offsets elf_data sections) as [reloc_offsets| |];
    [|done..].
  destruct (scan_data_for_pointers elf_data sections) as [scan_offsets| |];
    [|done..].
  cbn zeta.
  destruct (merge_sort Z.le (elements (reloc_offsets ∪ scan_offsets)))
    as [|rva all_offsets]; [done|].
  destruct (build_base_reloc_table fuel (rva :: all_offsets))
    as [reloc_data| |]; [|done..].
  by destruct (patch_pe reloc_data pe0) as [[[]| |] pe'].
Qed.

Lemma main_dichotomy fuel elf_data pe0 :
  (∃ reloc_data total from_rela extra,
     (main fuel elf_data pe0).1
     = Ok (Patched total from_rela extra (len reloc_data))
     ∧ fully_patched pe0 reloc_data (main fuel elf_data pe0).2)
  ∨ ((∀ total from_rela extra table_bytes,
        (main fuel elf_data pe0).1
        ≠ Ok (Patched total from_rela extra table_bytes))
     ∧ (main fuel elf_data pe0).2 = pe0).
Proof.
  rewrite main_unfold.
  destruct (check_elf_ident elf_data) as [[]| |]; [|by right..].
  destruct (parse_elf_sections elf_data) as [sections| |]; [|by right..].
  destruct (read_elf_reloc_offsets elf_data sections) as [reloc_offsets| |];
    [|by right..].
  destruct (scan_data_for_pointers elf_data sections) as [scan_offsets| |];
    [|by right..].
  unfold patch_outcome. cbn zeta.
  destruct (merge_sort Z.le (elements (reloc_offsets ∪ scan_offsets)))
    as [|rva all_offsets]; [by right|].
  destruct (build_base_reloc_table fuel (rva :: all_offsets))
    as [reloc_data| |]; [|by right..].
  destruct (patch_pe_dichotomy reloc_data pe0) as [[Hok Hfull]|[Hfail Hsame]].
  - destruct (patch_pe reloc_data pe0) as [r pe']. simpl in *. subst r.
    left. exists reloc_data. eauto.
  - destruct (patch_pe reloc_data pe0) as [r pe']. simpl in *. subst pe'.
    right. by destruct r as [[]| |].
Qed.

Lemma main_unsupported_machine fuel elf_data sections pe0 :
  check_elf_ident elf_data = Ok () →
  parse_elf_sections elf_data = Ok sections →
  unsupported_machine elf_data →
  main fuel elf_data pe0 = (Raise (ValueError "unsupported e_machine"), pe0).
Proof.
  intros Hident Hparse (m & Hm & Hbad).
  rewrite main_unfold, Hident, Hparse. unfold read_elf_reloc_offsets.
  rewrite Hm. simpl. by rewrite bool_decide_eq_true_2.
Qed.

Lemma main_no_relocations fuel elf_data sections reloc_offsets scan_offsets pe0 :
  check_elf_ident elf_data = Ok () →
  parse_elf_sections elf_data = Ok sections →
  read_elf_reloc_offsets elf_data sections = Ok reloc_offsets →
  scan_data_for_pointers elf_data sections = Ok scan_offsets →
  reloc_offsets ∪ scan_offsets = ∅ →
  main fuel elf_data pe0 = (Ok NoRelocations, pe0).
Proof.
  intros Hident Hparse Hrela Hscan Hempty.
  rewrite main_unfold, Hident, Hparse, Hrela, Hscan.
  unfold patch_outcome. cbn zeta. rewrite Hempty.
  by rewrite elements_empty.
Qed.

(** ** The builder on arbitrary lists *)

(** A loop whose chunks are produced under a condition: either every element
    passes and the chunks are concatenated, or the loop raises. *)
Lemma foldM_append_guarded {A} (c : A → Prop) `{∀ x, Decision (c x)}
    (h : A → bytes) (e : exn) acc l :
  foldM (λ buf x, b ← (if bool_decide (c x) then Ok (h x) else Raise e);
                  Ok (buf ++ b)) acc l
  = if bool_decide (Forall c l) then Ok (acc ++ concat (h <$> l))
    else Raise e.
Proof.
  revert acc. induction l as [|x l IH]; intros acc; simpl.
  - by rewrite app_nil_r.
  - destruct (decide (c x)) as [Hx|Hx].
    + rewrite (bool_decide_eq_true_2 (c x)) by done. simpl. rewrite IH.
      destruct (decide (Forall c l)) as [Hl|Hl].
      * rewrite !bool_decide_eq_true_2 by (done || by constructor).
        by rewrite <- app_assoc.
      * rewrite !bool_decide_eq_false_2; [done| |done].
        by intros [? ?]%Forall_cons.
    + rewrite (bool_decide_eq_false_2 (c x)) by done. simpl.
      rewrite bool_decide_eq_false_2; [done|]. by intros [? ?]%Forall_cons.
Qed.

(** The result of the builder on every list: the serialised blocks, or
    [struct.error] when a page or a block length does not fit 32 bits. *)
Lemma build_base_reloc_table_spec fuel offsets :
  (2 ≤ fuel)%nat →
  build_base_reloc_table fuel offsets
  = if bool_decide (Forall block_fits (table_blocks offsets))
    then Ok (concat (block_bytes <$> table_blocks offsets))
    else Raise StructError.
Proof.
  intros Hfuel. unfold build_base_reloc_table. cbn zeta.
  fold (sorted_pages offsets). rewrite build_loop_chunks.
  set (blk := λ p, page_block p
                     (merge_sort Z.le (default [] (group_pages offsets !! p)))).
  rewrite (foldM_ext_in _
    (λ buf p, b ← (if bool_decide (block_fits (blk p))
                   then Ok (block_bytes (blk p)) else Raise StructError);
              Ok (buf ++ b))).
  2:{ intros acc p Hp. apply elem_of_sorted_pages in Hp as [es Hes].
      unfold blk. rewrite Hes. cbn [from_option mbind result_bind default].
      rewrite build_block_spec
        by (done || by eapply group_pages_entries_range).
      done. }
  rewrite (foldM_append_guarded (λ p, block_fits (blk p))
             (λ p, block_bytes (blk p))).
  unfold table_blocks. fold blk. rewrite app_nil_l.
  rewrite (bool_decide_ext (Forall block_fits (blk <$> sorted_pages offsets))
             (Forall (λ p, block_fits (blk p)) (sorted_pages offsets)))
    by apply Forall_fmap.
  by rewrite <- list_fmap_compose.
Qed.

(** ** Order of the input *)

Lemma merge_sort_Permutation_eq (l1 l2 : list Z) :
  l1 ≡ₚ l2 → merge_sort Z.le l1 = merge_sort Z.le l2.
Proof.
  intros Hperm. apply (Sorted_unique Z.le).
  - apply (Sorted_merge_sort Z.le).
  - apply (Sorted_merge_sort Z.le).
  - by rewrite !merge_sort_Permutation.
Qed.

Lemma group_pages_default offsets p :
  default [] (group_pages offsets !! p)
  = (λ rva, Z.land rva 0xFFF)
      <$> filter (λ rva, Z.land rva (Z.lnot 0xFFF) = p) offsets.
Proof.
  rewrite group_pages_lookup. by destruct (filter _ offsets).
Qed.

Lemma sorted_pages_Permutation l1 l2 :
  l1 ≡ₚ l2 → sorted_pages l1 = sorted_pages l2.
Proof.
  intros Hperm. apply (Sorted_unique Z.le).
  - apply (Sorted_merge_sort Z.le).
  - apply (Sorted_merge_sort Z.le).
  - apply NoDup_Permutation; [apply NoDup_sorted_pages..|].
    intros p. rewrite !elem_of_sorted_pages, !group_pages_is_Some.
    by setoid_rewrite Hperm.
Qed.

Lemma table_blocks_Permutation l1 l2 :
  l1 ≡ₚ l2 → table_blocks l1 = table_blocks l2.
Proof.
  intros Hperm. unfold table_blocks.
  rewrite (sorted_pages_Permutation l1 l2 Hperm).
  apply list_fmap_ext. intros _ p _. f_equal.
  apply merge_sort_Permutation_eq. rewrite !group_pages_default.
  by rewrite Hperm.
Qed.

(** ** Grouping keeps every element *)

Lemma partition_by_key {A} (f : A → Z) (keys : list Z) (l : list A) :
  NoDup keys → (∀ x, x ∈ l → f x ∈ keys) →
  concat ((λ k, filter (λ x, f x = k) l) <$> keys) ≡ₚ l.
Proof.
  intros Hnd. revert l. induction Hnd as [|k keys Hk Hnd IH]; intros l Hl.
  - destruct l as [|x l]; [done|]. specialize (Hl x ltac:(left)).
    by apply elem_of_nil in Hl.
  - rewrite fmap_cons. cbn [concat].
    etrans; [|apply (filter_app_complement (λ x, f x = k) l)].
    apply Permutation_app; [done|].
    rewrite <- (IH (filter (λ x, ¬ f x = k) l)).
    2:{ intros x [Hne Hx]%list_elem_of_filter.
        specialize (Hl x Hx). apply elem_of_cons in Hl as [?|?]; done. }
    assert (Heq : (λ k', filter (λ x, f x = k') l) <$> keys
                  = (λ k', filter (λ x, f x = k')
                             (filter (λ x, ¬ f x = k) l)) <$> keys).
    { apply list_fmap_ext. intros i k' Hk'%list_elem_of_lookup_2.
      rewrite list_filter_filter. apply list_filter_iff.
      intros x. split; [|tauto]. intros <-. split; [done|].
      by intros <-. }
    by rewrite Heq.
Qed.

Lemma table_pairs_Permutation offsets :
  table_pairs (table_blocks offsets) ≡ₚ rva_pair <$> offsets.
Proof.
  unfold table_pairs, table_blocks. rewrite <- list_fmap_compose.
  set (page := λ rva, Z.land rva (Z.lnot 0xFFF)).
  assert (Hblocks :
    (block_pairs
       ∘ (λ p, page_block p
                 (merge_sort Z.le (default [] (group_pages offsets !! p)))))
      <$> sorted_pages offsets
    = (λ p, (λ o, (p, o))
              <$> merge_sort Z.le (default [] (group_pages offsets !! p)))
        <$> sorted_pages offsets).
  { apply list_fmap_ext. intros _ p [es Hes]%list_elem_of_lookup_2%elem_of_sorted_pages.
    cbn [compose]. rewrite Hes. cbn [default].
    by rewrite block_pairs_page_block by (by eapply sorted_entries_range). }
  rewrite Hblocks.
  rewrite <- (partition_by_key page (sorted_pages offsets) offsets)
    at 2.
  2:{ apply NoDup_sorted_pages. }
  2:{ intros rva Hrva. apply elem_of_sorted_pages, group_pages_is_Some.
      by exists rva. }
  clear Hblocks.
  induction (sorted_pages offsets) as [|p keys IH]; [done|].
  rewrite !fmap_cons. cbn [concat]. rewrite fmap_app.
  apply Permutation_app; [|done].
  rewrite merge_sort_Permutation, group_pages_default.
  rewrite <- list_fmap_compose.
  assert (Heq : ∀ l : list Z,
    Forall (λ rva, page rva = p) l →
    (λ o, (p, o)) ∘ (λ rva, Z.land rva 0xFFF) <$> l = rva_pair <$> l).
  { intros l Hl. apply list_fmap_ext.
    intros _ rva Hrva%list_elem_of_lookup_2.
    rewrite Forall_forall in Hl. unfold rva_pair. cbn [compose].
    by rewrite <- (Hl rva Hrva). }
  rewrite Heq; [done|]. apply Forall_forall.
  by intros rva [Hp _]%list_elem_of_filter.
Qed.

(** ** Size of the table *)

Lemma table_blocks_size_bounds (blocks : list block) :
  Forall (λ b, blk_size b `mod` 4 = 0
               ∧ blk_size b = 8 + 2 * len (blk_entries b)
               ∧ 2 * len (block_pairs b) ≤ blk_size b
                 ≤ 12 * len (block_pairs b)) blocks →
  len (concat (block_bytes <$> blocks)) `mod` 4 = 0
  ∧ 2 * len (table_pairs blocks) ≤ len (concat (block_bytes <$> blocks))
    ≤ 12 * len (table_pairs blocks).
Proof.
  unfold table_pairs.
  induction 1 as [|b blocks (Hmod & Hsize & Hbound) _ IH].
  - by vm_compute.
  - rewrite !fmap_cons. cbn [concat]. rewrite !len_app, len_block_bytes.
    rewrite <- Hsize. destruct IH as [IHmod IHbound]. split; [|lia].
    rewrite Z.add_mod, Hmod, IHmod by lia. done.
Qed.

Lemma page_block_size_bounds p (offs : list Z) :
  Forall (λ o, 0 ≤ o < 4096) offs → offs ≠ [] →
  let b := page_block p offs in
  blk_size b `mod` 4 = 0
  ∧ blk_size b = 8 + 2 * len (blk_entries b)
  ∧ 2 * len (block_pairs b) ≤ blk_size b ≤ 12 * len (block_pairs b).
Proof.
  intros Hoffs Hne. cbn zeta.
  destruct (page_block_lengths p offs Hoffs) as (Hmod & Hsize & Hpad).
  split; [done|]. split; [done|].
  rewrite block_pairs_page_block by done.
  rewrite Hsize, real_entries_page_block by done.
  assert (len ((λ o, (p, o)) <$> offs) = len offs) as ->
    by (unfold len; by rewrite length_fmap).
  assert (len (dir64_entry <$> offs) = len offs) as ->
    by (unfold len; by rewrite length_fmap).
  assert (1 ≤ len offs) by (destruct offs; [done|unfold len; simpl; lia]).
  pose proof (len_nonneg (padding_entries (page_block p offs))). lia.
Qed.

(** ** Loops that raise *)

(** A loop whose steps only ever raise [e] raises [e] as soon as one step
    raises whatever the accumulator. *)
Lemma foldM_raises {A B} (f : B → A → result B) (e : exn) acc l x :
  (∀ acc y, y ∈ l → (∃ r, f acc y = Ok r) ∨ f acc y = Raise e) →
  x ∈ l → (∀ acc, f acc x = Raise e) →
  foldM f acc l = Raise e.
Proof.
  revert acc. induction l as [|y l IH]; intros acc Hsteps Hx Hraise.
  - by apply elem_of_nil in Hx.
  - simpl. destruct (Hsteps acc y ltac:(left)) as [[r Hr]|Hr].
    + rewrite Hr. simpl. apply elem_of_cons in Hx as [->|Hx].
      * rewrite Hraise in Hr. done.
      * apply IH; [|done..]. intros acc' z Hz. apply Hsteps. by right.
    + by rewrite Hr.
Qed.

Lemma foldM_Ok_or_raise {A B} (f : B → A → result B) (e : exn) acc l :
  (∀ acc y, y ∈ l → (∃ r, f acc y = Ok r) ∨ f acc y = Raise e) →
  (∃ r, foldM f acc l = Ok r) ∨ foldM f acc l = Raise e.
Proof.
  revert acc. induction l as [|y l IH]; intros acc Hsteps; simpl; [eauto|].
  destruct (Hsteps acc y ltac:(left)) as [[r Hr]|Hr]; rewrite Hr; simpl.
  - apply IH. intros acc' z Hz. apply Hsteps. by right.
  - by right.
Qed.

Lemma unpack_from_Ok_or_raise n data off :
  (∃ v, unpack_from n data off = Ok v)
  ∨ unpack_from n data off = Raise StructError.
Proof. unfold unpack_from. case_bool_decide; eauto. Qed.

(** ** The image address range *)

Lemma image_range_fold sections :
  image_range sections
  = foldl image_range_step (None, 0) (snd <$> map_to_list sections).
Proof.
  unfold image_range. generalize (snd <$> map_to_list sections).
  generalize (@None Z, 0). intros acc l. revert acc.
  induction l as [|sec l IH]; intros [lo hi]; [done|]. apply IH.
Qed.

Lemma range_of_snoc l lo hi sec :
  range_of l lo hi →
  range_of (l ++ [sec]) (image_range_step (lo, hi) sec).1
           (image_range_step (lo, hi) sec).2.
Proof.
  intros (Hhi & Hnone & Hlo & Hmax & Hattained).
  unfold image_range_step. fold (loaded sec).
  destruct (decide (loaded sec)) as [Hl|Hl].
  - rewrite (bool_decide_eq_true_2 (loaded sec)) by done. cbn [fst snd].
    pose proof Hl as [Haddr Hsize]. split_and!.
    + case_bool_decide; lia.
    + split.
      * destruct lo as [lo|]; [by case_bool_decide|done].
      * intros Hno. exfalso. apply (Hno sec); [|done].
        apply elem_of_app. right. by left.
    + intros lo' Hlo'. split.
      * destruct lo as [lo|].
        -- case_bool_decide as Hlt; injection Hlo' as <-.
           ++ exists sec. split_and!; [|done..]. apply elem_of_app. right.
              by left.
           ++ destruct (Hlo lo eq_refl) as [(s & Hs & ? & ?) _].
              exists s. split_and!; [|done..]. apply elem_of_app. by left.
        -- injection Hlo' as <-. exists sec. split_and!; [|done..].
           apply elem_of_app. right. by left.
      * intros s [Hs|Hs%list_elem_of_singleton]%elem_of_app Hsl.
        -- destruct lo as [lo|].
           ++ destruct (Hlo lo eq_refl) as [_ Hmin].
              specialize (Hmin s Hs Hsl).
              case_bool_decide; injection Hlo' as <-; lia.
           ++ exfalso. by apply (proj1 Hnone eq_refl s).
        -- subst s. destruct lo as [lo|].
           ++ case_bool_decide; injection Hlo' as <-; lia.
           ++ injection Hlo' as <-. lia.
    + intros s [Hs|Hs%list_elem_of_singleton]%elem_of_app Hsl.
      * specialize (Hmax s Hs Hsl). case_bool_decide; lia.
      * subst s. case_bool_decide; lia.
    + right. case_bool_decide as Hgt.
      * exists sec. split_and!; [|done..]. apply elem_of_app. right. by left.
      * destruct Hattained as [->|(s & Hs & ? & ?)]; [lia|].
        exists s. split_and!; [|done..]. apply elem_of_app. by left.
  - rewrite (bool_decide_eq_false_2 (loaded sec)) by done. cbn [fst snd].
    split_and!.
    + done.
    + rewrite Hnone. split.
      * intros Hno s [Hs|Hs%list_elem_of_singleton]%elem_of_app;
          [by apply Hno|by subst s].
      * intros Hno s Hs. apply Hno, elem_of_app. by left.
    + intros lo' Hlo'. destruct (Hlo lo' Hlo') as [(s & Hs & ? & ?) Hmin].
      split.
      * exists s. split_and!; [|done..]. apply elem_of_app. by left.
      * intros s' [Hs'|Hs'%list_elem_of_singleton]%elem_of_app Hsl;
          [by apply Hmin|by subst s'].
    + intros s [Hs|Hs%list_elem_of_singleton]%elem_of_app Hsl;
        [by apply Hmax|by subst s].
    + destruct Hattained as [?|(s & Hs & ? & ?)]; [by left|right].
      exists s. split_and!; [|done..]. apply elem_of_app. by left.
Qed.

Lemma range_of_foldl l :
  range_of l (foldl image_range_step (None, 0) l).1
           (foldl image_range_step (None, 0) l).2.
Proof.
  induction l as [|sec l IH] using rev_ind.
  - simpl. split_and!; [done| |done| |by left].
    + split; [|done]. by intros _ s ?%elem_of_nil.
    + by intros s ?%elem_of_nil.
  - rewrite foldl_app. cbn [foldl].
    destruct (foldl image_range_step (None, 0) l) as [lo hi].
    by apply range_of_snoc.
Qed.

Lemma elem_of_section_values (sections : gmap string elf_section) sec :
  sec ∈ snd <$> map_to_list sections ↔ ∃ name, sections !! name = Some sec.
Proof.
  rewrite list_elem_of_fmap. split.
  - intros ([name sec'] & -> & Hin%elem_of_map_to_list). eauto.
  - intros [name Hin]. exists (name, sec). split; [done|].
    by apply elem_of_map_to_list.
Qed.

(** ** Records and words that do not fit the file *)

Lemma read_rela_records_Ok_or_raise raw entsize acc :
  (∃ r, read_rela_records raw entsize acc = Ok r)
  ∨ read_rela_records raw entsize acc = Raise StructError.
Proof.
  unfold read_rela_records. apply foldM_Ok_or_raise. intros acc' j _.
  destruct (unpack_from_Ok_or_raise 8 raw j) as [[v ->]| ->]; simpl;
    [|by right].
  destruct (unpack_from_Ok_or_raise 8 raw (j + 8)) as [[w ->]| ->]; simpl;
    [|by right].
  case_bool_decide; eauto.
Qed.

Lemma read_rela_records_truncated raw entsize acc j :
  j ∈ py_range 0 (len raw) entsize → len raw < j + 16 →
  read_rela_records raw entsize acc = Raise StructError.
Proof.
  intros Hj Hshort. unfold read_rela_records.
  apply (foldM_raises _ _ _ _ j); [|done|].
  - intros acc' i _.
    destruct (unpack_from_Ok_or_raise 8 raw i) as [[v ->]| ->]; simpl;
      [|by right].
    destruct (unpack_from_Ok_or_raise 8 raw (i + 8)) as [[w ->]| ->]; simpl;
      [|by right].
    case_bool_decide; eauto.
  - intros acc'.
    destruct (unpack_from 8 raw j) as [v| |] eqn:Hv; simpl.
    + assert (unpack_from 8 raw (j + 8) = Raise StructError) as ->; [|done].
      unfold unpack_from. change (Z.of_nat 8) with 8.
      by rewrite bool_decide_eq_false_2 by lia.
    + unfold unpack_from in Hv. case_bool_decide; congruence.
    + unfold unpack_from in Hv. case_bool_decide; congruence.
Qed.

(** ** The ELF section reader *)

Lemma parse_elf_sections_unfold elf_data :
  parse_elf_sections elf_data =
    match elf_header_fields elf_data with
    | Ok (e_shoff, e_shentsize, e_shnum, st_off) =>
        foldM (λ sections i,
                 ns ← elf_section_at elf_data e_shoff e_shentsize st_off i;
                 Ok (<[ns.1 := ns.2]> sections))
              ∅ (seqZ 0 e_shnum)
    | Raise e => Raise e
    | OutOfFuel => OutOfFuel
    end.
Proof.
  unfold parse_elf_sections, elf_header_fields.
  destruct (unpack_from 8 elf_data 40) as [e_shoff| |]; simpl; [|done..].
  destruct (unpack_from 2 elf_data 58) as [e_shentsize| |]; simpl; [|done..].
  destruct (unpack_from 2 elf_data 60) as [e_shnum| |]; simpl; [|done..].
  destruct (unpack_from 2 elf_data 62) as [e_shstrndx| |]; simpl; [|done..].
  destruct (unpack_from 8 elf_data (e_shoff + e_shstrndx * e_shentsize + 24))
    as [st_off| |]; simpl; [|done..].
  rewrite py_range_step1. apply foldM_ext. intros sections i.
  unfold elf_section_at. cbn zeta.
  destruct (unpack_from 4 elf_data (e_shoff + i * e_shentsize)); simpl;
    [|done..].
  destruct (sec_name elf_data st_off a); simpl; [|done..].
  destruct (unpack_from 8 elf_data (e_shoff + i * e_shentsize + 16)); simpl;
    [|done..].
  destruct (unpack_from 8 elf_data (e_shoff + i * e_shentsize + 24)); simpl;
    [|done..].
  destruct (unpack_from 8 elf_data (e_shoff + i * e_shentsize + 32)); simpl;
    [|done..].
  destruct (unpack_from 4 elf_data (e_shoff + i * e_shentsize + 4)); simpl;
    [|done..].
  by destruct (unpack_from 8 elf_data (e_shoff + i * e_shentsize + 56)).
Qed.

(** A loop that stores one binding per index: the last index that produces a
    key provides its value. *)
Lemma insert_loop_lookup {V} (g : Z → result (string * V)) (n : nat)
    (m : gmap string V) :
  foldM (λ m i, ns ← g i; Ok (<[ns.1 := ns.2]> m)) ∅ (seqZ 0 (Z.of_nat n))
  = Ok m →
  (∀ i, 0 ≤ i < Z.of_nat n → ∃ ns, g i = Ok ns)
  ∧ ∀ key v, m !! key = Some v ↔
      ∃ i, 0 ≤ i < Z.of_nat n ∧ g i = Ok (key, v)
        ∧ ∀ j v', i < j < Z.of_nat n → g j ≠ Ok (key, v').
Proof.
  revert m. induction n as [|n IH]; intros m.
  - simpl. intros [= <-]. split; [intros i; lia|].
    intros key v. rewrite lookup_empty. split; [done|].
    intros (i & ? & _); lia.
  - replace (Z.of_nat (S n)) with (Z.of_nat n + 1) by lia.
    rewrite seqZ_app by lia. rewrite foldM_app.
    rewrite Z.add_0_l, seqZ_cons, seqZ_nil by lia.
    destruct (foldM _ ∅ (seqZ 0 (Z.of_nat n))) as [m'| |] eqn:Hm'; simpl;
      [|done..].
    destruct (IH m' eq_refl) as [IHtotal IHlookup].
    destruct (g (Z.of_nat n)) as [[k x]| |] eqn:Hg; simpl; [|done..].
    intros [= <-]. split.
    + intros i Hi. destruct (decide (i = Z.of_nat n)) as [->|Hne]; [eauto|].
      apply IHtotal. lia.
    + intros key v. destruct (decide (k = key)) as [->|Hk].
      * rewrite lookup_insert_eq. split.
        -- intros [= <-]. exists (Z.of_nat n). split; [lia|split; [done|]].
           intros j v' Hj. lia.
        -- intros (i & Hi & Hgi & Hlast).
           destruct (decide (i = Z.of_nat n)) as [->|Hne]; [congruence|].
           exfalso. apply (Hlast (Z.of_nat n) x); [lia|done].
      * rewrite lookup_insert_ne by done. rewrite IHlookup. split.
        -- intros (i & Hi & Hgi & Hlast). exists i. split; [lia|split; [done|]].
           intros j v' Hj. destruct (decide (j = Z.of_nat n)) as [->|Hne].
           ++ rewrite Hg. congruence.
           ++ apply Hlast. lia.
        -- intros (i & Hi & Hgi & Hlast).
           destruct (decide (i = Z.of_nat n)) as [->|Hne]; [congruence|].
           exists i. split; [lia|split; [done|]].
           intros j v' Hj. apply Hlast. lia.
Qed.

Lemma elf_header_fields_shnum elf_data e_shoff e_shentsize e_shnum st_off :
  elf_header_fields elf_data = Ok (e_shoff, e_shentsize, e_shnum, st_off) →
  0 ≤ e_shoff ∧ 0 ≤ e_shentsize ∧ 0 ≤ e_shnum < 2 ^ 16 ∧ 0 ≤ st_off
  ∧ 64 ≤ len elf_data.
Proof.
  unfold elf_header_fields.
  destruct (unpack_from 8 elf_data 40) as [a| |] eqn:Ha; simpl; [|done..].
  destruct (unpack_from 2 elf_data 58) as [b| |] eqn:Hb; simpl; [|done..].
  destruct (unpack_from 2 elf_data 60) as [c| |] eqn:Hc; simpl; [|done..].
  destruct (unpack_from 2 elf_data 62) as [d| |] eqn:Hd; simpl; [|done..].
  destruct (unpack_from 8 elf_data (a + d * b + 24)) as [e| |] eqn:He; simpl;
    [|done..].
  intros [= <- <- <- <-].
  apply unpack_from_range in Ha, Hb, Hc, He.
  apply unpack_from_Ok in Hd as (_ & Hlen & _).
  change (2 ^ (8 * Z.of_nat 2)) with (2 ^ 16) in *.
  change (Z.of_nat 2) with 2 in *. lia.
Qed.

Lemma elf_header_fields_short elf_data :
  len elf_data < 64 → elf_header_fields elf_data = Raise StructError.
Proof.
  intros Hshort. unfold elf_header_fields.
  destruct (unpack_from_Ok_or_raise 8 elf_data 40) as [[a ->]| ->]; simpl;
    [|done].
  destruct (unpack_from_Ok_or_raise 2 elf_data 58) as [[b ->]| ->]; simpl;
    [|done].
  destruct (unpack_from_Ok_or_raise 2 elf_data 60) as [[c ->]| ->]; simpl;
    [|done].
  assert (unpack_from 2 elf_data 62 = Raise StructError) as ->; [|done].
  unfold unpack_from. change (Z.of_nat 2) with 2.
  by rewrite bool_decide_eq_false_2 by lia.
Qed.

(** ** Section names *)

Lemma bytes_index_Ok data b start pos :
  0 ≤ start →
  bytes_index data b start = Ok pos →
  start ≤ pos ∧ data !! Z.to_nat pos = Some b
  ∧ Forall (λ x, x ≠ b) (slice data start pos).
Proof.
  intros Hstart. unfold bytes_index.
  destruct (list_find _ _) as [[i x]|] eqn:Hfind; [|done].
  intros [= <-]. apply list_find_Some in Hfind as (Hi & -> & Hbefore).
  rewrite lookup_drop in Hi. split_and!.
  - lia.
  - rewrite <- Hi. f_equal. lia.
  - apply Forall_forall. intros y Hy.
    apply list_elem_of_lookup in Hy as [j Hj].
    rewrite lookup_slice in Hj by done. case_bool_decide as Hlt; [|done].
    rewrite <- lookup_drop in Hj. apply (Hbefore j y Hj). lia.
Qed.

(** ** [main] when it reports a patch *)

Lemma main_patched_inv fuel elf_data pe0 total from_rela extra table_bytes pe' :
  main fuel elf_data pe0
  = (Ok (Patched total from_rela extra table_bytes), pe') →
  ∃ sections reloc_offsets scan_offsets reloc_data,
    check_elf_ident elf_data = Ok ()
    ∧ parse_elf_sections elf_data = Ok sections
    ∧ read_elf_reloc_offsets elf_data sections = Ok reloc_offsets
    ∧ scan_data_for_pointers elf_data sections = Ok scan_offsets
    ∧ build_base_reloc_table fuel
        (merge_sort Z.le (elements (reloc_offsets ∪ scan_offsets)))
      = Ok reloc_data
    ∧ patch_pe reloc_data pe0 = (Ok (), pe')
    ∧ total = len (merge_sort Z.le (elements (reloc_offsets ∪ scan_offsets)))
    ∧ 0 < total
    ∧ from_rela = Z.of_nat (size reloc_offsets)
    ∧ extra = total - from_rela
    ∧ table_bytes = len reloc_data.
Proof.
  rewrite main_unfold.
  destruct (check_elf_ident elf_data) as [[]| |] eqn:Hident; [|done..].
  destruct (parse_elf_sections elf_data) as [sections| |] eqn:Hparse;
    [|done..].
  destruct (read_elf_reloc_offsets elf_data sections) as [reloc_offsets| |]
    eqn:Hrela; [|done..].
  destruct (scan_data_for_pointers elf_data sections) as [scan_offsets| |]
    eqn:Hscan; [|done..].
  unfold patch_outcome. cbn zeta.
  destruct (merge_sort Z.le (elements (reloc_offsets ∪ scan_offsets)))
    as [|rva all_offsets] eqn:Hall; [done|].
  destruct (build_base_reloc_table fuel (rva :: all_offsets))
    as [reloc_data| |] eqn:Hbuild; [|done..].
  destruct (patch_pe reloc_data pe0) as [[[]| |] pe''] eqn:Hpatch; [|done..].
  intros [= <- <- <- <- <-].
  exists sections, reloc_offsets, scan_offsets, reloc_data.
  rewrite Hall. unfold len. simpl. split_and!; try done; lia.
Qed.

Lemma len_sorted_elements (X : gset Z) :
  len (merge_sort Z.le (elements X)) = Z.of_nat (size X).
Proof. unfold len. by rewrite merge_sort_Permutation. Qed.

Lemma u8_inj (b : byte) (z : Z) : u8 b = z → b = byte_of_Z z.
Proof. intros <-. by rewrite byte_of_Z_u8. Qed.

Lemma NoDup_sorted_elements (X : gset Z) :
  NoDup (merge_sort Z.le (elements X)).
Proof. rewrite merge_sort_Permutation. apply NoDup_elements. Qed.

Lemma elem_of_sorted_elements (X : gset Z) (x : Z) :
  x ∈ merge_sort Z.le (elements X) ↔ x ∈ X.
Proof. by rewrite merge_sort_Permutation, elem_of_elements. Qed.

(** ** [bytes.index], the other way round *)

Lemma bytes_index_Ok_2 data b start pos :
  0 ≤ start → start ≤ pos → data !! Z.to_nat pos = Some b →
  Forall (λ x, x ≠ b) (slice data start pos) →
  bytes_index data b start = Ok pos.
Proof.
  intros Hstart Hle Hpos Hbefore. unfold bytes_index.
  assert (Hfind : list_find (λ x, x = b) (drop (Z.to_nat start) data)
                  = Some (Z.to_nat (pos - start), b)).
  { apply list_find_Some. split_and!; [|done|].
    - rewrite lookup_drop. rewrite <- Hpos. f_equal. lia.
    - intros j y Hj Hlt. rewrite Forall_forall in Hbefore.
      apply Hbefore. apply list_elem_of_lookup. exists j.
      rewrite lookup_slice by done.
      rewrite bool_decide_eq_true_2 by lia. by rewrite <- lookup_drop. }
  rewrite Hfind. f_equal. lia.
Qed.

Lemma bytes_index_raises data b start :
  (∃ msg, bytes_index data b start = Raise (ValueError msg))
  ↔ b ∉ drop (Z.to_nat start) data.
Proof.
  unfold bytes_index.
  destruct (list_find _ _) as [[i x]|] eqn:Hfind; split.
  - by intros [msg ?].
  - intros Hnot. apply list_find_Some in Hfind as (Hi & -> & _).
    destruct Hnot. by eapply list_elem_of_lookup_2.
  - intros _ Hin. apply list_find_None in Hfind.
    rewrite Forall_forall in Hfind. by apply (Hfind b).
  - by eexists.
Qed.

(** ** Overwrites that change nothing *)

Lemma write_at_id (buf : bytes) (a : Z) (data : bytes) :
  0 ≤ a → a + len data ≤ len buf →
  slice buf a (a + len data) = data →
  write_at buf a data = buf.
Proof.
  intros Ha Hend Hslice. apply list_eq. intros pos.
  rewrite lookup_write_at by done. case_bool_decide as Hpos; [|done].
  rewrite <- Hslice at 1. rewrite lookup_slice by done.
  rewrite bool_decide_eq_true_2 by lia. f_equal. lia.
Qed.

Lemma unpack_from_slice n buf off x :
  unpack_from n buf off = Ok x →
  slice buf off (off + Z.of_nat n) = le_encode n x.
Proof.
  intros (Hoff & Hend & ->)%unpack_from_Ok.
  rewrite <- (le_encode_decode (slice buf off (off + Z.of_nat n))) at 1.
  f_equal. rewrite length_slice by lia. lia.
Qed.

Lemma write_at_field_id n buf off x :
  unpack_from n buf off = Ok x → write_at buf off (le_encode n x) = buf.
Proof.
  intros Hx. pose proof Hx as (Hoff & Hend & _)%unpack_from_Ok.
  apply write_at_id; rewrite ?len_le_encode; [done..|].
  by apply unpack_from_slice.
Qed.

Lemma land_lnot_1_bits c :
  Z.testbit (Z.land c (Z.lnot 0x0001)) 0 = false
  ∧ ∀ k, 0 < k → Z.testbit (Z.land c (Z.lnot 0x0001)) k = Z.testbit c k.
Proof.
  rewrite <- Z.ldiff_land. change 1 with (Z.ones 1). split.
  - rewrite Z.ldiff_spec, Z.ones_spec_low by lia. apply andb_false_r.
  - intros k Hk. rewrite Z.ldiff_spec, Z.ones_spec_high by lia.
    apply andb_true_r.
Qed.

(** ** Patching in place a second time *)

Lemma in_place_again pe reloc_data hdr sec sections ridx (k : nat) chars :
  pe_header_view pe hdr →
  read_pe_sections pe hdr = Ok (sections, ridx) →
  sections !! k = Some sec →
  len reloc_data ≤ raw_size sec →
  wf_pe_layout pe hdr sec →
  unpack_from 2 pe (coff_chars_off hdr) = Ok chars →
  replace_reloc (in_place_image pe hdr sec reloc_data chars) hdr
                (with_virtual_size sec (len reloc_data)) reloc_data
  = Ok (in_place_image pe hdr sec reloc_data chars).
Proof.
  intros Hview Hsecs Hsec Hfit Hwf Hchars.
  set (pe' := in_place_image pe hdr sec reloc_data chars).
  set (sec' := with_virtual_size sec (len reloc_data)).
  destruct (in_place_arith _ _ _ _ _ _ _ Hview Hsecs Hsec Hfit Hwf)
    as (?&?&?&?&?&?&?&?&?&?&?&?&?&?).
  assert (Hlen : length pe' = length pe) by (by eapply in_place_length).
  assert (Hlen' : len pe' = len pe) by (unfold len; by rewrite Hlen).
  assert (Hview' : pe_header_view pe' hdr)
    by (by eapply in_place_header_view).
  assert (Hsecs' : read_pe_sections pe' hdr
                   = Ok (<[k := sec']> sections, ridx))
    by (by eapply in_place_sections).
  assert (Hsec' : <[k := sec']> sections !! k = Some sec')
    by (apply list_lookup_insert_eq; by eapply lookup_lt_Some).
  assert (Hfit' : len reloc_data ≤ raw_size sec') by done.
  assert (Hwf' : wf_pe_layout pe' hdr sec').
  { destruct Hwf as (?&?&?&?). unfold wf_pe_layout. rewrite Hlen'. done. }
  assert (Hchars' : unpack_from 2 pe' (coff_chars_off hdr)
                    = Ok (Z.land chars (Z.lnot 0x0001)))
    by (by eapply in_place_chars_cleared).
  rewrite (replace_reloc_Ok _ _ _ _ _ _ _ Hview' Hsecs' Hsec' Hfit' Hwf'
             _ Hchars').
  f_equal. unfold in_place_image at 1. cbn zeta.
  cbn [sec' with_virtual_size raw_offset raw_size header_off
       virtual_address].
  rewrite (write_at_id pe' (raw_offset sec) reloc_data);
    [|lia|rewrite Hlen'; lia|by eapply in_place_raw].
  rewrite (write_at_id pe' (raw_offset sec + len reloc_data));
    [|lia|rewrite Hlen', len_zeros by lia; lia|].
  2:{ rewrite len_zeros by lia.
      replace (raw_offset sec + len reloc_data
               + (raw_size sec - len reloc_data))
        with (raw_offset sec + raw_size sec) by lia.
      by eapply in_place_zero_fill. }
  rewrite (write_at_field_id 4 pe' (header_off sec + 8))
    by (by eapply in_place_virtual_size).
  rewrite (write_at_field_id 4 pe' (dd5_off hdr))
    by (by eapply in_place_dd_address).
  rewrite (write_at_field_id 4 pe' (dd5_off hdr + 4))
    by (by eapply in_place_dd_size).
  rewrite <- Z.land_assoc, Z.land_diag.
  by rewrite (write_at_field_id 2 pe' (coff_chars_off hdr)).
Qed.

(** ** The index of the relocation section *)

Lemma last_reloc_spec (sections : list pe_section) :
  (∀ (k : nat) s, sections !! k = Some s → idx s = Z.of_nat k) →
  match last_reloc sections with
  | None => Forall (λ s, name s ≠ ".reloc"%string) sections
  | Some i =>
      ∃ s, 0 ≤ i ∧ sections !! Z.to_nat i = Some s
           ∧ name s = ".reloc"%string
           ∧ ∀ (j : nat) s', i < Z.of_nat j → sections !! j = Some s' →
                             name s' ≠ ".reloc"%string
  end.
Proof.
  induction sections as [|s sections IH] using rev_ind; intros Hidx.
  { by constructor. }
  rewrite last_reloc_snoc.
  assert (Hs : idx s = Z.of_nat (length sections)).
  { apply Hidx. by rewrite lookup_app_r, Nat.sub_diag by lia. }
  case_bool_decide as Hname.
  - exists s. rewrite Hs, Nat2Z.id.
    split_and!; [lia|by rewrite lookup_app_r, Nat.sub_diag by lia|done|].
    intros j s' Hj Hs'. apply lookup_lt_Some in Hs'.
    rewrite length_app in Hs'. simpl in Hs'. lia.
  - assert (IH' : ∀ (k : nat) s0, sections !! k = Some s0
                                   → idx s0 = Z.of_nat k).
    { intros k s0 Hk. apply Hidx. by rewrite lookup_app_l
        by (by eapply lookup_lt_Some). }
    specialize (IH IH'). destruct (last_reloc sections) as [i|].
    + destruct IH as (s0 & Hi & Hs0 & Hname0 & Hlater).
      exists s0. split_and!; [done| |done|].
      * by rewrite lookup_app_l by (by eapply lookup_lt_Some).
      * intros j s' Hj Hs'.
        destruct (decide (j < length sections)%nat) as [Hlt|Hge].
        -- rewrite lookup_app_l in Hs' by done. by eapply Hlater.
        -- rewrite lookup_app_r in Hs' by lia.
           destruct (j - length sections)%nat; [|done].
           by injection Hs' as <-.
    + apply Forall_app. split; [done|]. by repeat constructor.
Qed.

Lemma read_pe_sections_shape pe hdr sections ridx :
  read_pe_sections pe hdr = Ok (sections, ridx) →
  len sections = Z.max 0 (num_sections hdr)
  ∧ ∀ (k : nat) s, sections !! k = Some s →
      idx s = Z.of_nat k
      ∧ header_off s = sec_table_off hdr + Z.of_nat k * 40.
Proof.
  intros Hsecs. split.
  - apply read_pe_sections_Ok in Hsecs as [Hall _].
    apply Forall2_length in Hall. rewrite length_seqZ in Hall.
    unfold len. lia.
  - intros k s Hk.
    destruct (read_pe_sections_lookup _ _ _ _ _ _ Hsecs Hk) as [_ Hread].
    apply read_section_header_Ok in Hread
      as (vs & va & rs & ro & _ & _ & _ & _ & ->). done.
Qed.

(** ** Failures before the section table is edited *)

Lemma read_pe_sections_empty pe hdr :
  num_sections hdr ≤ 0 → read_pe_sections pe hdr = Ok ([], None).
Proof.
  intros Hn. unfold read_pe_sections. rewrite py_range_step1.
  by rewrite seqZ_nil by lia.
Qed.

(** ** The append path *)

Lemma pack_into_write n buf off x :
  0 ≤ off → off + Z.of_nat n ≤ len buf →
  pack_into n buf off x
  = if bool_decide (0 ≤ x < 2 ^ (8 * Z.of_nat n))
    then Ok (write_at buf off (le_encode n x)) else Raise StructError.
Proof.
  intros Hoff Hend. unfold pack_into, pack, write_at. rewrite len_le_encode.
  rewrite (bool_decide_eq_true_2 (0 ≤ off ∧ _)) by done.
  by case_bool_decide.
Qed.

Lemma reloc_header_chain (n rva rsz roff : Z) :
  write_at
    (write_at
       (write_at
          (write_at
             (write_at (slice_assign (zeros 40) 0 8 RELOC_NAME) 8
                       (le_encode 4 n))
             12 (le_encode 4 rva))
          16 (le_encode 4 rsz))
       20 (le_encode 4 roff))
    36 (le_encode 4 0x42000040)
  = pe_section_header RELOC_NAME n rva rsz roff 0x42000040.
Proof.
  unfold write_at, slice_assign, pe_section_header, RELOC_NAME, zeros.
  rewrite !len_le_encode. cbn [le_encode]. reflexivity.
Qed.

(** *** Rounding up to an alignment *)

Lemma align_up_pow2 (x k : Z) :
  0 ≤ k → align_up x (2 ^ k) = 2 ^ k * ((x + 2 ^ k - 1) `div` 2 ^ k).
Proof.
  intros Hk. unfold align_up. rewrite <- Z.ldiff_land.
  replace (2 ^ k - 1) with (Z.ones k) by (rewrite Z.ones_equiv; lia).
  rewrite Z.ldiff_ones_r by done.
  rewrite Z.shiftl_mul_pow2, Z.shiftr_div_pow2 by done. lia.
Qed.

Lemma align_up_bounds (x k : Z) :
  0 ≤ k →
  align_up x (2 ^ k) `mod` 2 ^ k = 0
  ∧ x ≤ align_up x (2 ^ k) < x + 2 ^ k.
Proof.
  intros Hk. rewrite align_up_pow2 by done.
  assert (0 < 2 ^ k) by (apply Z.pow_pos_nonneg; lia).
  split.
  - rewrite Z.mul_comm. apply Z.mod_mul. lia.
  - pose proof (Z.div_mod (x + 2 ^ k - 1) (2 ^ k)).
    pose proof (Z.mod_pos_bound (x + 2 ^ k - 1) (2 ^ k)). lia.
Qed.

Lemma align_up_file (x : Z) :
  align_up x PE_FILE_ALIGNMENT `mod` 0x200 = 0
  ∧ x ≤ align_up x PE_FILE_ALIGNMENT < x + 0x200.
Proof. apply (align_up_bounds x 9). lia. Qed.

Lemma align_up_section (x : Z) :
  align_up x PE_SECTION_ALIGNMENT `mod` 0x1000 = 0
  ∧ x ≤ align_up x PE_SECTION_ALIGNMENT < x + 0x1000.
Proof. apply (align_up_bounds x 12). lia. Qed.

(** *** [max] with a key *)

Lemma max_by_Ok {A} (key : A → Z) (l : list A) (m : A) :
  max_by key l = Ok m → m ∈ l ∧ ∀ y, y ∈ l → key y ≤ key m.
Proof.
  destruct l as [|x l]; [done|]. simpl. intros [= <-].
  set (f := λ best y, if bool_decide (key y > key best) then y else best).
  assert (Hfold : ∀ l best,
    (foldl f best l = best ∨ foldl f best l ∈ l)
    ∧ key best ≤ key (foldl f best l)
    ∧ ∀ y, y ∈ l → key y ≤ key (foldl f best l)).
  { clear. intros l. induction l as [|z l IH]; intros best; simpl.
    - split_and!; [by left|lia|]. by intros y ?%elem_of_nil.
    - destruct (IH (f best z)) as (Hin & Hbest & Hall).
      assert (key best ≤ key (f best z) ∧ key z ≤ key (f best z)
              ∧ (f best z = best ∨ f best z = z)) as (? & ? & Hf).
      { unfold f. case_bool_decide; split_and!; auto; lia. }
      split_and!.
      + destruct Hin as [->|Hin]; [|right; by right].
        destruct Hf as [->| ->]; [by left|right; by left].
      + lia.
      + intros y [->|Hy]%elem_of_cons; [lia|by apply Hall]. }
  destruct (Hfold l x) as (Hin & Hbest & Hall). split.
  - destruct Hin as [->|Hin]; [by left|by right].
  - intros y [->|Hy]%elem_of_cons; [done|by apply Hall].
Qed.

(** *** Reads from a buffer that has grown *)

Lemma unpack_from_app_l n (l1 l2 : bytes) off v :
  unpack_from n l1 off = Ok v → unpack_from n (l1 ++ l2) off = Ok v.
Proof.
  intros (Hoff & Hend & ->)%unpack_from_Ok. apply unpack_from_Ok.
  rewrite len_app. pose proof (len_nonneg l2). split_and!; [lia..|].
  f_equal. apply list_eq. intros i. rewrite !lookup_slice by done.
  case_bool_decide; [|done]. rewrite lookup_app_l; [done|].
  unfold len in *. lia.
Qed.

Lemma slice_app_l {A} (l1 l2 : list A) a b :
  0 ≤ a → b ≤ len l1 → slice (l1 ++ l2) a b = slice l1 a b.
Proof.
  intros Ha Hb. apply list_eq. intros i. rewrite !lookup_slice by done.
  case_bool_decide; [|done]. rewrite lookup_app_l; [done|].
  unfold len in *. lia.
Qed.

Lemma slice_app_mid {A} (l1 l2 l3 : list A) a b :
  a = len l1 → b = a + len l2 → slice (l1 ++ l2 ++ l3) a b = l2.
Proof. intros -> ->. apply slice_app_exact. Qed.

Lemma unpack_from_write_at_inside n buf a data o :
  0 ≤ a → a + len data ≤ len buf → 0 ≤ o → o + Z.of_nat n ≤ len data →
  unpack_from n (write_at buf a data) (a + o) = unpack_from n data o.
Proof.
  intros Ha Hend Ho Hfit. unfold unpack_from.
  rewrite len_write_at by done.
  rewrite !bool_decide_eq_true_2 by lia. do 2 f_equal.
  apply list_eq. intros i. rewrite !lookup_slice by lia.
  case_bool_decide as Hi; [|by rewrite bool_decide_eq_false_2 by lia].
  rewrite bool_decide_eq_true_2 by lia.
  rewrite lookup_write_at by done. rewrite bool_decide_eq_true_2 by lia.
  f_equal. lia.
Qed.

Lemma slice_write_at_inside buf a data c d :
  0 ≤ a → a + len data ≤ len buf → 0 ≤ c → d ≤ len data →
  slice (write_at buf a data) (a + c) (a + d) = slice data c d.
Proof.
  intros Ha Hend Hc Hd.
  apply list_eq. intros i. rewrite !lookup_slice by lia.
  case_bool_decide as Hi; [|by rewrite bool_decide_eq_false_2 by lia].
  rewrite bool_decide_eq_true_2 by lia.
  rewrite lookup_write_at by done. rewrite bool_decide_eq_true_2 by lia.
  f_equal. lia.
Qed.

(** *** The new section header *)

Lemma len_reloc_header n rva rsz roff :
  len (pe_section_header RELOC_NAME n rva rsz roff 0x42000040) = 40.
Proof. reflexivity. Qed.

Lemma reloc_header_fields n rva rsz roff :
  0 ≤ n < 2 ^ 32 → 0 ≤ rva < 2 ^ 32 → 0 ≤ rsz < 2 ^ 32 →
  0 ≤ roff < 2 ^ 32 →
  let hd := pe_section_header RELOC_NAME n rva rsz roff 0x42000040 in
  slice hd 0 8 = RELOC_NAME
  ∧ unpack_from 4 hd 8 = Ok n
  ∧ unpack_from 4 hd 12 = Ok rva
  ∧ unpack_from 4 hd 16 = Ok rsz
  ∧ unpack_from 4 hd 20 = Ok roff
  ∧ unpack_from 4 hd 36 = Ok 0x42000040.
Proof.
  intros Hn Hrva Hrsz Hroff hd.
  assert (Hfield : ∀ off x,
    0 ≤ off → off + 4 ≤ 40 → 0 ≤ x < 2 ^ 32 →
    slice hd off (off + 4) = le_encode 4 x → unpack_from 4 hd off = Ok x).
  { intros off x Hoff Hend Hx Hslice. apply unpack_from_Ok.
    change (Z.of_nat 4) with 4. rewrite Hslice.
    split_and!; [done| |by rewrite le_decode_encode].
    unfold hd. rewrite len_reloc_header. lia. }
  split_and!; [reflexivity|apply Hfield; [lia..|reflexivity]..].
Qed.

(** *** The image the append path writes *)

Section append.
Context (pe reloc_data : bytes) (hdr : pe_header).
Context (chars rva rsz roff : Z).
Hypothesis Hview : pe_header_view pe hdr.
Hypothesis Hcoff : 0x44 ≤ coff_off hdr.
Hypothesis Hopt : 160 ≤ opt_hdr_size hdr.
Hypothesis Hroom : sec_table_off hdr + num_sections hdr * 40 + 40 ≤ len pe.
Hypothesis Hchars : unpack_from 2 pe (coff_chars_off hdr) = Ok chars.
Hypothesis Hnum : num_sections hdr + 1 < 2 ^ 16.
Hypothesis Hrva : 0 ≤ rva ∧ rva + 0x1000 < 2 ^ 32.
Hypothesis Hrsz : len reloc_data ≤ rsz < 2 ^ 32.
Hypothesis Hroff : len pe ≤ roff < 2 ^ 32.

Let n := len reloc_data.
Let nsh := sec_table_off hdr + num_sections hdr * 40.
Let hd := pe_section_header RELOC_NAME n rva rsz roff 0x42000040.
Let pe1 := write_at pe nsh hd.
Let pe2 := write_at pe1 (coff_off hdr + 2) (le_encode 2 (num_sections hdr + 1)).
Let pe3 := write_at pe2 (size_of_image_off hdr) (le_encode 4 (rva + 0x1000)).
Let pe4 := write_at pe3 (dd5_off hdr) (le_encode 4 rva).
Let pe5 := write_at pe4 (dd5_off hdr + 4) (le_encode 4 n).
Let pe6 :=
  write_at pe5 (coff_chars_off hdr) (le_encode 2 (Z.land chars (Z.lnot 0x0001))).
Let pe7 := pe6 ++ zeros (roff - len pe) ++ reloc_data ++ zeros (rsz - n).

Lemma append_image_unfold :
  append_image pe hdr reloc_data chars rva rsz roff = pe7.
Proof. done. Qed.

(** The layout in numbers. *)
Lemma append_arith :
  0 ≤ num_sections hdr
  ∧ coff_chars_off hdr = coff_off hdr + 18
  ∧ opt_off hdr = coff_off hdr + 20
  ∧ size_of_image_off hdr = opt_off hdr + 56
  ∧ dd5_off hdr = opt_off hdr + 152
  ∧ sec_table_off hdr = opt_off hdr + opt_hdr_size hdr
  ∧ nsh = sec_table_off hdr + num_sections hdr * 40
  ∧ 0 ≤ n < 2 ^ 32
  ∧ 0 ≤ Z.land chars (Z.lnot 0x0001) < 2 ^ 16
  ∧ len hd = 40.
Proof.
  destruct Hview as (sig_off & Hsig_off & Hsig & Hcoff' & Hn & Hsz & Hco
                     & Hopt' & Hmagic & Himg & Hhdrs & Hdd & Htab).
  pose proof (unpack_from_range _ _ _ _ Hn) as Hn_r.
  pose proof (unpack_from_range _ _ _ _ Hchars) as Hchars_r.
  pose proof (land_lnot_1_range chars Hchars_r) as Hclear.
  pose proof (len_nonneg reloc_data).
  change (2 ^ (8 * Z.of_nat 2)) with (2 ^ 16) in *.
  subst n nsh. split_and!; try done; lia.
Qed.

Lemma append_lens :
  len pe1 = len pe ∧ len pe2 = len pe ∧ len pe3 = len pe
  ∧ len pe4 = len pe ∧ len pe5 = len pe ∧ len pe6 = len pe.
Proof.
  destruct append_arith as (?&?&?&?&?&?&?&?&?&Lh).
  assert (L1 : len pe1 = len pe) by (apply len_write_at; lia).
  assert (L2 : len pe2 = len pe).
  { unfold pe2. rewrite len_write_at; rewrite ?len_le_encode; lia. }
  assert (L3 : len pe3 = len pe).
  { unfold pe3. rewrite len_write_at; rewrite ?len_le_encode; lia. }
  assert (L4 : len pe4 = len pe).
  { unfold pe4. rewrite len_write_at; rewrite ?len_le_encode; lia. }
  assert (L5 : len pe5 = len pe).
  { unfold pe5. rewrite len_write_at; rewrite ?len_le_encode; lia. }
  assert (L6 : len pe6 = len pe).
  { unfold pe6. rewrite len_write_at; rewrite ?len_le_encode; lia. }
  done.
Qed.

Lemma append_len : len pe7 = roff + rsz.
Proof.
  destruct append_arith as (?&?&?&?&?&?&?&?&?&Lh).
  destruct append_lens as (_ & _ & _ & _ & _ & L6).
  unfold pe7. rewrite !len_app, L6, !len_zeros by lia. fold n. lia.
Qed.

(** The table and the padding around it. *)
Lemma append_gap : slice pe7 (len pe) roff = zeros (roff - len pe).
Proof.
  destruct append_lens as (_ & _ & _ & _ & _ & L6).
  apply slice_app_mid; [done|]. rewrite len_zeros; lia.
Qed.

Lemma append_table : slice pe7 roff (roff + n) = reloc_data.
Proof.
  destruct append_lens as (_ & _ & _ & _ & _ & L6).
  unfold pe7. rewrite (app_assoc pe6).
  apply slice_app_mid; [|done]. rewrite len_app, len_zeros; lia.
Qed.

Lemma append_tail : slice pe7 (roff + n) (roff + rsz) = zeros (rsz - n).
Proof.
  destruct append_arith as (?&?&?&?&?&?&?&?&?&Lh).
  destruct append_lens as (_ & _ & _ & _ & _ & L6).
  trans (slice (((pe6 ++ zeros (roff - len pe)) ++ reloc_data)
                  ++ zeros (rsz - n) ++ []) (roff + n) (roff + rsz)).
  { unfold pe7. by rewrite app_nil_r, <- !app_assoc. }
  apply slice_app_mid.
  - rewrite !len_app, len_zeros by lia. fold n. lia.
  - rewrite len_zeros; lia.
Qed.

(** Bytes of the original file outside the written fields keep their
    value. *)
Lemma append_frame (pos : nat) :
  Z.of_nat pos < len pe → ¬ append_written hdr (Z.of_nat pos) →
  pe7 !! pos = pe !! pos.
Proof.
  intros Hlt Hpos. unfold append_written in Hpos. cbn zeta in Hpos.
  destruct append_arith as (?&?&?&?&?&?&?&?&?&Lh).
  destruct append_lens as (L1 & L2 & L3 & L4 & L5 & L6).
  unfold pe7. rewrite lookup_app_l by (unfold len in *; lia).
  unfold pe6. rewrite lookup_write_at by wa_side.
  rewrite bool_decide_eq_false_2 by wa_side.
  unfold pe5. rewrite lookup_write_at by wa_side.
  rewrite bool_decide_eq_false_2 by wa_side.
  unfold pe4. rewrite lookup_write_at by wa_side.
  rewrite bool_decide_eq_false_2 by wa_side.
  unfold pe3. rewrite lookup_write_at by wa_side.
  rewrite bool_decide_eq_false_2 by wa_side.
  unfold pe2. rewrite lookup_write_at by wa_side.
  rewrite bool_decide_eq_false_2 by wa_side.
  unfold pe1. rewrite lookup_write_at by wa_side.
  by rewrite bool_decide_eq_false_2 by wa_side.
Qed.

Lemma append_field_kept m off v :
  unpack_from m pe off = Ok v →
  (∀ pos : nat, off ≤ Z.of_nat pos < off + Z.of_nat m →
                ¬ append_written hdr (Z.of_nat pos)) →
  unpack_from m pe7 off = Ok v.
Proof.
  intros Hv Hfree. pose proof Hv as (Hoff & Hend & ->)%unpack_from_Ok.
  apply unpack_from_Ok. rewrite append_len.
  pose proof (len_nonneg reloc_data).
  split_and!; [lia..|]. f_equal. symmetry. apply slice_agree; [done|].
  intros pos Hpos. apply append_frame; [lia|]. by apply Hfree.
Qed.

(** The fields the path sets. *)
Lemma append_new_header : slice pe7 nsh (nsh + 40) = hd.
Proof.
  destruct append_arith as (?&?&?&?&?&?&?&?&?&Lh).
  destruct append_lens as (L1 & L2 & L3 & L4 & L5 & L6).
  unfold pe7. rewrite slice_app_l by lia.
  do 5 (etrans; [apply slice_write_at_other; wa_side|]).
  rewrite <- Lh. apply slice_write_at_same; lia.
Qed.

Lemma append_num_sections :
  unpack_from 2 pe7 (coff_off hdr + 2) = Ok (num_sections hdr + 1).
Proof.
  destruct append_arith as (?&?&?&?&?&?&?&?&?&Lh).
  destruct append_lens as (L1 & L2 & L3 & L4 & L5 & L6).
  apply unpack_from_app_l.
  do 4 (etrans; [apply unpack_from_write_at_other; wa_side|]).
  apply unpack_from_write_at_same; wa_side.
Qed.

Lemma append_size_of_image :
  unpack_from 4 pe7 (size_of_image_off hdr) = Ok (rva + 0x1000).
Proof.
  destruct append_arith as (?&?&?&?&?&?&?&?&?&Lh).
  destruct append_lens as (L1 & L2 & L3 & L4 & L5 & L6).
  apply unpack_from_app_l.
  do 3 (etrans; [apply unpack_from_write_at_other; wa_side|]).
  apply unpack_from_write_at_same; wa_side.
Qed.

Lemma append_dd_address : unpack_from 4 pe7 (dd5_off hdr) = Ok rva.
Proof.
  destruct append_arith as (?&?&?&?&?&?&?&?&?&Lh).
  destruct append_lens as (L1 & L2 & L3 & L4 & L5 & L6).
  apply unpack_from_app_l.
  do 2 (etrans; [apply unpack_from_write_at_other; wa_side|]).
  apply unpack_from_write_at_same; wa_side.
Qed.

Lemma append_dd_size : unpack_from 4 pe7 (dd5_off hdr + 4) = Ok n.
Proof.
  destruct append_arith as (?&?&?&?&?&?&?&?&?&Lh).
  destruct append_lens as (L1 & L2 & L3 & L4 & L5 & L6).
  apply unpack_from_app_l.
  etrans; [apply unpack_from_write_at_other; wa_side|].
  apply unpack_from_write_at_same; wa_side.
Qed.

Lemma append_chars_cleared :
  unpack_from 2 pe7 (coff_chars_off hdr) = Ok (Z.land chars (Z.lnot 0x0001)).
Proof.
  destruct append_arith as (?&?&?&?&?&?&?&?&?&Lh).
  destruct append_lens as (L1 & L2 & L3 & L4 & L5 & L6).
  apply unpack_from_app_l.
  apply unpack_from_write_at_same; wa_side.
Qed.

Lemma append_header_field o x :
  0 ≤ o → o + 4 ≤ 40 → unpack_from 4 hd o = Ok x →
  unpack_from 4 pe7 (nsh + o) = Ok x.
Proof.
  intros Ho Hend Hx.
  destruct append_arith as (?&?&?&?&?&?&?&?&?&Lh).
  destruct append_lens as (L1 & L2 & L3 & L4 & L5 & L6).
  apply unpack_from_app_l.
  do 5 (etrans; [apply unpack_from_write_at_other; wa_side|]).
  rewrite <- Hx. apply unpack_from_write_at_inside; wa_side.
Qed.

(** *** The header and the section table after the append path *)

Lemma append_header_view :
  pe_header_view pe7 (with_num_sections hdr (num_sections hdr + 1)).
Proof.
  destruct append_arith as (?&?&?&?&?&?&?&?&?&Lh).
  destruct Hview as (sig_off & Hsig_off & Hsig & Hcoff' & Hn & Hsz & Hco
                     & Hopt' & Hmagic & Himg & Hhdrs & Hdd & Htab).
  pose proof Hmagic as (_ & Hmagic_end & _)%unpack_from_Ok.
  change (Z.of_nat 2) with 2 in *.
  exists sig_off. cbn [with_num_sections coff_off num_sections opt_hdr_size
    coff_chars_off opt_off size_of_image_off size_of_headers_off dd5_off
    sec_table_off].
  split_and!; [| |done| | |done|done| |done|done|done|done].
  - apply (append_field_kept _ _ _ Hsig_off). intros pos Hpos.
    change (Z.of_nat 4) with 4 in Hpos.
    unfold append_written. cbn zeta. lia.
  - rewrite <- Hsig. apply slice_agree; [lia|].
    intros pos Hpos. apply append_frame; [lia|].
    unfold append_written. cbn zeta. lia.
  - apply append_num_sections.
  - apply (append_field_kept _ _ _ Hsz). intros pos Hpos.
    change (Z.of_nat 2) with 2 in Hpos.
    unfold append_written. cbn zeta. lia.
  - apply (append_field_kept _ _ _ Hmagic). intros pos Hpos.
    unfold append_written. cbn zeta. lia.
Qed.

Lemma append_section_old sections ridx (j : nat) s :
  read_pe_sections pe hdr = Ok (sections, ridx) →
  sections !! j = Some s →
  read_section_header pe7 (with_num_sections hdr (num_sections hdr + 1))
                      (Z.of_nat j) = Ok s.
Proof.
  intros Hsecs Hj.
  destruct append_arith as (?&?&?&?&?&?&?&?&?&Lh).
  destruct (read_pe_sections_lookup _ _ _ _ _ _ Hsecs Hj) as [Hlt Hread].
  apply read_section_header_Ok in Hread
    as (vs & va' & rs' & ro' & Hvs & Hva & Hrs & Hro & ->).
  apply read_section_header_Ok. cbn zeta in *.
  cbn [with_num_sections sec_table_off].
  assert (Hfree : ∀ pos : nat,
    sec_table_off hdr + Z.of_nat j * 40 ≤ Z.of_nat pos
      < sec_table_off hdr + Z.of_nat j * 40 + 24 →
    ¬ append_written hdr (Z.of_nat pos)).
  { intros pos Hpos. unfold append_written. cbn zeta. lia. }
  exists vs, va', rs', ro'.
  split_and!;
    [apply (append_field_kept _ _ _ Hvs)
    |apply (append_field_kept _ _ _ Hva)
    |apply (append_field_kept _ _ _ Hrs)
    |apply (append_field_kept _ _ _ Hro)|];
    try (intros pos Hpos; apply Hfree; change (Z.of_nat 4) with 4 in Hpos;
         lia).
  do 3 f_equal. symmetry. apply slice_agree; [lia|].
  intros pos Hpos. apply append_frame; [lia|]. apply Hfree. lia.
Qed.

Lemma append_section_new :
  read_section_header pe7 (with_num_sections hdr (num_sections hdr + 1))
                      (num_sections hdr)
  = Ok (appended_section hdr n rva rsz roff).
Proof.
  destruct append_arith as (?&?&?&?&?&?&?&?&?&Lh).
  destruct (reloc_header_fields n rva rsz roff)
    as (Hname & Hvs & Hva & Hrs & Hro & _); [lia..|].
  apply read_section_header_Ok. cbn zeta.
  cbn [with_num_sections sec_table_off]. fold nsh.
  exists n, rva, rsz, roff.
  split_and!; [by apply append_header_field..|].
  unfold appended_section. fold nsh. f_equal.
  pose proof append_new_header as Hhd.
  assert (slice pe7 nsh (nsh + 8) = RELOC_NAME) as ->; [|reflexivity].
  rewrite <- Hname. fold hd. rewrite <- Hhd.
  apply list_eq. intros i. rewrite !lookup_slice by lia.
  repeat case_bool_decide; try lia; done.
Qed.

Lemma append_sections sections ridx :
  read_pe_sections pe hdr = Ok (sections, ridx) →
  read_pe_sections pe7 (with_num_sections hdr (num_sections hdr + 1))
  = Ok (sections ++ [appended_section hdr n rva rsz roff],
        Some (num_sections hdr)).
Proof.
  intros Hsecs.
  destruct append_arith as (?&?&?&?&?&?&?&?&?&Lh).
  pose proof Hsecs as [Hall Hridx]%read_pe_sections_Ok.
  apply read_pe_sections_Ok.
  cbn [with_num_sections num_sections]. split.
  - replace (num_sections hdr + 1) with (num_sections hdr + 1 * 1) by lia.
    rewrite seqZ_app by lia. rewrite Z.add_0_l.
    apply Forall2_app.
    + apply Forall2_same_length_lookup. split.
      * by eapply Forall2_length.
      * intros i x y Hx Hy. apply lookup_seqZ in Hx as [-> _].
        rewrite Z.add_0_l. by eapply append_section_old.
    + change (seqZ (num_sections hdr) 1) with [num_sections hdr].
      repeat constructor. apply append_section_new.
  - rewrite last_reloc_snoc. by rewrite bool_decide_eq_true_2.
Qed.
End append.

(** *** The code of the append path amounts to that image *)

Lemma append_reloc_Ok pe hdr sections reloc_data pe' :
  pe_header_view pe hdr →
  wf_pe_headers pe hdr →
  append_reloc pe hdr sections reloc_data = Ok pe' →
  ∃ last chars,
    max_by virtual_address sections = Ok last
    ∧ unpack_from 2 pe (coff_chars_off hdr) = Ok chars
    ∧ sec_table_off hdr + num_sections hdr * 40 + 40 ≤ len pe
    ∧ num_sections hdr + 1 < 2 ^ 16
    ∧ (0 ≤ append_rva last ∧ append_rva last + 0x1000 < 2 ^ 32)
    ∧ len reloc_data ≤ append_raw_size reloc_data < 2 ^ 32
    ∧ len pe ≤ append_raw_off pe < 2 ^ 32
    ∧ pe' = append_image pe hdr reloc_data chars (append_rva last)
                         (append_raw_size reloc_data) (append_raw_off pe).
Proof.
  intros Hview (Hcoff & Hopt & soh & Hsoh & Hsoh_le).
  unfold append_reloc. cbn zeta.
  destruct (max_by virtual_address sections) as [last| |] eqn:Hlast;
    [|done..].
  cbn [mbind result_bind]. rewrite Hsoh. cbn [mbind result_bind].
  case_bool_decide as Hroom; [done|].
  fold (append_rva last) (append_raw_size reloc_data) (append_raw_off pe).
  change PE_SECTION_ALIGNMENT with 0x1000.
  set (n := len reloc_data). set (rva := append_rva last).
  set (rsz := append_raw_size reloc_data). set (roff := append_raw_off pe).
  set (nsh := sec_table_off hdr + num_sections hdr * 40) in *.
  destruct (align_up_file (len reloc_data)) as [_ Hrsz_le].
  destruct (align_up_file (len pe)) as [_ Hroff_le].
  fold rsz (append_raw_size reloc_data) in Hrsz_le.
  fold roff (append_raw_off pe) in Hroff_le.
  destruct Hview as (sig_off & Hsig_off & Hsig & Hcoff' & Hnum & Hsz & Hco
                     & Hopt' & Hmagic & Himg & Hhdrs & Hdd & Htab).
  pose proof (unpack_from_range _ _ _ _ Hnum) as Hnum_r.
  pose proof Hmagic as (_ & Hmagic_end & _)%unpack_from_Ok.
  change (Z.of_nat 2) with 2 in *.
  change (2 ^ (8 * 2)) with (2 ^ 16) in *.
  (* the new section header *)
  set (h0 := slice_assign (zeros 40) 0 8 RELOC_NAME).
  assert (L0 : len h0 = 40) by reflexivity.
  rewrite (pack_into_write 4 h0 8) by lia.
  case_bool_decide as Hn; [|done]. cbn [mbind result_bind].
  set (h1 := write_at h0 8 (le_encode 4 n)).
  assert (Lh1 : len h1 = 40)
    by (unfold h1; rewrite len_write_at; rewrite ?len_le_encode; lia).
  rewrite (pack_into_write 4 h1 12) by lia.
  case_bool_decide as Hrva; [|done]. cbn [mbind result_bind].
  set (h2 := write_at h1 12 (le_encode 4 rva)).
  assert (Lh2 : len h2 = 40)
    by (unfold h2; rewrite len_write_at; rewrite ?len_le_encode; lia).
  rewrite (pack_into_write 4 h2 16) by lia.
  case_bool_decide as Hrsz; [|done]. cbn [mbind result_bind].
  set (h3 := write_at h2 16 (le_encode 4 rsz)).
  assert (Lh3 : len h3 = 40)
    by (unfold h3; rewrite len_write_at; rewrite ?len_le_encode; lia).
  rewrite (pack_into_write 4 h3 20) by lia.
  case_bool_decide as Hroff; [|done]. cbn [mbind result_bind].
  set (h4 := write_at h3 20 (le_encode 4 roff)).
  assert (Lh4 : len h4 = 40)
    by (unfold h4; rewrite len_write_at; rewrite ?len_le_encode; lia).
  rewrite (pack_into_write 4 h4 36) by lia.
  rewrite bool_decide_eq_true_2 by (change (Z.of_nat 4) with 4; lia).
  cbn [mbind result_bind].
  assert (write_at h4 36 (le_encode 4 0x42000040)
          = pe_section_header RELOC_NAME n rva rsz roff 0x42000040) as ->
    by apply reloc_header_chain.
  set (hd := pe_section_header RELOC_NAME n rva rsz roff 0x42000040).
  assert (Lhd : len hd = 40) by apply len_reloc_header.
  change (Z.of_nat 4) with 4 in *. change (2 ^ (8 * 4)) with (2 ^ 32) in *.
  (* the header fields *)
  replace (nsh + 40) with (nsh + len hd) by lia.
  fold (write_at pe nsh hd). set (pe1 := write_at pe nsh hd).
  assert (L1 : len pe1 = len pe) by (apply len_write_at; lia).
  rewrite (pack_into_write 2 pe1) by (change (Z.of_nat 2) with 2; lia).
  case_bool_decide as Hnum1; [|done]. cbn [mbind result_bind].
  change (Z.of_nat 2) with 2 in *. change (2 ^ (8 * 2)) with (2 ^ 16) in *.
  set (pe2 := write_at pe1 (coff_off hdr + 2) _).
  assert (L2 : len pe2 = len pe).
  { unfold pe2. rewrite len_write_at; rewrite ?len_le_encode; lia. }
  rewrite (pack_into_write 4 pe2) by (change (Z.of_nat 4) with 4; lia).
  case_bool_decide as Himage; [|done]. cbn [mbind result_bind].
  change (Z.of_nat 4) with 4 in *. change (2 ^ (8 * 4)) with (2 ^ 32) in *.
  set (pe3 := write_at pe2 (size_of_image_off hdr) _).
  assert (L3 : len pe3 = len pe).
  { unfold pe3. rewrite len_write_at; rewrite ?len_le_encode; lia. }
  rewrite (pack_into_write 4 pe3) by (change (Z.of_nat 4) with 4; lia).
  rewrite bool_decide_eq_true_2 by (change (Z.of_nat 4) with 4; lia).
  cbn [mbind result_bind].
  set (pe4 := write_at pe3 (dd5_off hdr) _).
  assert (L4 : len pe4 = len pe).
  { unfold pe4. rewrite len_write_at; rewrite ?len_le_encode; lia. }
  rewrite (pack_into_write 4 pe4) by (change (Z.of_nat 4) with 4; lia).
  rewrite bool_decide_eq_true_2 by (change (Z.of_nat 4) with 4; lia).
  cbn [mbind result_bind].
  set (pe5 := write_at pe4 (dd5_off hdr + 4) _).
  assert (L5 : len pe5 = len pe).
  { unfold pe5. rewrite len_write_at; rewrite ?len_le_encode; lia. }
  assert (unpack_from 2 pe5 (coff_chars_off hdr)
          = unpack_from 2 pe (coff_chars_off hdr)) as ->.
  { do 5 (etrans; [apply unpack_from_write_at_other; wa_side|]). done. }
  destruct (unpack_from 2 pe (coff_chars_off hdr)) as [chars| |] eqn:Hchars;
    [|done..].
  cbn [mbind result_bind].
  pose proof (unpack_from_range _ _ _ _ Hchars) as Hchars_r.
  pose proof (land_lnot_1_range chars Hchars_r) as Hclear.
  rewrite (pack_into_write 2 pe5) by (change (Z.of_nat 2) with 2; lia).
  rewrite bool_decide_eq_true_2 by (change (Z.of_nat 2) with 2; lia).
  cbn [mbind result_bind].
  set (pe6 := write_at pe5 (coff_chars_off hdr) _).
  assert (L6 : len pe6 = len pe).
  { unfold pe6. rewrite len_write_at; rewrite ?len_le_encode; lia. }
  intros [= <-]. exists last, chars.
  split_and!; [done|done|lia|lia|lia|lia|lia|lia|lia|lia|].
  unfold append_image, append_headers. cbn zeta.
  fold n nsh hd pe1 pe2. change PE_SECTION_ALIGNMENT with 0x1000.
  fold pe3 pe4 pe5 pe6. rewrite L6.
  case_bool_decide as Hgap.
  - by rewrite <- !app_assoc.
  - replace (roff - len pe) with 0 by lia. by rewrite <- !app_assoc.
Qed.

Lemma patch_pe_append reloc_data pe hdr sections reloc_idx pe' :
  read_pe_header pe = Ok hdr →
  read_pe_sections pe hdr = Ok (sections, reloc_idx) →
  append_taken sections reloc_idx reloc_data →
  patch_pe reloc_data pe = (Ok (), pe') →
  append_reloc pe hdr sections reloc_data = Ok pe'.
Proof.
  intros Hhdr Hsecs Htaken. rewrite patch_pe_unfold, Hhdr, Hsecs.
  assert (Hwrite : write_result (append_reloc pe hdr sections reloc_data) pe
                   = (Ok (), pe')
                   → append_reloc pe hdr sections reloc_data = Ok pe').
  { unfold write_result.
    destruct (append_reloc pe hdr sections reloc_data); by intros [= ->]. }
  destruct Htaken as [->|(i & sec & -> & Hsec & Hsmall)]; [done|].
  rewrite Hsec. by rewrite bool_decide_eq_false_2 by lia.
Qed.

(** What the append path leaves behind, in one statement. *)
Lemma patch_pe_append_image reloc_data pe hdr sections reloc_idx pe' :
  read_pe_header pe = Ok hdr →
  read_pe_sections pe hdr = Ok (sections, reloc_idx) →
  wf_pe_headers pe hdr →
  append_taken sections reloc_idx reloc_data →
  patch_pe reloc_data pe = (Ok (), pe') →
  ∃ last chars,
    max_by virtual_address sections = Ok last
    ∧ pe_header_view pe hdr
    ∧ 0x44 ≤ coff_off hdr ∧ 160 ≤ opt_hdr_size hdr
    ∧ unpack_from 2 pe (coff_chars_off hdr) = Ok chars
    ∧ sec_table_off hdr + num_sections hdr * 40 + 40 ≤ len pe
    ∧ num_sections hdr + 1 < 2 ^ 16
    ∧ (0 ≤ append_rva last ∧ append_rva last + 0x1000 < 2 ^ 32)
    ∧ len reloc_data ≤ append_raw_size reloc_data < 2 ^ 32
    ∧ len pe ≤ append_raw_off pe < 2 ^ 32
    ∧ pe' = append_image pe hdr reloc_data chars (append_rva last)
                         (append_raw_size reloc_data) (append_raw_off pe).
Proof.
  intros Hhdr Hsecs Hwf Htaken Hpatch.
  pose proof Hhdr as Hview%read_pe_header_Ok.
  pose proof (patch_pe_append _ _ _ _ _ _ Hhdr Hsecs Htaken Hpatch) as Happ.
  destruct (append_reloc_Ok _ _ _ _ _ Hview Hwf Happ)
    as (last & chars & Hlast & Hchars & Hroom & Hnum & Hrva & Hrsz & Hroff
        & ->).
  destruct Hwf as (Hcoff & Hopt & _).
  exists last, chars. split_and!; try done; lia.
Qed.

(** *** Patching once more after the append path *)

Lemma append_again pe reloc_data hdr sections ridx chars rva rsz roff :
  pe_header_view pe hdr →
  read_pe_sections pe hdr = Ok (sections, ridx) →
  0x44 ≤ coff_off hdr → 160 ≤ opt_hdr_size hdr →
  sec_table_off hdr + num_sections hdr * 40 + 40 ≤ len pe →
  unpack_from 2 pe (coff_chars_off hdr) = Ok chars →
  num_sections hdr + 1 < 2 ^ 16 →
  0 ≤ rva ∧ rva + 0x1000 < 2 ^ 32 →
  len reloc_data ≤ rsz < 2 ^ 32 →
  len pe ≤ roff < 2 ^ 32 →
  patch_pe reloc_data (append_image pe hdr reloc_data chars rva rsz roff)
  = (Ok (), append_image pe hdr reloc_data chars rva rsz roff).
Proof.
  intros Hview Hsecs Hcoff Hopt Hroom Hchars Hnum Hrva Hrsz Hroff.
  set (pe' := append_image pe hdr reloc_data chars rva rsz roff).
  set (hdr' := with_num_sections hdr (num_sections hdr + 1)).
  set (sec' := appended_section hdr (len reloc_data) rva rsz roff).
  destruct (append_arith pe reloc_data hdr chars rva rsz roff)
    as (Hnum0&?&?&?&?&?&_&?&?&_); [done..|].
  assert (Hlen' : len pe' = roff + rsz) by (by apply append_len).
  assert (Hview' : pe_header_view pe' hdr') by (by apply append_header_view).
  assert (Hsecs' : read_pe_sections pe' hdr'
                   = Ok (sections ++ [sec'], Some (num_sections hdr)))
    by (by eapply append_sections).
  assert (Hsec' : (sections ++ [sec']) !! Z.to_nat (num_sections hdr)
                  = Some sec').
  { destruct (read_pe_sections_shape _ _ _ _ Hsecs) as [Hshape _].
    rewrite lookup_app_r by (unfold len in Hshape; lia).
    replace (Z.to_nat (num_sections hdr) - length sections)%nat with 0%nat
      by (unfold len in Hshape; lia).
    done. }
  assert (Hfit' : len reloc_data ≤ raw_size sec') by (simpl; lia).
  assert (Hwf' : wf_pe_layout pe' hdr' sec').
  { unfold wf_pe_layout. rewrite Hlen'. simpl. lia. }
  assert (Hchars' : unpack_from 2 pe' (coff_chars_off hdr')
                    = Ok (Z.land chars (Z.lnot 0x0001)))
    by (change (coff_chars_off hdr') with (coff_chars_off hdr);
        by apply append_chars_cleared).
  destruct (reloc_header_fields (len reloc_data) rva rsz roff)
    as (_ & Hvs & _); [lia..|].
  eapply patch_pe_in_place;
    [by apply read_pe_header_Ok|exact Hsecs'|exact Hsec'|exact Hfit'|].
  rewrite (replace_reloc_Ok _ _ _ _ _ _ _ Hview' Hsecs' Hsec' Hfit' Hwf'
             _ Hchars').
  f_equal. unfold in_place_image. cbn zeta.
  cbn [sec' appended_section hdr' with_num_sections raw_offset raw_size
       header_off virtual_address dd5_off coff_chars_off].
  rewrite (write_at_id pe' roff reloc_data);
    [|lia|rewrite Hlen'; lia|by apply append_table].
  rewrite (write_at_id pe' (roff + len reloc_data));
    [|lia|rewrite Hlen', len_zeros by lia; lia|].
  2:{ rewrite len_zeros by lia.
      replace (roff + len reloc_data + (rsz - len reloc_data))
        with (roff + rsz) by lia.
      by apply append_tail. }
  rewrite (write_at_field_id 4 pe')
    by (apply append_header_field; [done..|lia|lia|done]).
  rewrite (write_at_field_id 4 pe' (dd5_off hdr))
    by (by apply append_dd_address).
  rewrite (write_at_field_id 4 pe' (dd5_off hdr + 4))
    by (by apply append_dd_size).
  rewrite <- Z.land_assoc, Z.land_diag.
  by rewrite (write_at_field_id 2 pe' (coff_chars_off hdr)).
Qed.

(** * The claims *)

(** ** Relocation Table Builder *)

(** C1. For every duplicate-free list of RVAs the builder's byte string
    decodes, once the no-op padding entries are dropped, to exactly the
    (page, intra-page offset) pairs of the input: every input RVA appears,
    nothing else appears, and nothing appears twice; adding page and offset
    gives back the input RVAs.  The builder returns a byte string whenever
    every RVA fits the 32-bit page field of a block header ([struct.pack]
    raises otherwise, and then there is no byte string to decode). *)
Theorem C1_table_round_trip (fuel : nat) (offsets : list Z) :
  (2 ≤ fuel)%nat → NoDup offsets →
  (Forall (λ rva, 0 ≤ rva < 2 ^ 32) offsets →
   ∃ buf, build_base_reloc_table fuel offsets = Ok buf)
  ∧ ∀ buf, build_base_reloc_table fuel offsets = Ok buf →
      ∃ blocks, decode_table buf = Some blocks
        ∧ NoDup (table_pairs blocks)
        ∧ (∀ pr, pr ∈ table_pairs blocks ↔ pr ∈ rva_pair <$> offsets)
        ∧ (λ pr, pr.1 + pr.2) <$> table_pairs blocks ≡ₚ offsets.
Proof.
  intros Hfuel Hnd. split; [by apply build_base_reloc_table_total|].
  intros buf Hbuild.
  destruct (build_then_decode _ _ _ Hfuel Hbuild) as [Hdec _].
  exists (table_blocks offsets).
  pose proof (NoDup_table_pairs offsets Hnd) as Hnd_pairs.
  split_and!; [done|done|apply elem_of_table_pairs|].
  assert (Hperm : table_pairs (table_blocks offsets) ≡ₚ rva_pair <$> offsets).
  { apply NoDup_Permutation; [done|by apply (NoDup_fmap_2 _)|].
    apply elem_of_table_pairs. }
  rewrite Hperm, <- list_fmap_compose.
  assert (((λ pr : Z * Z, pr.1 + pr.2) ∘ rva_pair) <$> offsets = offsets)
    as ->; [|done].
  rewrite <- (list_fmap_id offsets) at 2.
  apply list_fmap_ext. intros i rva _. apply rva_pair_sum.
Qed.

Lemma C1_table_round_trip_witness :
  (2 ≤ 2)%nat ∧ NoDup sample_offsets
  ∧ build_base_reloc_table 2 sample_offsets = Ok sample_table
  ∧ ∃ blocks, decode_table sample_table = Some blocks
      ∧ NoDup (table_pairs blocks)
      ∧ (∀ pr, pr ∈ table_pairs blocks ↔ pr ∈ rva_pair <$> sample_offsets)
      ∧ (λ pr, pr.1 + pr.2) <$> table_pairs blocks ≡ₚ sample_offsets.
Proof.
  assert (Hfuel : (2 ≤ 2)%nat) by lia.
  assert (Hnd : NoDup sample_offsets)
    by (apply (bool_decide_unpack _); vm_compute; exact I).
  assert (Hbuild : build_base_reloc_table 2 sample_offsets = Ok sample_table)
    by (vm_compute; reflexivity).
  split_and!; [exact Hfuel|exact Hnd|exact Hbuild|].
  exact (proj2 (C1_table_round_trip 2 sample_offsets Hfuel Hnd)
               sample_table Hbuild).
Defined.

(** C7. Every block of the builder's output has a byte length that is a
    multiple of 4 and equals 8 plus 2 times the number of its entries, real
    entries and padding entries together; the padding entries come last and
    there is at most one per block.  (This holds for any input list,
    duplicate-free or not.) *)
Theorem C7_block_lengths (fuel : nat) (offsets : list Z) :
  (2 ≤ fuel)%nat → NoDup offsets →
  (Forall (λ rva, 0 ≤ rva < 2 ^ 32) offsets →
   ∃ buf, build_base_reloc_table fuel offsets = Ok buf)
  ∧ ∀ buf, build_base_reloc_table fuel offsets = Ok buf →
      ∃ blocks, decode_table buf = Some blocks
        ∧ buf = concat (block_bytes <$> blocks)
        ∧ Forall (λ b,
                    len (block_bytes b) = blk_size b
                    ∧ blk_size b `mod` 4 = 0
                    ∧ blk_size b
                      = 8 + 2 * (len (real_entries b) + len (padding_entries b))
                    ∧ blk_entries b = real_entries b ++ padding_entries b
                    ∧ len (padding_entries b) ≤ 1) blocks.
Proof.
  intros Hfuel Hnd. split; [by apply build_base_reloc_table_total|].
  intros buf Hbuild.
  destruct (build_then_decode _ _ _ Hfuel Hbuild) as [Hdec Hbuf].
  exists (table_blocks offsets). split_and!; [done..|].
  apply Forall_forall. intros b (p & es & Hes & ->)%elem_of_table_blocks.
  pose proof (sorted_entries_range _ _ _ Hes) as Hrange.
  destruct (page_block_lengths p _ Hrange) as (Hmod & Hsize & Hpad).
  split_and!; [|done|done|by apply entries_page_block|done].
  rewrite len_block_bytes. done.
Qed.

Lemma C7_block_lengths_witness :
  (2 ≤ 2)%nat ∧ NoDup sample_offsets
  ∧ build_base_reloc_table 2 sample_offsets = Ok sample_table
  ∧ ∃ blocks, decode_table sample_table = Some blocks
      ∧ sample_table = concat (block_bytes <$> blocks)
      ∧ Forall (λ b,
                  len (block_bytes b) = blk_size b
                  ∧ blk_size b `mod` 4 = 0
                  ∧ blk_size b
                    = 8 + 2 * (len (real_entries b) + len (padding_entries b))
                  ∧ blk_entries b = real_entries b ++ padding_entries b
                  ∧ len (padding_entries b) ≤ 1) blocks.
Proof.
  assert (Hfuel : (2 ≤ 2)%nat) by lia.
  assert (Hnd : NoDup sample_offsets)
    by (apply (bool_decide_unpack _); vm_compute; exact I).
  assert (Hbuild : build_base_reloc_table 2 sample_offsets = Ok sample_table)
    by (vm_compute; reflexivity).
  split_and!; [exact Hfuel|exact Hnd|exact Hbuild|].
  exact (proj2 (C7_block_lengths 2 sample_offsets Hfuel Hnd)
               sample_table Hbuild).
Defined.

(** C8. For every duplicate-free list of RVAs, in the builder's output the
    relocation entries of each block are strictly ascending by their 12-bit
    intra-page offset, and the blocks are strictly ascending by page RVA.
    The entries of a block are its relocation entries in that order, followed
    by the no-op padding entry when there is one. *)
Theorem C8_strictly_ascending (fuel : nat) (offsets : list Z) :
  (2 ≤ fuel)%nat → NoDup offsets →
  (Forall (λ rva, 0 ≤ rva < 2 ^ 32) offsets →
   ∃ buf, build_base_reloc_table fuel offsets = Ok buf)
  ∧ ∀ buf, build_base_reloc_table fuel offsets = Ok buf →
      ∃ blocks, decode_table buf = Some blocks
        ∧ StronglySorted Z.lt (blk_page <$> blocks)
        ∧ Forall (λ b,
                    StronglySorted Z.lt (entry_offset <$> real_entries b)
                    ∧ blk_entries b = real_entries b ++ padding_entries b)
                 blocks.
Proof.
  intros Hfuel Hnd. split; [by apply build_base_reloc_table_total|].
  intros buf Hbuild.
  destruct (build_then_decode _ _ _ Hfuel Hbuild) as [Hdec _].
  exists (table_blocks offsets). split_and!; [done| |].
  - rewrite table_blocks_pages. apply merge_sort_strict.
    apply NoDup_fst_map_to_list.
  - apply Forall_forall. intros b (p & es & Hes & ->)%elem_of_table_blocks.
    pose proof (sorted_entries_range _ _ _ Hes) as Hrange.
    split; [|by apply entries_page_block].
    rewrite entry_offsets_page_block by done.
    apply merge_sort_strict. by eapply group_pages_entries_NoDup.
Qed.

Lemma C8_strictly_ascending_witness :
  (2 ≤ 2)%nat ∧ NoDup sample_offsets
  ∧ build_base_reloc_table 2 sample_offsets = Ok sample_table
  ∧ ∃ blocks, decode_table sample_table = Some blocks
      ∧ StronglySorted Z.lt (blk_page <$> blocks)
      ∧ Forall (λ b,
                  StronglySorted Z.lt (entry_offset <$> real_entries b)
                  ∧ blk_entries b = real_entries b ++ padding_entries b)
               blocks.
Proof.
  assert (Hfuel : (2 ≤ 2)%nat) by lia.
  assert (Hnd : NoDup sample_offsets)
    by (apply (bool_decide_unpack _); vm_compute; exact I).
  assert (Hbuild : build_base_reloc_table 2 sample_offsets = Ok sample_table)
    by (vm_compute; reflexivity).
  split_and!; [exact Hfuel|exact Hnd|exact Hbuild|].
  exact (proj2 (C8_strictly_ascending 2 sample_offsets Hfuel Hnd)
               sample_table Hbuild).
Defined.

(** ** Relocation Discoverer *)

(** C6. The explicit-record scan returns offset [t] exactly when some section
    of type SHT_RELA (4) named [.rela.data] or [.rela.rodata] holds a record
    with target offset [t] whose relocation type, the low 32 bits of
    [r_info], is 2.  Sections with any other name or type contribute nothing:
    two section tables that agree on these two names give the same set.  The
    scan returns a set whenever the machine type is supported and the
    selected sections consist of whole records. *)
Theorem C6_explicit_record_scan (elf_data : bytes)
    (sections : gmap string elf_section) :
  (∀ e_machine,
     unpack_from 2 elf_data 18 = Ok e_machine →
     e_machine ∈ [0xF3; 0x102] →
     (∀ name sec, sections !! name = Some sec →
                  rela_section_selected name sec →
                  rela_readable elf_data sec) →
     ∃ offsets, read_elf_reloc_offsets elf_data sections = Ok offsets)
  ∧ (∀ offsets,
       read_elf_reloc_offsets elf_data sections = Ok offsets →
       ∀ t, t ∈ offsets ↔
            ∃ name sec, sections !! name = Some sec
              ∧ rela_section_selected name sec
              ∧ rela_record elf_data sec t)
  ∧ (∀ sections' offsets offsets',
       sections' !! ".rela.data"%string = sections !! ".rela.data"%string →
       sections' !! ".rela.rodata"%string = sections !! ".rela.rodata"%string →
       read_elf_reloc_offsets elf_data sections = Ok offsets →
       read_elf_reloc_offsets elf_data sections' = Ok offsets' →
       offsets' = offsets).
Proof.
  assert (Hspec : ∀ sections offsets,
    read_elf_reloc_offsets elf_data sections = Ok offsets →
    ∀ t, t ∈ offsets ↔
         ∃ name sec, sections !! name = Some sec
           ∧ rela_section_selected name sec
           ∧ rela_record elf_data sec t).
  { clear sections. intros sections offsets. unfold read_elf_reloc_offsets.
    destruct (unpack_from 2 elf_data 18) as [e_machine| |]; simpl; [|done..].
    case_bool_decide; [done|]. intros Hloop t.
    set (P := λ (x : string * elf_section) (t : Z),
                rela_section_selected x.1 x.2 ∧ rela_record elf_data x.2 t).
    match type of Hloop with
    | foldM ?f _ _ = _ =>
        assert (Hstep : ∀ acc x r, x ∈ map_to_list sections → f acc x = Ok r →
                          ∀ t, t ∈ r ↔ t ∈ acc ∨ P x t)
    end.
    { intros acc [name sec] r _ Hs. by apply reloc_section_step_spec. }
    rewrite (foldM_collect _ P _ _ _ Hstep Hloop t). unfold P.
    rewrite elem_of_empty. split.
    - intros [[]|([name sec] & Hin & Hsel & Hrec)].
      apply elem_of_map_to_list in Hin. eauto.
    - intros (name & sec & Hin & Hsel & Hrec). right.
      exists (name, sec). by rewrite elem_of_map_to_list. }
  split_and!.
  - intros e_machine He Hm Hreadable. unfold read_elf_reloc_offsets.
    rewrite He. simpl. rewrite bool_decide_eq_false_2 by (by intros []).
    apply foldM_total. intros acc [name sec] Hin.
    apply elem_of_map_to_list in Hin.
    case_bool_decide as Htype; [eauto|].
    case_bool_decide as Hname; [eauto|].
    apply read_rela_records_total. apply (Hreadable name sec Hin). split.
    + by destruct (decide (sec_type sec = SHT_RELA)).
    + apply rela_name_selected.
      by destruct (decide (name ∈ [".rela.data"; ".rela.rodata"]%string)).
  - apply Hspec.
  - intros sections' offsets offsets' Hdata Hrodata Hr Hr'.
    apply set_eq. intros t.
    rewrite (Hspec _ _ Hr t), (Hspec _ _ Hr' t).
    split; intros (name & sec & Hin & Hsel & Hrec); exists name, sec;
      (split; [|done]); destruct Hsel as [_ [->| ->]]; congruence.
Qed.



(** C10. The scan reads exactly the 8-byte words of [.data] at
    section-relative offsets 0, 8, ..., up to the section size rounded down to
    a multiple of 8: every scan-derived RVA is the section address plus a
    multiple of 8 below that bound, and the trailing (size mod 8) bytes are
    never examined, so changing them does not change the result. *)
Theorem C10_scan_whole_words (elf_data : bytes)
    (sections : gmap string elf_section) (data_sec : elf_section) :
  sections !! ".data"%string = Some data_sec →
  let base := sec_offset data_sec in
  let addr := sec_addr data_sec in
  let size := sec_size data_sec in
  let words := size `div` 8 in
  (∀ image_lo image_hi,
     image_range sections = (Some image_lo, image_hi) →
     scan_data_for_pointers elf_data sections
     = foldM (scan_word elf_data base addr image_lo image_hi) ∅
             ((λ k, 8 * k) <$> seqZ 0 words))
  ∧ (∀ offsets rva,
       scan_data_for_pointers elf_data sections = Ok offsets →
       rva ∈ offsets →
       ∃ k, 0 ≤ k < words ∧ rva = addr + 8 * k)
  ∧ (∀ elf_data',
       length elf_data' = length elf_data →
       (∀ pos : nat,
          ¬ (base + 8 * words ≤ Z.of_nat pos < base + size) →
          elf_data' !! pos = elf_data !! pos) →
       scan_data_for_pointers elf_data' sections
       = scan_data_for_pointers elf_data sections)
  ∧ (0 ≤ base → base + size ≤ len elf_data →
     ∃ offsets, scan_data_for_pointers elf_data sections = Ok offsets).
Proof.
  intros Hdata base addr size words. split_and!.
  - intros lo hi Hrange. unfold scan_data_for_pointers.
    rewrite Hdata, Hrange. by rewrite scan_range.
  - intros offsets rva Hscan Hrva.
    apply (scan_spec _ _ _ Hscan) in Hrva
      as (d & lo & hi & k & Hd & _ & Hk & -> & _).
    assert (d = data_sec) as -> by congruence. eauto.
  - intros elf_data' Hlen Hagree.
    apply (scan_frame _ _ _ data_sec); [done..|].
    intros pos Hpos. apply Hagree. fold base in Hpos. subst words size. lia.
  - intros Hbase Hend. apply scan_total. intros d Hd.
    assert (d = data_sec) as -> by congruence. done.
Qed.

Lemma C10_scan_whole_words_witness :
  sample_scan_sections !! ".data"%string = Some (ElfSection 0x2000 0 20 1 0)
  ∧ scan_data_for_pointers sample_data_pointer sample_scan_sections
    = Ok {[0x2000]}
  ∧ ∀ offsets rva,
      scan_data_for_pointers sample_data_pointer sample_scan_sections
      = Ok offsets →
      rva ∈ offsets → ∃ k, 0 ≤ k < 20 `div` 8 ∧ rva = 0x2000 + 8 * k.
Proof.
  assert (Hdata : sample_scan_sections !! ".data"%string
                  = Some (ElfSection 0x2000 0 20 1 0))
    by (vm_compute; reflexivity).
  split_and!; [exact Hdata|vm_compute; reflexivity|].
  exact (proj1 (proj2 (C10_scan_whole_words sample_data_pointer
                         sample_scan_sections _ Hdata))).
Defined.

(** ** PE Patcher *)

(** C2, as stated, fails: on [sample_pe_reloc], whose [.reloc] section has
    raw size 0x200, patching with the 36-byte [sample_table] takes the
    in-place path and leaves the raw-data-size field at 0x200. *)
Lemma C2_raw_size_field_counterexample :
  ¬ raw_size_field_rewritten sample_pe_reloc sample_table.
Proof.
  intros Hclaim.
  specialize (Hclaim sample_hdr sample_sections 1 sample_reloc_sec
                (patch_pe sample_table sample_pe_reloc).2).
  assert (Hraw : unpack_from 4 (patch_pe sample_table sample_pe_reloc).2
                   (header_off sample_reloc_sec + 16) = Ok 0x200)
    by (vm_compute; reflexivity).
  rewrite Hclaim in Hraw; [by vm_compute in Hraw|by vm_compute..].
Qed.

(** C2, amended. In the replace-existing-section path, for a PE laid out as
    the format prescribes, the patcher overwrites the section's raw bytes with
    the table, zero-fills the remainder up to the old raw size, and sets the
    section header's virtual-size field (offset 8) to the table's byte
    length; the raw-data-size field (offset 16) keeps its value. *)
Theorem C2_replace_in_place (reloc_data pe : bytes) (hdr : pe_header)
    (sections : list pe_section) (i : Z) (sec : pe_section) :
  read_pe_header pe = Ok hdr →
  read_pe_sections pe hdr = Ok (sections, Some i) →
  sections !! Z.to_nat i = Some sec →
  len reloc_data ≤ raw_size sec →
  wf_pe_layout pe hdr sec →
  ∃ pe',
    patch_pe reloc_data pe = (Ok (), pe')
    ∧ length pe' = length pe
    ∧ slice pe' (raw_offset sec) (raw_offset sec + len reloc_data) = reloc_data
    ∧ slice pe' (raw_offset sec + len reloc_data)
            (raw_offset sec + raw_size sec)
      = zeros (raw_size sec - len reloc_data)
    ∧ unpack_from 4 pe' (header_off sec + 8) = Ok (len reloc_data)
    ∧ unpack_from 4 pe' (header_off sec + 16) = Ok (raw_size sec).
Proof.
  intros Hhdr Hsecs Hsec Hfit Hwf.
  pose proof Hhdr as Hview%read_pe_header_Ok.
  destruct (in_place_chars _ _ _ _ _ _ _ Hview Hsecs Hsec Hfit Hwf)
    as (chars & Hchars & _).
  exists (in_place_image pe hdr sec reloc_data chars). split_and!.
  - eapply patch_pe_in_place; [done..|]. by eapply replace_reloc_Ok.
  - by eapply in_place_length.
  - by eapply in_place_raw.
  - by eapply in_place_zero_fill.
  - by eapply in_place_virtual_size.
  - destruct (in_place_arith _ _ _ _ _ _ _ Hview Hsecs Hsec Hfit Hwf)
      as (Hho&?&?&?&?&?&?&?&?&?&?&?&?&?).
    destruct (read_pe_sections_lookup _ _ _ _ _ _ Hsecs Hsec) as [_ Hread].
    apply read_section_header_Ok in Hread
      as (vs & va & rs & ro & _ & _ & Hrs & _ & Heq). cbn zeta in Hrs.
    assert (Hrs' : unpack_from 4 pe (header_off sec + 16) = Ok (raw_size sec)).
    { rewrite Hho, Hrs, Heq. done. }
    eapply in_place_field_kept; [done..|].
    intros pos Hpos. change (Z.of_nat 4) with 4 in Hpos.
    unfold in_place_written. lia.
Qed.

Lemma C2_replace_in_place_witness :
  read_pe_header sample_pe_reloc = Ok sample_hdr
  ∧ read_pe_sections sample_pe_reloc sample_hdr = Ok (sample_sections, Some 1)
  ∧ sample_sections !! Z.to_nat 1 = Some sample_reloc_sec
  ∧ len sample_table ≤ raw_size sample_reloc_sec
  ∧ wf_pe_layout sample_pe_reloc sample_hdr sample_reloc_sec
  ∧ ∃ pe',
      patch_pe sample_table sample_pe_reloc = (Ok (), pe')
      ∧ length pe' = length sample_pe_reloc
      ∧ slice pe' 1024 (1024 + len sample_table) = sample_table
      ∧ slice pe' (1024 + len sample_table) (1024 + 512)
        = zeros (512 - len sample_table)
      ∧ unpack_from 4 pe' (368 + 8) = Ok (len sample_table)
      ∧ unpack_from 4 pe' (368 + 16) = Ok 512.
Proof.
  assert (H1 : read_pe_header sample_pe_reloc = Ok sample_hdr)
    by (vm_compute; reflexivity).
  assert (H2 : read_pe_sections sample_pe_reloc sample_hdr
               = Ok (sample_sections, Some 1)) by (vm_compute; reflexivity).
  assert (H3 : sample_sections !! Z.to_nat 1 = Some sample_reloc_sec)
    by reflexivity.
  assert (H4 : len sample_table ≤ raw_size sample_reloc_sec)
    by (by vm_compute).
  assert (H5 : wf_pe_layout sample_pe_reloc sample_hdr sample_reloc_sec)
    by (repeat split; by vm_compute).
  split_and!; [exact H1|exact H2|exact H3|exact H4|exact H5|].
  exact (C2_replace_in_place sample_table sample_pe_reloc sample_hdr
           sample_sections 1 sample_reloc_sec H1 H2 H3 H4 H5).
Defined.

(** C9. When a PE laid out as the format prescribes holds a section named
    [.reloc] whose raw size is at least the length of the new table, patching
    takes the in-place path: the file keeps its length, the header view
    (section count, table position) is the same, every other section
    descriptor is the same, and the relocation section's descriptor differs
    only in its recorded (virtual) size.  The only bytes that change are the
    section's raw data, that size field, the base-relocation data directory
    entry and the characteristics field. *)
Theorem C9_in_place_frame (reloc_data pe : bytes) (hdr : pe_header)
    (sections : list pe_section) (i : Z) (sec : pe_section) :
  read_pe_header pe = Ok hdr →
  read_pe_sections pe hdr = Ok (sections, Some i) →
  sections !! Z.to_nat i = Some sec →
  len reloc_data ≤ raw_size sec →
  wf_pe_layout pe hdr sec →
  ∃ pe',
    patch_pe reloc_data pe = (Ok (), pe')
    ∧ replace_reloc pe hdr sec reloc_data = Ok pe'
    ∧ length pe' = length pe
    ∧ read_pe_header pe' = Ok hdr
    ∧ read_pe_sections pe' hdr
      = Ok (<[Z.to_nat i := with_virtual_size sec (len reloc_data)]> sections,
            Some i)
    ∧ (∀ pos : nat,
         ¬ in_place_written hdr sec (Z.of_nat pos) → pe' !! pos = pe !! pos).
Proof.
  intros Hhdr Hsecs Hsec Hfit Hwf.
  pose proof Hhdr as Hview%read_pe_header_Ok.
  destruct (in_place_chars _ _ _ _ _ _ _ Hview Hsecs Hsec Hfit Hwf)
    as (chars & Hchars & _).
  pose proof (replace_reloc_Ok _ _ _ _ _ _ _ Hview Hsecs Hsec Hfit Hwf
                _ Hchars) as Hrep.
  exists (in_place_image pe hdr sec reloc_data chars). split_and!.
  - by eapply patch_pe_in_place.
  - done.
  - by eapply in_place_length.
  - apply read_pe_header_Ok. by eapply in_place_header_view.
  - by eapply in_place_sections.
  - intros pos Hpos. by eapply in_place_frame.
Qed.

Lemma C9_in_place_frame_witness :
  read_pe_header sample_pe_reloc = Ok sample_hdr
  ∧ read_pe_sections sample_pe_reloc sample_hdr = Ok (sample_sections, Some 1)
  ∧ sample_sections !! Z.to_nat 1 = Some sample_reloc_sec
  ∧ len sample_table ≤ raw_size sample_reloc_sec
  ∧ wf_pe_layout sample_pe_reloc sample_hdr sample_reloc_sec
  ∧ ∃ pe',
      patch_pe sample_table sample_pe_reloc = (Ok (), pe')
      ∧ replace_reloc sample_pe_reloc sample_hdr sample_reloc_sec sample_table
        = Ok pe'
      ∧ length pe' = length sample_pe_reloc
      ∧ read_pe_header pe' = Ok sample_hdr
      ∧ read_pe_sections pe' sample_hdr
        = Ok ([sample_text_sec;
               with_virtual_size sample_reloc_sec (len sample_table)], Some 1)
      ∧ (∀ pos : nat,
           ¬ in_place_written sample_hdr sample_reloc_sec (Z.of_nat pos) →
           pe' !! pos = sample_pe_reloc !! pos).
Proof.
  assert (H1 : read_pe_header sample_pe_reloc = Ok sample_hdr)
    by (vm_compute; reflexivity).
  assert (H2 : read_pe_sections sample_pe_reloc sample_hdr
               = Ok (sample_sections, Some 1)) by (vm_compute; reflexivity).
  assert (H3 : sample_sections !! Z.to_nat 1 = Some sample_reloc_sec)
    by reflexivity.
  assert (H4 : len sample_table ≤ raw_size sample_reloc_sec)
    by (by vm_compute).
  assert (H5 : wf_pe_layout sample_pe_reloc sample_hdr sample_reloc_sec)
    by (repeat split; by vm_compute).
  split_and!; [exact H1|exact H2|exact H3|exact H4|exact H5|].
  exact (C9_in_place_frame sample_table sample_pe_reloc sample_hdr
           sample_sections 1 sample_reloc_sec H1 H2 H3 H4 H5).
Defined.

(** C3 fails on the code for a table longer than one page.  Patching
    [sample_pe_plain], which has no [.reloc] section, with the 4128-byte
    [large_table] appends section 1 at virtual address 0x2000 with virtual
    size 4128 and sets the image size to 0x3000, while the section ends at
    0x2000 + 0x2000 = 0x4000 once rounded up to the section alignment. *)
Theorem C3_size_of_image_short :
  read_pe_sections sample_pe_plain sample_hdr_plain
  = Ok ([sample_text_sec], None)
  ∧ (patch_pe large_table sample_pe_plain).1 = Ok ()
  ∧ read_pe_sections (patch_pe large_table sample_pe_plain).2 sample_hdr
    = Ok ([sample_text_sec;
           PeSection 1 ".reloc" 368 (len large_table) 0x2000 0x1200 0x400],
          Some 1)
  ∧ len large_table = 4128
  ∧ unpack_from 4 (patch_pe large_table sample_pe_plain).2
      (size_of_image_off sample_hdr) = Ok 0x3000
  ∧ 0x2000 + align_up (len large_table) PE_SECTION_ALIGNMENT = 0x4000
  ∧ ¬ size_of_image_covers (patch_pe large_table sample_pe_plain).2 1.
Proof.
  assert (Hhdr : read_pe_header (patch_pe large_table sample_pe_plain).2
                 = Ok sample_hdr) by (vm_compute; reflexivity).
  assert (Hsecs : read_pe_sections (patch_pe large_table sample_pe_plain).2
                    sample_hdr
                  = Ok ([sample_text_sec;
                         PeSection 1 ".reloc" 368 (len large_table) 0x2000
                                   0x1200 0x400], Some 1))
    by (vm_compute; reflexivity).
  assert (Himg : unpack_from 4 (patch_pe large_table sample_pe_plain).2
                   (size_of_image_off sample_hdr) = Ok 0x3000)
    by (vm_compute; reflexivity).
  split_and!;
    [vm_compute; reflexivity|vm_compute; reflexivity|exact Hsecs
    |vm_compute; reflexivity|exact Himg|vm_compute; reflexivity|].
  intros (hdr & sections & ridx & sec & soi & Hhdr' & Hsecs' & Hsec & Hsoi
          & Hcover).
  rewrite Hhdr in Hhdr'. injection Hhdr' as <-.
  rewrite Hsecs in Hsecs'. injection Hsecs' as <- <-.
  injection Hsec as <-. rewrite Himg in Hsoi. injection Hsoi as <-.
  clear Hhdr Hsecs Himg. vm_compute in Hcover. exact (Hcover eq_refl).
Qed.

(** ** The whole tool *)

(** C4. For every pair of input files the destination is either fully
    patched or byte-for-byte unchanged: [main] reports a patch exactly when
    the file holds the image with every edit of one of the two paths applied,
    and in every other outcome (any exception, no relocations) the file is
    what it was.  A bad PE signature, a magic other than PE32+, an
    unsupported ELF machine type and a lack of header room each raise with
    the file untouched, and an empty offset set returns with the file
    untouched.  (The final [open]/[write] is taken as one step.) *)
Theorem C4_all_or_nothing (fuel : nat) (elf_data pe0 : bytes) :
  ((∃ reloc_data total from_rela extra,
      (main fuel elf_data pe0).1
      = Ok (Patched total from_rela extra (len reloc_data))
      ∧ fully_patched pe0 reloc_data (main fuel elf_data pe0).2)
   ∨ ((∀ total from_rela extra table_bytes,
         (main fuel elf_data pe0).1
         ≠ Ok (Patched total from_rela extra table_bytes))
      ∧ (main fuel elf_data pe0).2 = pe0))
  ∧ (∀ reloc_data,
       ((patch_pe reloc_data pe0).1 = Ok ()
        ∧ fully_patched pe0 reloc_data (patch_pe reloc_data pe0).2)
       ∨ ((patch_pe reloc_data pe0).1 ≠ Ok ()
          ∧ (patch_pe reloc_data pe0).2 = pe0))
  ∧ (∀ reloc_data,
       bad_pe_signature pe0 →
       patch_pe reloc_data pe0
       = (Raise (ValueError "invalid PE signature"), pe0))
  ∧ (∀ reloc_data,
       not_pe32_plus pe0 →
       patch_pe reloc_data pe0 = (Raise (ValueError "not PE32+"), pe0))
  ∧ (∀ reloc_data,
       no_header_room pe0 reloc_data →
       patch_pe reloc_data pe0
       = (Raise (ValueError "no room in PE header area for new section"),
          pe0))
  ∧ (∀ sections,
       check_elf_ident elf_data = Ok () →
       parse_elf_sections elf_data = Ok sections →
       unsupported_machine elf_data →
       main fuel elf_data pe0
       = (Raise (ValueError "unsupported e_machine"), pe0))
  ∧ (∀ sections reloc_offsets scan_offsets,
       check_elf_ident elf_data = Ok () →
       parse_elf_sections elf_data = Ok sections →
       read_elf_reloc_offsets elf_data sections = Ok reloc_offsets →
       scan_data_for_pointers elf_data sections = Ok scan_offsets →
       reloc_offsets ∪ scan_offsets = ∅ →
       main fuel elf_data pe0 = (Ok NoRelocations, pe0)).
Proof.
  split_and!.
  - apply main_dichotomy.
  - intros reloc_data. apply patch_pe_dichotomy.
  - intros reloc_data. apply patch_pe_bad_signature.
  - intros reloc_data. apply patch_pe_not_pe32_plus.
  - intros reloc_data. apply patch_pe_no_header_room.
  - intros sections. apply main_unsupported_machine.
  - intros sections reloc_offsets scan_offsets. apply main_no_relocations.
Qed.

(** The outcomes of C4 on the sample files. *)
Example main_patches_sample :
  (main 2 sample_elf_riscv sample_pe_plain).1 = Ok (Patched 2 1 1 12)
  ∧ len (main 2 sample_elf_riscv sample_pe_plain).2 = 0x600.
Proof. vm_compute. done. Qed.

Example main_rejects_machine :
  main 2 sample_elf_x86_64 sample_pe_plain
  = (Raise (ValueError "unsupported e_machine"), sample_pe_plain).
Proof. vm_compute. done. Qed.

Example patch_pe_rejects_signature :
  patch_pe sample_table sample_pe_bad_signature
  = (Raise (ValueError "invalid PE signature"), sample_pe_bad_signature).
Proof. vm_compute. done. Qed.

Example patch_pe_rejects_pe32 :
  patch_pe sample_table sample_pe32
  = (Raise (ValueError "not PE32+"), sample_pe32).
Proof. vm_compute. done. Qed.

Example patch_pe_rejects_full_headers :
  patch_pe sample_table sample_pe_full_headers
  = (Raise (ValueError "no room in PE header area for new section"),
     sample_pe_full_headers).
Proof. vm_compute. done. Qed.

(** * Further properties of the code *)

(** ** [build_base_reloc_table] *)

(** X1. The table depends on the RVAs only, not on their order: two lists
    that are permutations of each other give the same result, byte for
    byte. *)
Theorem X1_table_order_independent (fuel : nat) (offsets1 offsets2 : list Z) :
  (2 ≤ fuel)%nat → offsets1 ≡ₚ offsets2 →
  build_base_reloc_table fuel offsets1 = build_base_reloc_table fuel offsets2.
Proof.
  intros Hfuel Hperm. rewrite !build_base_reloc_table_spec by done.
  by rewrite (table_blocks_Permutation _ _ Hperm).
Qed.

Lemma X1_table_order_independent_witness :
  (2 ≤ 2)%nat ∧ sample_offsets ≡ₚ sample_offsets_shuffled
  ∧ build_base_reloc_table 2 sample_offsets
    = build_base_reloc_table 2 sample_offsets_shuffled.
Proof.
  assert (Hfuel : (2 ≤ 2)%nat) by lia.
  assert (Hperm : sample_offsets ≡ₚ sample_offsets_shuffled).
  { apply NoDup_Permutation;
      [apply (bool_decide_unpack _); vm_compute; exact I..|].
    intros x. unfold sample_offsets, sample_offsets_shuffled.
    rewrite !elem_of_cons, !elem_of_nil. tauto. }
  split_and!; [exact Hfuel|exact Hperm|].
  exact (X1_table_order_independent 2 _ _ Hfuel Hperm).
Defined.

(** X2. The builder does not deduplicate: for any list of RVAs, repeated or
    not, the table it returns decodes to one (page, offset) pair per list
    element. *)
Theorem X2_table_keeps_repetitions (fuel : nat) (offsets : list Z)
    (buf : bytes) :
  (2 ≤ fuel)%nat →
  build_base_reloc_table fuel offsets = Ok buf →
  ∃ blocks, decode_table buf = Some blocks
    ∧ table_pairs blocks ≡ₚ rva_pair <$> offsets
    ∧ len (table_pairs blocks) = len offsets.
Proof.
  intros Hfuel Hbuild.
  destruct (build_then_decode _ _ _ Hfuel Hbuild) as [Hdec _].
  exists (table_blocks offsets). split_and!; [done| |].
  - apply table_pairs_Permutation.
  - unfold len. by rewrite table_pairs_Permutation, length_fmap.
Qed.

Lemma X2_table_keeps_repetitions_witness :
  (2 ≤ 2)%nat
  ∧ build_base_reloc_table 2 repeated_offsets = Ok repeated_table
  ∧ ∃ blocks, decode_table repeated_table = Some blocks
      ∧ table_pairs blocks ≡ₚ rva_pair <$> repeated_offsets
      ∧ len (table_pairs blocks) = len repeated_offsets.
Proof.
  assert (Hfuel : (2 ≤ 2)%nat) by lia.
  assert (Hbuild : build_base_reloc_table 2 repeated_offsets
                   = Ok repeated_table) by (vm_compute; reflexivity).
  split_and!; [exact Hfuel|exact Hbuild|].
  exact (X2_table_keeps_repetitions 2 _ _ Hfuel Hbuild).
Defined.

(** X3. An RVA that does not fit 32 bits (negative, or 2^32 and above) makes
    the builder raise [struct.error]: its page cannot be packed into the
    block header, and no table is returned. *)
Theorem X3_table_rejects_wide_rva (fuel : nat) (offsets : list Z) (rva : Z) :
  (2 ≤ fuel)%nat → rva ∈ offsets → ¬ (0 ≤ rva < 2 ^ 32) →
  build_base_reloc_table fuel offsets = Raise StructError.
Proof.
  intros Hfuel Hin Hwide. rewrite build_base_reloc_table_spec by done.
  rewrite bool_decide_eq_false_2; [done|]. intros Hfits.
  assert (is_Some (group_pages offsets !! Z.land rva (Z.lnot 0xFFF)))
    as [es Hes] by (apply group_pages_is_Some; eauto).
  rewrite Forall_forall in Hfits.
  destruct (Hfits (page_block (Z.land rva (Z.lnot 0xFFF))
                     (merge_sort Z.le es))) as [Hpage _].
  { apply elem_of_table_blocks. eauto. }
  cbn [blk_page page_block] in Hpage.
  pose proof (page_offset_sum rva). pose proof (land_fff_range rva).
  rewrite land_lnot_fff in *. lia.
Qed.

Lemma X3_table_rejects_wide_rva_witness :
  (2 ≤ 2)%nat ∧ 2 ^ 32 ∈ [0x1000; 2 ^ 32] ∧ ¬ (0 ≤ 2 ^ 32 < 2 ^ 32)
  ∧ build_base_reloc_table 2 [0x1000; 2 ^ 32] = Raise StructError.
Proof.
  assert (Hfuel : (2 ≤ 2)%nat) by lia.
  assert (Hin : 2 ^ 32 ∈ [0x1000; 2 ^ 32]) by (right; left).
  assert (Hwide : ¬ (0 ≤ 2 ^ 32 < 2 ^ 32)) by lia.
  split_and!; [exact Hfuel|exact Hin|exact Hwide|].
  exact (X3_table_rejects_wide_rva 2 _ _ Hfuel Hin Hwide).
Defined.

(** X4. The table is a whole number of 32-bit words, at least 2 and at most
    12 bytes per RVA of the input list. *)
Theorem X4_table_size (fuel : nat) (offsets : list Z) (buf : bytes) :
  (2 ≤ fuel)%nat →
  build_base_reloc_table fuel offsets = Ok buf →
  len buf `mod` 4 = 0 ∧ 2 * len offsets ≤ len buf ≤ 12 * len offsets.
Proof.
  intros Hfuel Hbuild.
  destruct (build_then_decode _ _ _ Hfuel Hbuild) as [_ ->].
  assert (Hlen : len (table_pairs (table_blocks offsets)) = len offsets).
  { unfold len. by rewrite table_pairs_Permutation, length_fmap. }
  rewrite <- Hlen. apply table_blocks_size_bounds.
  apply Forall_forall. intros b (p & es & Hes & ->)%elem_of_table_blocks.
  apply page_block_size_bounds; [by eapply sorted_entries_range|].
  intros Hnil. apply group_pages_Some in Hes as [_ Hne]. apply Hne.
  apply Permutation_nil_r. by rewrite <- Hnil, merge_sort_Permutation.
Qed.

Lemma X4_table_size_witness :
  (2 ≤ 2)%nat ∧ build_base_reloc_table 2 sample_offsets = Ok sample_table
  ∧ len sample_table `mod` 4 = 0
  ∧ 2 * len sample_offsets ≤ len sample_table ≤ 12 * len sample_offsets.
Proof.
  assert (Hfuel : (2 ≤ 2)%nat) by lia.
  assert (Hbuild : build_base_reloc_table 2 sample_offsets = Ok sample_table)
    by (vm_compute; reflexivity).
  split_and!; [exact Hfuel|exact Hbuild|..];
    apply (X4_table_size 2 _ _ Hfuel Hbuild).
Defined.

(** ** [scan_data_for_pointers] and [read_elf_reloc_offsets] *)

(** X5. The image address range of the scan is computed over the sections
    with a non-zero address and a non-zero size: its lower bound is the
    smallest address among them (none when there is no such section) and its
    upper bound the largest end address (0 when there is none). *)
Theorem X5_image_range (sections : gmap string elf_section)
    (image_lo : option Z) (image_hi : Z) :
  image_range sections = (image_lo, image_hi) →
  0 ≤ image_hi
  ∧ (image_lo = None
     ↔ ∀ name sec, sections !! name = Some sec → ¬ loaded sec)
  ∧ (∀ lo, image_lo = Some lo →
       (∃ name sec, sections !! name = Some sec ∧ loaded sec
                    ∧ sec_addr sec = lo)
       ∧ ∀ name sec, sections !! name = Some sec → loaded sec →
                     lo ≤ sec_addr sec)
  ∧ (∀ name sec, sections !! name = Some sec → loaded sec →
                 sec_addr sec + sec_size sec ≤ image_hi)
  ∧ (image_hi = 0
     ∨ ∃ name sec, sections !! name = Some sec ∧ loaded sec
                   ∧ sec_addr sec + sec_size sec = image_hi).
Proof.
  rewrite image_range_fold. intros Hrange.
  pose proof (range_of_foldl (snd <$> map_to_list sections)) as Hinv.
  rewrite Hrange in Hinv. cbn [fst snd] in Hinv.
  destruct Hinv as (Hhi & Hnone & Hlo & Hmax & Hattained).
  split_and!.
  - done.
  - rewrite Hnone. split.
    + intros Hno name sec Hsec. apply Hno, elem_of_section_values. eauto.
    + intros Hno sec [name Hsec]%elem_of_section_values. by eapply Hno.
  - intros lo Hlo'. destruct (Hlo lo Hlo') as [(sec & Hsec & ? & ?) Hmin].
    apply elem_of_section_values in Hsec as [name Hsec]. split; [eauto 6|].
    intros name' sec' Hsec'. apply Hmin, elem_of_section_values. eauto.
  - intros name sec Hsec. apply Hmax, elem_of_section_values. eauto.
  - destruct Hattained as [?|(sec & Hsec & ? & ?)]; [by left|right].
    apply elem_of_section_values in Hsec as [name Hsec]. eauto 6.
Qed.

Lemma X5_image_range_witness :
  image_range sample_scan_sections = (Some 0x2000, 0x3008)
  ∧ ∀ name sec, sample_scan_sections !! name = Some sec → loaded sec →
                0x2000 ≤ sec_addr sec ∧ sec_addr sec + sec_size sec ≤ 0x3008.
Proof.
  assert (Hrange : image_range sample_scan_sections = (Some 0x2000, 0x3008))
    by (vm_compute; reflexivity).
  split; [exact Hrange|].
  destruct (X5_image_range _ _ _ Hrange) as (_ & _ & Hlo & Hmax & _).
  intros name sec Hsec Hl. split.
  - exact (proj2 (Hlo _ eq_refl) name sec Hsec Hl).
  - exact (Hmax name sec Hsec Hl).
Defined.

(** X6. The scan returns exactly the RVAs of the whole 8-byte words of
    [.data] whose little-endian value [v] satisfies
    [image_lo <= v < image_hi]: the lower bound is included, the upper bound
    is not.  Every returned RVA is the address of a word that lies inside the
    section. *)
Theorem X6_scan_result (elf_data : bytes)
    (sections : gmap string elf_section) (data_sec : elf_section)
    (image_lo image_hi : Z) (offsets : gset Z) :
  sections !! ".data"%string = Some data_sec →
  image_range sections = (Some image_lo, image_hi) →
  scan_data_for_pointers elf_data sections = Ok offsets →
  (∀ rva, rva ∈ offsets ↔
     ∃ k, 0 ≤ k < sec_size data_sec `div` 8
       ∧ rva = sec_addr data_sec + 8 * k
       ∧ in_range_pattern elf_data image_lo image_hi
           (sec_offset data_sec + 8 * k))
  ∧ (∀ rva, rva ∈ offsets →
       sec_addr data_sec ≤ rva
       ∧ rva + 8 ≤ sec_addr data_sec + sec_size data_sec).
Proof.
  intros Hdata Hrange Hscan.
  assert (Hiff : ∀ rva, rva ∈ offsets ↔
     ∃ k, 0 ≤ k < sec_size data_sec `div` 8
       ∧ rva = sec_addr data_sec + 8 * k
       ∧ in_range_pattern elf_data image_lo image_hi
           (sec_offset data_sec + 8 * k)).
  { intros rva. rewrite (scan_spec _ _ _ Hscan rva). split.
    - intros (d & lo & hi & k & Hd & Hr & Hk & -> & Hpat).
      assert (d = data_sec) as -> by congruence.
      assert (lo = image_lo ∧ hi = image_hi) as [-> ->]
        by (split; congruence).
      eauto.
    - intros (k & Hk & -> & Hpat). exists data_sec, image_lo, image_hi, k.
      done. }
  split; [done|]. intros rva (k & Hk & -> & _)%Hiff.
  assert (0 ≤ sec_size data_sec).
  { destruct (decide (0 ≤ sec_size data_sec)); [done|].
    assert (sec_size data_sec `div` 8 < 0)
      by (apply Z.div_lt_upper_bound; lia). lia. }
  pose proof (div8_bound (sec_size data_sec)). lia.
Qed.

Lemma X6_scan_result_witness :
  sample_scan_sections !! ".data"%string = Some (ElfSection 0x2000 0 20 1 0)
  ∧ image_range sample_scan_sections = (Some 0x2000, 0x3008)
  ∧ scan_data_for_pointers sample_data_pointer sample_scan_sections
    = Ok {[0x2000]}
  ∧ ∀ rva, rva ∈ ({[0x2000]} : gset Z) →
           0x2000 ≤ rva ∧ rva + 8 ≤ 0x2000 + 20.
Proof.
  assert (Hdata : sample_scan_sections !! ".data"%string
                  = Some (ElfSection 0x2000 0 20 1 0))
    by (vm_compute; reflexivity).
  assert (Hrange : image_range sample_scan_sections = (Some 0x2000, 0x3008))
    by (vm_compute; reflexivity).
  assert (Hscan : scan_data_for_pointers sample_data_pointer
                    sample_scan_sections = Ok {[0x2000]})
    by (vm_compute; reflexivity).
  split_and!; [exact Hdata|exact Hrange|exact Hscan|].
  exact (proj2 (X6_scan_result _ _ _ _ _ _ Hdata Hrange Hscan)).
Defined.



(** X8. A selected relocation section whose last record is cut short (fewer
    than 16 bytes at a record position) makes the explicit-record scan raise
    [struct.error]; the partial record is not skipped. *)
Theorem X8_rela_truncated_record (elf_data : bytes)
    (sections : gmap string elf_section) (e_machine : Z)
    (name : string) (sec : elf_section) (j : Z) :
  unpack_from 2 elf_data 18 = Ok e_machine →
  e_machine ∈ [0xF3; 0x102] →
  sections !! name = Some sec →
  rela_section_selected name sec →
  let entsize :=
    if bool_decide (sec_entsize sec = 0) then 24 else sec_entsize sec in
  let raw := slice elf_data (sec_offset sec) (sec_offset sec + sec_size sec) in
  j ∈ py_range 0 (len raw) entsize → len raw < j + 16 →
  read_elf_reloc_offsets elf_data sections = Raise StructError.
Proof.
  intros He Hm Hsec [Htype Hname] entsize raw Hj Hshort.
  unfold read_elf_reloc_offsets. rewrite He. simpl.
  rewrite bool_decide_eq_false_2 by (by intros []).
  apply (foldM_raises _ _ _ _ (name, sec)).
  - intros acc [name' sec'] _.
    case_bool_decide; [eauto|]. case_bool_decide; [eauto|].
    apply read_rela_records_Ok_or_raise.
  - by apply elem_of_map_to_list.
  - intros acc. rewrite bool_decide_eq_false_2 by (by intros []).
    rewrite bool_decide_eq_false_2
      by (intros Hnot; apply Hnot; by apply rela_name_selected).
    by apply (read_rela_records_truncated _ _ _ j).
Qed.

Lemma X8_rela_truncated_record_witness :
  unpack_from 2 sample_rela_truncated 18 = Ok 0xF3
  ∧ 0xF3 ∈ [0xF3; 0x102]
  ∧ sample_rela_sections !! ".rela.data"%string = Some (ElfSection 0 0 30 4 24)
  ∧ rela_section_selected ".rela.data" (ElfSection 0 0 30 4 24)
  ∧ 24 ∈ py_range 0 (len (slice sample_rela_truncated 0 (0 + 30))) 24
  ∧ len (slice sample_rela_truncated 0 (0 + 30)) < 24 + 16
  ∧ read_elf_reloc_offsets sample_rela_truncated sample_rela_sections
    = Raise StructError.
Proof.
  assert (H6 : len (slice sample_rela_truncated 0 (0 + 30)) < 24 + 16)
    by (by vm_compute).
  assert (H2 : 0xF3 ∈ [0xF3; 0x102]) by left.
  assert (H4 : rela_section_selected ".rela.data" (ElfSection 0 0 30 4 24))
    by (split; [reflexivity|by left]).
  assert (H1 : unpack_from 2 sample_rela_truncated 18 = Ok 0xF3)
    by (vm_compute; reflexivity).
  assert (H3 : sample_rela_sections !! ".rela.data"%string
               = Some (ElfSection 0 0 30 4 24)) by (vm_compute; reflexivity).
  assert (H5 : 24 ∈ py_range 0 (len (slice sample_rela_truncated 0 (0 + 30)))
                              24)
    by (apply (bool_decide_unpack _); vm_compute; exact I).
  split_and!; [exact H1|exact H2|exact H3|exact H4|exact H5|exact H6|].
  exact (X8_rela_truncated_record sample_rela_truncated sample_rela_sections
           _ _ _ 24 H1 H2 H3 H4 H5 H6).
Defined.

(** ** [parse_elf_sections] *)

(** X9. The section table is keyed by name, so when several section headers
    carry the same name the descriptor of the last one is kept: a name maps
    to a descriptor exactly when some header yields that pair and no later
    header yields the same name.  Every header of a file that parses has a
    readable descriptor and name. *)
Theorem X9_parse_last_header_wins (elf_data : bytes)
    (sections : gmap string elf_section) (e_shoff e_shentsize e_shnum st_off : Z) :
  parse_elf_sections elf_data = Ok sections →
  elf_header_fields elf_data = Ok (e_shoff, e_shentsize, e_shnum, st_off) →
  (∀ i, 0 ≤ i < e_shnum →
        ∃ ns, elf_section_at elf_data e_shoff e_shentsize st_off i = Ok ns)
  ∧ ∀ name sec, sections !! name = Some sec ↔
      ∃ i, 0 ≤ i < e_shnum
        ∧ elf_section_at elf_data e_shoff e_shentsize st_off i = Ok (name, sec)
        ∧ ∀ j sec', i < j < e_shnum →
            elf_section_at elf_data e_shoff e_shentsize st_off j
            ≠ Ok (name, sec').
Proof.
  intros Hparse Hfields.
  destruct (elf_header_fields_shnum _ _ _ _ _ Hfields) as (_ & _ & Hnum & _).
  rewrite parse_elf_sections_unfold, Hfields in Hparse.
  replace e_shnum with (Z.of_nat (Z.to_nat e_shnum)) in * by lia.
  by apply insert_loop_lookup.
Qed.

Lemma X9_parse_last_header_wins_witness :
  (∃ sections, parse_elf_sections sample_elf_riscv = Ok sections
     ∧ ∀ name sec, sections !! name = Some sec ↔
         ∃ i, 0 ≤ i < 4
           ∧ elf_section_at sample_elf_riscv 132 64 104 i = Ok (name, sec)
           ∧ ∀ j sec', i < j < 4 →
               elf_section_at sample_elf_riscv 132 64 104 j
               ≠ Ok (name, sec'))
  ∧ elf_header_fields sample_elf_riscv = Ok (132, 64, 4, 104).
Proof.
  assert (Hfields : elf_header_fields sample_elf_riscv = Ok (132, 64, 4, 104))
    by (vm_compute; reflexivity).
  split; [|exact Hfields].
  destruct (parse_elf_sections sample_elf_riscv) as [sections| |] eqn:Hparse;
    [|by vm_compute in Hparse..].
  exists sections. split; [reflexivity|].
  exact (proj2 (X9_parse_last_header_wins _ _ _ _ _ _ Hparse Hfields)).
Defined.

(** X10. A file shorter than the 64-byte ELF header makes the reader raise
    [struct.error]. *)
Theorem X10_parse_short_file (elf_data : bytes) :
  len elf_data < 64 → parse_elf_sections elf_data = Raise StructError.
Proof.
  intros Hshort. rewrite parse_elf_sections_unfold.
  by rewrite elf_header_fields_short.
Qed.

Lemma X10_parse_short_file_witness :
  len ELF_MAGIC < 64 ∧ parse_elf_sections ELF_MAGIC = Raise StructError.
Proof.
  assert (Hshort : len ELF_MAGIC < 64) by (by vm_compute).
  split; [exact Hshort|]. exact (X10_parse_short_file _ Hshort).
Defined.

(** X11. A section name read from the string table is the run of bytes from
    its offset up to the first NUL byte of the file at or after it: the name
    holds no NUL, every byte of it is ASCII, and the byte that follows it in
    the file is NUL. *)
Theorem X11_section_name (elf_data : bytes) (st_off name_off : Z)
    (name_ : string) :
  0 ≤ st_off + name_off →
  sec_name elf_data st_off name_off = Ok name_ →
  ∃ end_, st_off + name_off ≤ end_
    ∧ elf_data !! Z.to_nat end_ = Some "000"%byte
    ∧ String.list_byte_of_string name_
      = slice elf_data (st_off + name_off) end_
    ∧ Forall (λ b, b ≠ "000"%byte ∧ u8 b < 128)
             (String.list_byte_of_string name_).
Proof.
  intros Hstart. unfold sec_name.
  destruct (bytes_index elf_data "000" (st_off + name_off)) as [end_| |]
    eqn:Hidx; simpl; [|done..].
  destruct (bytes_index_Ok _ _ _ _ Hstart Hidx) as (Hle & Hnul & Hnonzero).
  unfold decode_ascii. case_bool_decide as Hascii; [|done].
  intros [= <-]. exists end_.
  rewrite String.list_byte_of_string_of_list_byte.
  split_and!; [done..|].
  rewrite Forall_forall in Hnonzero, Hascii |- *. intros b Hb. split; auto.
Qed.

Lemma X11_section_name_witness :
  0 ≤ 104 + 7
  ∧ sec_name sample_elf_riscv 104 7 = Ok ".rela.data"%string
  ∧ ∃ end_, 104 + 7 ≤ end_
      ∧ sample_elf_riscv !! Z.to_nat end_ = Some "000"%byte
      ∧ String.list_byte_of_string ".rela.data"
        = slice sample_elf_riscv (104 + 7) end_
      ∧ Forall (λ b, b ≠ "000"%byte ∧ u8 b < 128)
               (String.list_byte_of_string ".rela.data").
Proof.
  assert (Hstart : 0 ≤ 104 + 7) by lia.
  assert (Hname : sec_name sample_elf_riscv 104 7 = Ok ".rela.data"%string)
    by (vm_compute; reflexivity).
  refine (conj Hstart (conj Hname _)).
  exact (X11_section_name _ _ _ _ Hstart Hname).
Defined.

(** ** [main] *)

(** X12. The numbers of the summary line: the total is the number of distinct
    offsets of both discovery paths and is never 0, the explicit count is the
    number of distinct explicit offsets, and the scan count is the number of
    scanned offsets that no explicit record names, so it is never negative
    and the two counts add up to the total. *)
Theorem X12_summary_counts (fuel : nat) (elf_data pe0 pe' : bytes)
    (total from_rela extra table_bytes : Z) :
  main fuel elf_data pe0
  = (Ok (Patched total from_rela extra table_bytes), pe') →
  ∃ sections reloc_offsets scan_offsets,
    parse_elf_sections elf_data = Ok sections
    ∧ read_elf_reloc_offsets elf_data sections = Ok reloc_offsets
    ∧ scan_data_for_pointers elf_data sections = Ok scan_offsets
    ∧ total = Z.of_nat (size (reloc_offsets ∪ scan_offsets))
    ∧ from_rela = Z.of_nat (size reloc_offsets)
    ∧ extra = Z.of_nat (size (scan_offsets ∖ reloc_offsets))
    ∧ total = from_rela + extra ∧ 0 < total.
Proof.
  intros (sections & r & s & reloc_data & _ & Hparse & Hrela & Hscan & _
          & _ & -> & Hpos & -> & -> & _)%main_patched_inv.
  exists sections, r, s. rewrite len_sorted_elements in *.
  assert (Hsize : size (r ∪ s) = (size r + size (s ∖ r))%nat)
    by apply size_union_alt.
  split_and!; [done..|lia|lia|lia].
Qed.

Lemma X12_summary_counts_witness :
  main 2 sample_elf_riscv sample_pe_plain
  = (Ok (Patched 2 1 1 12), (main 2 sample_elf_riscv sample_pe_plain).2)
  ∧ ∃ sections reloc_offsets scan_offsets,
      parse_elf_sections sample_elf_riscv = Ok sections
      ∧ read_elf_reloc_offsets sample_elf_riscv sections = Ok reloc_offsets
      ∧ scan_data_for_pointers sample_elf_riscv sections = Ok scan_offsets
      ∧ 2 = Z.of_nat (size (reloc_offsets ∪ scan_offsets))
      ∧ 1 = Z.of_nat (size reloc_offsets)
      ∧ 1 = Z.of_nat (size (scan_offsets ∖ reloc_offsets))
      ∧ 2 = 1 + 1 ∧ 0 < 2.
Proof.
  assert (Hfst : (main 2 sample_elf_riscv sample_pe_plain).1
                 = Ok (Patched 2 1 1 12)) by (vm_compute; reflexivity).
  assert (Hmain : main 2 sample_elf_riscv sample_pe_plain
                  = (Ok (Patched 2 1 1 12),
                     (main 2 sample_elf_riscv sample_pe_plain).2)).
  { rewrite <- Hfst. apply surjective_pairing. }
  split; [exact Hmain|].
  exact (X12_summary_counts 2 _ _ _ _ _ _ _ Hmain).
Defined.

(** X13. The two discovery paths and the builder compose: when [main] reports
    a patch, the table handed to the patcher decodes to one (page, offset)
    pair for each address found by an explicit record or by the scan, with no
    pair twice, and the reported byte count is the length of that table. *)
Theorem X13_main_table (fuel : nat) (elf_data pe0 pe' : bytes)
    (total from_rela extra table_bytes : Z) :
  (2 ≤ fuel)%nat →
  main fuel elf_data pe0
  = (Ok (Patched total from_rela extra table_bytes), pe') →
  ∃ sections reloc_offsets scan_offsets reloc_data blocks,
    parse_elf_sections elf_data = Ok sections
    ∧ read_elf_reloc_offsets elf_data sections = Ok reloc_offsets
    ∧ scan_data_for_pointers elf_data sections = Ok scan_offsets
    ∧ patch_pe reloc_data pe0 = (Ok (), pe')
    ∧ table_bytes = len reloc_data
    ∧ decode_table reloc_data = Some blocks
    ∧ NoDup (table_pairs blocks)
    ∧ len (table_pairs blocks) = total
    ∧ ∀ pr, pr ∈ table_pairs blocks ↔
        ∃ rva, (rva ∈ reloc_offsets ∨ rva ∈ scan_offsets) ∧ pr = rva_pair rva.
Proof.
  intros Hfuel (sections & r & s & reloc_data & _ & Hparse & Hrela & Hscan
                & Hbuild & Hpatch & -> & _ & _ & _ & ->)%main_patched_inv.
  destruct (build_then_decode _ _ _ Hfuel Hbuild) as [Hdec _].
  exists sections, r, s, reloc_data,
    (table_blocks (merge_sort Z.le (elements (r ∪ s)))).
  split_and!; [done..| | |].
  - apply NoDup_table_pairs, NoDup_sorted_elements.
  - unfold len. by rewrite table_pairs_Permutation, length_fmap.
  - intros pr. rewrite elem_of_table_pairs, list_elem_of_fmap.
    split.
    + intros (rva & -> & Hrva). exists rva.
      by rewrite elem_of_sorted_elements, elem_of_union in Hrva.
    + intros (rva & Hrva & ->). exists rva.
      by rewrite elem_of_sorted_elements, elem_of_union.
Qed.

Lemma X13_main_table_witness :
  (2 ≤ 2)%nat
  ∧ main 2 sample_elf_riscv sample_pe_plain
    = (Ok (Patched 2 1 1 12), (main 2 sample_elf_riscv sample_pe_plain).2)
  ∧ ∃ sections reloc_offsets scan_offsets reloc_data blocks,
      parse_elf_sections sample_elf_riscv = Ok sections
      ∧ read_elf_reloc_offsets sample_elf_riscv sections = Ok reloc_offsets
      ∧ scan_data_for_pointers sample_elf_riscv sections = Ok scan_offsets
      ∧ patch_pe reloc_data sample_pe_plain
        = (Ok (), (main 2 sample_elf_riscv sample_pe_plain).2)
      ∧ 12 = len reloc_data
      ∧ decode_table reloc_data = Some blocks
      ∧ NoDup (table_pairs blocks)
      ∧ len (table_pairs blocks) = 2
      ∧ ∀ pr, pr ∈ table_pairs blocks ↔
          ∃ rva, (rva ∈ reloc_offsets ∨ rva ∈ scan_offsets)
                 ∧ pr = rva_pair rva.
Proof.
  assert (Hfuel : (2 ≤ 2)%nat) by lia.
  assert (Hfst : (main 2 sample_elf_riscv sample_pe_plain).1
                 = Ok (Patched 2 1 1 12)) by (vm_compute; reflexivity).
  assert (Hmain : main 2 sample_elf_riscv sample_pe_plain
                  = (Ok (Patched 2 1 1 12),
                     (main 2 sample_elf_riscv sample_pe_plain).2)).
  { rewrite <- Hfst. apply surjective_pairing. }
  refine (conj Hfuel (conj Hmain _)).
  exact (X13_main_table 2 _ _ _ _ _ _ _ Hfuel Hmain).
Defined.

(** X14. The identification check of [main] accepts exactly the files that
    start with the four magic bytes followed by class 2 and data encoding 1.
    A file that ends right after the magic, or after a class byte of 2, is
    not answered with the tool's own error: indexing the missing byte raises
    [IndexError].  Every other file gets the [ValueError]. *)
Theorem X14_elf_ident (elf_data : bytes) :
  (check_elf_ident elf_data = Ok ()
   ↔ slice elf_data 0 6 = ELF_MAGIC ++ ["002"; "001"]%byte)
  ∧ (check_elf_ident elf_data = Raise IndexError
     ↔ elf_data = ELF_MAGIC ∨ elf_data = ELF_MAGIC ++ ["002"]%byte)
  ∧ (check_elf_ident elf_data
     = Raise (ValueError "not a 64-bit little-endian ELF file")
     ↔ slice elf_data 0 4 ≠ ELF_MAGIC
       ∨ (∃ b, elf_data !! 4%nat = Some b ∧ b ≠ "002"%byte)
       ∨ (∃ b, elf_data !! 5%nat = Some b ∧ b ≠ "001"%byte)).
Proof.
  unfold check_elf_ident, index.
  change (Z.to_nat 4) with 4%nat. change (Z.to_nat 5) with 5%nat.
  assert (Hu8 : ∀ (b : byte) z,
            0 ≤ z < 256 → u8 b ≠ z ↔ b ≠ byte_of_Z z).
  { intros b z Hz. split; intros Hne Heq; apply Hne.
    - subst b. by apply u8_byte_of_Z.
    - by apply u8_inj. }
  unfold slice, ELF_MAGIC.
  change (Z.to_nat (4 - 0)) with 4%nat. change (Z.to_nat (6 - 0)) with 6%nat.
  change (Z.to_nat 0) with 0%nat.
  destruct elf_data as [|b0 [|b1 [|b2 [|b3 [|b4 [|b5 rest]]]]]];
    cbn [take drop lookup list_lookup from_option app mbind result_bind].
  all: repeat case_bool_decide;
    cbn [take drop lookup list_lookup from_option app mbind result_bind].
  all: repeat match goal with
         | H : u8 _ = _ |- _ =>
             apply u8_inj in H;
             first [change (byte_of_Z 2) with "002"%byte in H
                   |change (byte_of_Z 1) with "001"%byte in H]
         | H : u8 _ ≠ _ |- _ =>
             apply Hu8 in H; [|lia];
             first [change (byte_of_Z 2) with "002"%byte in H
                   |change (byte_of_Z 1) with "001"%byte in H]
         end.
  all: split_and!; split; naive_solver.
Qed.

(** X25. Reading a section name fails in two ways.  When no NUL byte follows
    the name offset in the file, the search raises [ValueError].  When a NUL
    follows but a byte before it is not ASCII, decoding raises
    [UnicodeDecodeError]: unlike the section names of the PE, ELF section
    names are decoded strictly. *)
Theorem X25_section_name_errors (elf_data : bytes) (st_off name_off : Z) :
  0 ≤ st_off + name_off →
  ((∃ msg, sec_name elf_data st_off name_off = Raise (ValueError msg))
   ↔ "000"%byte ∉ drop (Z.to_nat (st_off + name_off)) elf_data)
  ∧ (sec_name elf_data st_off name_off = Raise UnicodeDecodeError
     ↔ ∃ end_, st_off + name_off ≤ end_
         ∧ elf_data !! Z.to_nat end_ = Some "000"%byte
         ∧ Forall (λ b, b ≠ "000"%byte)
                  (slice elf_data (st_off + name_off) end_)
         ∧ Exists (λ b, 128 ≤ u8 b)
                  (slice elf_data (st_off + name_off) end_)).
Proof.
  intros Hstart. split.
  - rewrite <- bytes_index_raises. unfold sec_name.
    destruct (bytes_index elf_data "000" (st_off + name_off)) as [end_|e|];
      cbn [mbind result_bind]; unfold decode_ascii.
    + case_bool_decide; split; by intros [msg ?].
    + split; intros [msg [= ->]]; by eexists.
    + split; by intros [msg ?].
  - unfold sec_name. split.
    + destruct (bytes_index elf_data "000" (st_off + name_off)) as [end_|e|]
        eqn:Hidx; cbn [mbind result_bind].
      * destruct (bytes_index_Ok _ _ _ _ Hstart Hidx) as (Hle & Hnul & Hnz).
        unfold decode_ascii. case_bool_decide as Hascii; [done|].
        intros _. exists end_. split_and!; [done..|].
        apply not_Forall_Exists in Hascii; [|intros b; apply _].
        eapply Exists_impl; [done|]. simpl. lia.
      * unfold bytes_index in Hidx. destruct (list_find _ _) as [[]|]; [done|].
        by injection Hidx as <-.
      * done.
    + intros (end_ & Hle & Hnul & Hnz & Hhigh).
      rewrite (bytes_index_Ok_2 _ _ _ end_) by done.
      cbn [mbind result_bind]. unfold decode_ascii.
      rewrite bool_decide_eq_false_2; [done|]. intros Hascii.
      apply Exists_exists in Hhigh as (b & Hb & Hhigh).
      rewrite Forall_forall in Hascii. specialize (Hascii b Hb). lia.
Qed.

Lemma X25_section_name_errors_witness :
  0 ≤ 0 + 0
  ∧ ((∃ msg, sec_name ELF_MAGIC 0 0 = Raise (ValueError msg))
     ↔ "000"%byte ∉ drop (Z.to_nat (0 + 0)) ELF_MAGIC)
  ∧ (sec_name ELF_MAGIC 0 0 = Raise UnicodeDecodeError
     ↔ ∃ end_, 0 + 0 ≤ end_
         ∧ ELF_MAGIC !! Z.to_nat end_ = Some "000"%byte
         ∧ Forall (λ b, b ≠ "000"%byte) (slice ELF_MAGIC (0 + 0) end_)
         ∧ Exists (λ b, 128 ≤ u8 b) (slice ELF_MAGIC (0 + 0) end_)).
Proof.
  assert (Hstart : 0 ≤ 0 + 0) by lia.
  split; [exact Hstart|]. exact (X25_section_name_errors _ _ _ Hstart).
Defined.

(** ** [patch_pe] *)

(** X15. In the replace-existing-section path, for a PE laid out as the
    format prescribes, the base-relocation data directory entry is set to the
    virtual address of the reused section and the byte length of the table,
    and the relocations-stripped flag (bit 0 of the COFF characteristics) is
    cleared while every other flag keeps its value. *)
Theorem X15_in_place_directory (reloc_data pe : bytes) (hdr : pe_header)
    (sections : list pe_section) (i : Z) (sec : pe_section) (chars : Z) :
  read_pe_header pe = Ok hdr →
  read_pe_sections pe hdr = Ok (sections, Some i) →
  sections !! Z.to_nat i = Some sec →
  len reloc_data ≤ raw_size sec →
  wf_pe_layout pe hdr sec →
  unpack_from 2 pe (coff_chars_off hdr) = Ok chars →
  ∃ pe' chars',
    patch_pe reloc_data pe = (Ok (), pe')
    ∧ unpack_from 4 pe' (dd5_off hdr) = Ok (virtual_address sec)
    ∧ unpack_from 4 pe' (dd5_off hdr + 4) = Ok (len reloc_data)
    ∧ unpack_from 2 pe' (coff_chars_off hdr) = Ok chars'
    ∧ Z.testbit chars' 0 = false
    ∧ ∀ k, 0 < k → Z.testbit chars' k = Z.testbit chars k.
Proof.
  intros Hhdr Hsecs Hsec Hfit Hwf Hchars.
  pose proof Hhdr as Hview%read_pe_header_Ok.
  destruct (land_lnot_1_bits chars) as [Hbit0 Hbits].
  exists (in_place_image pe hdr sec reloc_data chars),
    (Z.land chars (Z.lnot 0x0001)).
  split_and!; [|by eapply in_place_dd_address|by eapply in_place_dd_size
               |by eapply in_place_chars_cleared|done..].
  eapply patch_pe_in_place; [done..|]. by eapply replace_reloc_Ok.
Qed.

Lemma X15_in_place_directory_witness :
  read_pe_header sample_pe_reloc = Ok sample_hdr
  ∧ read_pe_sections sample_pe_reloc sample_hdr = Ok (sample_sections, Some 1)
  ∧ sample_sections !! Z.to_nat 1 = Some sample_reloc_sec
  ∧ len sample_table ≤ raw_size sample_reloc_sec
  ∧ wf_pe_layout sample_pe_reloc sample_hdr sample_reloc_sec
  ∧ unpack_from 2 sample_pe_reloc (coff_chars_off sample_hdr) = Ok 0x0023
  ∧ ∃ pe' chars',
      patch_pe sample_table sample_pe_reloc = (Ok (), pe')
      ∧ unpack_from 4 pe' (dd5_off sample_hdr) = Ok 0x2000
      ∧ unpack_from 4 pe' (dd5_off sample_hdr + 4) = Ok (len sample_table)
      ∧ unpack_from 2 pe' (coff_chars_off sample_hdr) = Ok chars'
      ∧ Z.testbit chars' 0 = false
      ∧ ∀ k, 0 < k → Z.testbit chars' k = Z.testbit 0x0023 k.
Proof.
  assert (H1 : read_pe_header sample_pe_reloc = Ok sample_hdr)
    by (vm_compute; reflexivity).
  assert (H2 : read_pe_sections sample_pe_reloc sample_hdr
               = Ok (sample_sections, Some 1)) by (vm_compute; reflexivity).
  assert (H3 : sample_sections !! Z.to_nat 1 = Some sample_reloc_sec)
    by reflexivity.
  assert (H4 : len sample_table ≤ raw_size sample_reloc_sec)
    by (by vm_compute).
  assert (H5 : wf_pe_layout sample_pe_reloc sample_hdr sample_reloc_sec)
    by (vm_compute; repeat split; discriminate).
  assert (H6 : unpack_from 2 sample_pe_reloc (coff_chars_off sample_hdr)
               = Ok 0x0023) by (vm_compute; reflexivity).
  refine (conj H1 (conj H2 (conj H3 (conj H4 (conj H5 (conj H6 _)))))).
  exact (X15_in_place_directory _ _ _ _ _ _ _ H1 H2 H3 H4 H5 H6).
Defined.

(** X16. Replacing in place is idempotent: for a PE laid out as the format
    prescribes whose relocation section holds the table, patching succeeds,
    and patching the result once more with the same table succeeds and
    leaves every byte as it is. *)
Theorem X16_in_place_idempotent (reloc_data pe : bytes) (hdr : pe_header)
    (sections : list pe_section) (i : Z) (sec : pe_section) :
  read_pe_header pe = Ok hdr →
  read_pe_sections pe hdr = Ok (sections, Some i) →
  sections !! Z.to_nat i = Some sec →
  len reloc_data ≤ raw_size sec →
  wf_pe_layout pe hdr sec →
  ∃ pe', patch_pe reloc_data pe = (Ok (), pe')
         ∧ patch_pe reloc_data pe' = (Ok (), pe').
Proof.
  intros Hhdr Hsecs Hsec Hfit Hwf.
  pose proof Hhdr as Hview%read_pe_header_Ok.
  destruct (in_place_chars _ _ _ _ _ _ _ Hview Hsecs Hsec Hfit Hwf)
    as (chars & Hchars & _).
  exists (in_place_image pe hdr sec reloc_data chars). split.
  - eapply patch_pe_in_place; [done..|]. by eapply replace_reloc_Ok.
  - eapply (patch_pe_in_place _ _ hdr
              (<[Z.to_nat i := with_virtual_size sec (len reloc_data)]>
                 sections) i (with_virtual_size sec (len reloc_data))).
    + apply read_pe_header_Ok. by eapply in_place_header_view.
    + by eapply in_place_sections.
    + apply list_lookup_insert_eq. by eapply lookup_lt_Some.
    + done.
    + by eapply in_place_again.
Qed.

Lemma X16_in_place_idempotent_witness :
  read_pe_header sample_pe_reloc = Ok sample_hdr
  ∧ read_pe_sections sample_pe_reloc sample_hdr = Ok (sample_sections, Some 1)
  ∧ sample_sections !! Z.to_nat 1 = Some sample_reloc_sec
  ∧ len sample_table ≤ raw_size sample_reloc_sec
  ∧ wf_pe_layout sample_pe_reloc sample_hdr sample_reloc_sec
  ∧ ∃ pe', patch_pe sample_table sample_pe_reloc = (Ok (), pe')
           ∧ patch_pe sample_table pe' = (Ok (), pe').
Proof.
  assert (H1 : read_pe_header sample_pe_reloc = Ok sample_hdr)
    by (vm_compute; reflexivity).
  assert (H2 : read_pe_sections sample_pe_reloc sample_hdr
               = Ok (sample_sections, Some 1)) by (vm_compute; reflexivity).
  assert (H3 : sample_sections !! Z.to_nat 1 = Some sample_reloc_sec)
    by reflexivity.
  assert (H4 : len sample_table ≤ raw_size sample_reloc_sec)
    by (by vm_compute).
  assert (H5 : wf_pe_layout sample_pe_reloc sample_hdr sample_reloc_sec)
    by (vm_compute; repeat split; discriminate).
  refine (conj H1 (conj H2 (conj H3 (conj H4 (conj H5 _))))).
  exact (X16_in_place_idempotent _ _ _ _ _ _ H1 H2 H3 H4 H5).
Defined.

(** X17. The section table read from a PE lists the descriptors in header
    order, and the section that the in-place path reuses is the last one
    named [.reloc]: the index is absent exactly when no section has that
    name, and otherwise no later section has it. *)
Theorem X17_last_reloc_section (pe : bytes) (hdr : pe_header)
    (sections : list pe_section) (reloc_idx : option Z) :
  read_pe_sections pe hdr = Ok (sections, reloc_idx) →
  len sections = Z.max 0 (num_sections hdr)
  ∧ (∀ (k : nat) s, sections !! k = Some s →
       idx s = Z.of_nat k
       ∧ header_off s = sec_table_off hdr + Z.of_nat k * 40)
  ∧ (reloc_idx = None ↔ Forall (λ s, name s ≠ ".reloc"%string) sections)
  ∧ ∀ i, reloc_idx = Some i →
      ∃ s, 0 ≤ i ∧ sections !! Z.to_nat i = Some s
           ∧ name s = ".reloc"%string
           ∧ ∀ (j : nat) s', i < Z.of_nat j → sections !! j = Some s' →
                             name s' ≠ ".reloc"%string.
Proof.
  intros Hsecs.
  destruct (read_pe_sections_shape _ _ _ _ Hsecs) as [Hlen Hshape].
  apply read_pe_sections_Ok in Hsecs as [_ ->].
  pose proof (last_reloc_spec sections (λ k s Hk, proj1 (Hshape k s Hk)))
    as Hlast.
  split_and!; [done..| |].
  - destruct (last_reloc sections) as [i|]; [|done].
    destruct Hlast as (s & _ & Hs & Hname & _). split; [done|].
    intros Hnone. rewrite Forall_forall in Hnone.
    destruct (Hnone s); [by eapply list_elem_of_lookup_2|done].
  - intros i Hi. by rewrite Hi in Hlast.
Qed.

Lemma X17_last_reloc_section_witness :
  read_pe_sections sample_pe_reloc sample_hdr = Ok (sample_sections, Some 1)
  ∧ len sample_sections = Z.max 0 (num_sections sample_hdr)
  ∧ (∀ (k : nat) s, sample_sections !! k = Some s →
       idx s = Z.of_nat k
       ∧ header_off s = sec_table_off sample_hdr + Z.of_nat k * 40)
  ∧ (Some 1 = None
     ↔ Forall (λ s, name s ≠ ".reloc"%string) sample_sections)
  ∧ ∀ i, Some 1 = Some i →
      ∃ s, 0 ≤ i ∧ sample_sections !! Z.to_nat i = Some s
           ∧ name s = ".reloc"%string
           ∧ ∀ (j : nat) s', i < Z.of_nat j →
               sample_sections !! j = Some s' → name s' ≠ ".reloc"%string.
Proof.
  assert (H1 : read_pe_sections sample_pe_reloc sample_hdr
               = Ok (sample_sections, Some 1)) by (vm_compute; reflexivity).
  split; [exact H1|].
  exact (X17_last_reloc_section _ _ _ _ H1).
Defined.

(** X18. A PE whose header announces no section cannot be patched: the
    append path asks for the section with the highest virtual address of an
    empty table, which raises [ValueError], and the file is left as it
    was. *)
Theorem X18_no_sections (reloc_data pe : bytes) (hdr : pe_header) :
  read_pe_header pe = Ok hdr → num_sections hdr = 0 →
  ∃ msg, patch_pe reloc_data pe = (Raise (ValueError msg), pe).
Proof.
  intros Hhdr Hnum. rewrite patch_pe_unfold, Hhdr.
  rewrite read_pe_sections_empty by lia. by eexists.
Qed.

Lemma X18_no_sections_witness :
  read_pe_header sample_pe_no_sections = Ok sample_hdr_no_sections
  ∧ num_sections sample_hdr_no_sections = 0
  ∧ ∃ msg, patch_pe sample_table sample_pe_no_sections
           = (Raise (ValueError msg), sample_pe_no_sections).
Proof.
  assert (H1 : read_pe_header sample_pe_no_sections
               = Ok sample_hdr_no_sections) by (vm_compute; reflexivity).
  assert (H2 : num_sections sample_hdr_no_sections = 0) by reflexivity.
  refine (conj H1 (conj H2 _)).
  exact (X18_no_sections sample_table _ _ H1 H2).
Defined.

(** X19. A file too short to hold the pointer to the PE header at offset
    0x3C makes the patcher raise [struct.error], and the file is left as it
    was. *)
Theorem X19_short_pe (reloc_data pe : bytes) :
  len pe < 0x40 → patch_pe reloc_data pe = (Raise StructError, pe).
Proof.
  intros Hshort. rewrite patch_pe_unfold.
  assert (read_pe_header pe = Raise StructError) as ->; [|done].
  unfold read_pe_header. cbn zeta.
  assert (unpack_from 4 pe 0x3C = Raise StructError) as ->; [|done].
  unfold unpack_from. rewrite bool_decide_eq_false_2; [done|].
  change (Z.of_nat 4) with 4. lia.
Qed.

Lemma X19_short_pe_witness :
  len PE_SIGNATURE < 0x40
  ∧ patch_pe sample_table PE_SIGNATURE = (Raise StructError, PE_SIGNATURE).
Proof.
  assert (Hshort : len PE_SIGNATURE < 0x40) by (by vm_compute).
  split; [exact Hshort|]. exact (X19_short_pe _ _ Hshort).
Defined.

(** X20. In the add-a-new-section path, for a PE whose header area is laid
    out as the format prescribes, a successful run appends the table at the
    first multiple of 0x200 at or after the old end of the file, fills the gap
    before it and the remainder of its raw size with zeros, and leaves a file
    whose length is that offset plus the table length rounded up to a
    multiple of 0x200. *)
Theorem X20_append_table (reloc_data pe pe' : bytes) (hdr : pe_header)
    (sections : list pe_section) (reloc_idx : option Z) :
  read_pe_header pe = Ok hdr →
  read_pe_sections pe hdr = Ok (sections, reloc_idx) →
  wf_pe_headers pe hdr →
  append_taken sections reloc_idx reloc_data →
  patch_pe reloc_data pe = (Ok (), pe') →
  len pe' = append_raw_off pe + append_raw_size reloc_data
  ∧ append_raw_off pe `mod` 0x200 = 0
  ∧ len pe ≤ append_raw_off pe < len pe + 0x200
  ∧ append_raw_size reloc_data `mod` 0x200 = 0
  ∧ len reloc_data ≤ append_raw_size reloc_data < len reloc_data + 0x200
  ∧ slice pe' (len pe) (append_raw_off pe)
    = zeros (append_raw_off pe - len pe)
  ∧ slice pe' (append_raw_off pe) (append_raw_off pe + len reloc_data)
    = reloc_data
  ∧ slice pe' (append_raw_off pe + len reloc_data)
          (append_raw_off pe + append_raw_size reloc_data)
    = zeros (append_raw_size reloc_data - len reloc_data).
Proof.
  intros Hhdr Hsecs Hwf Htaken Hpatch.
  destruct (patch_pe_append_image _ _ _ _ _ _ Hhdr Hsecs Hwf Htaken Hpatch)
    as (last & chars & Hlast & Hview & Hcoff & Hopt & Hchars & Hroom & Hnum
        & Hrva & Hrsz & Hroff & ->).
  destruct (align_up_file (len pe)) as [Hoff_mod Hoff_le].
  destruct (align_up_file (len reloc_data)) as [Hsz_mod Hsz_le].
  split_and!; [by apply append_len|done|apply Hoff_le|apply Hoff_le|done
               |apply Hsz_le|apply Hsz_le|by apply append_gap
               |by apply append_table|by apply append_tail].
Qed.

Lemma X20_append_table_witness :
  read_pe_header sample_pe_plain = Ok sample_hdr_plain
  ∧ read_pe_sections sample_pe_plain sample_hdr_plain
    = Ok ([sample_text_sec], None)
  ∧ wf_pe_headers sample_pe_plain sample_hdr_plain
  ∧ append_taken [sample_text_sec] None sample_table
  ∧ patch_pe sample_table sample_pe_plain
    = (Ok (), (patch_pe sample_table sample_pe_plain).2)
  ∧ len (patch_pe sample_table sample_pe_plain).2
    = append_raw_off sample_pe_plain + append_raw_size sample_table
  ∧ append_raw_off sample_pe_plain `mod` 0x200 = 0
  ∧ len sample_pe_plain ≤ append_raw_off sample_pe_plain
    < len sample_pe_plain + 0x200
  ∧ append_raw_size sample_table `mod` 0x200 = 0
  ∧ len sample_table ≤ append_raw_size sample_table
    < len sample_table + 0x200
  ∧ slice (patch_pe sample_table sample_pe_plain).2 (len sample_pe_plain)
          (append_raw_off sample_pe_plain)
    = zeros (append_raw_off sample_pe_plain - len sample_pe_plain)
  ∧ slice (patch_pe sample_table sample_pe_plain).2
          (append_raw_off sample_pe_plain)
          (append_raw_off sample_pe_plain + len sample_table)
    = sample_table
  ∧ slice (patch_pe sample_table sample_pe_plain).2
          (append_raw_off sample_pe_plain + len sample_table)
          (append_raw_off sample_pe_plain + append_raw_size sample_table)
    = zeros (append_raw_size sample_table - len sample_table).
Proof.
  assert (H1 : read_pe_header sample_pe_plain = Ok sample_hdr_plain)
    by (vm_compute; reflexivity).
  assert (H2 : read_pe_sections sample_pe_plain sample_hdr_plain
               = Ok ([sample_text_sec], None)) by (vm_compute; reflexivity).
  assert (H3 : wf_pe_headers sample_pe_plain sample_hdr_plain).
  { split; [by vm_compute|]. split; [by vm_compute|].
    exists 0x200. split; [vm_compute; reflexivity|by vm_compute]. }
  assert (H4 : append_taken [sample_text_sec] None sample_table)
    by (by left).
  assert (Hfst : (patch_pe sample_table sample_pe_plain).1 = Ok ())
    by (vm_compute; reflexivity).
  assert (H5 : patch_pe sample_table sample_pe_plain
               = (Ok (), (patch_pe sample_table sample_pe_plain).2)).
  { rewrite <- Hfst. apply surjective_pairing. }
  clear Hfst.
  refine (conj H1 (conj H2 (conj H3 (conj H4 (conj H5 _))))).
  exact (X20_append_table _ _ _ _ _ _ H1 H2 H3 H4 H5).
Defined.

(** X21. After a successful run of the add-a-new-section path the PE header
    announces one section more, the descriptors of the old sections read as
    before, and the section table ends with a section named [.reloc] whose
    virtual size is the table length, whose raw size and file offset are the
    rounded values, and whose characteristics are 0x42000040; it is the
    section a later run finds as the relocation section. *)
Theorem X21_append_section_table (reloc_data pe pe' : bytes)
    (hdr : pe_header) (sections : list pe_section) (reloc_idx : option Z) :
  read_pe_header pe = Ok hdr →
  read_pe_sections pe hdr = Ok (sections, reloc_idx) →
  wf_pe_headers pe hdr →
  append_taken sections reloc_idx reloc_data →
  patch_pe reloc_data pe = (Ok (), pe') →
  ∃ last,
    max_by virtual_address sections = Ok last
    ∧ read_pe_header pe'
      = Ok (with_num_sections hdr (num_sections hdr + 1))
    ∧ read_pe_sections pe' (with_num_sections hdr (num_sections hdr + 1))
      = Ok (sections
              ++ [appended_section hdr (len reloc_data) (append_rva last)
                    (append_raw_size reloc_data) (append_raw_off pe)],
            Some (num_sections hdr))
    ∧ unpack_from 4 pe' (sec_table_off hdr + num_sections hdr * 40 + 36)
      = Ok 0x42000040.
Proof.
  intros Hhdr Hsecs Hwf Htaken Hpatch.
  destruct (patch_pe_append_image _ _ _ _ _ _ Hhdr Hsecs Hwf Htaken Hpatch)
    as (last & chars & Hlast & Hview & Hcoff & Hopt & Hchars & Hroom & Hnum
        & Hrva & Hrsz & Hroff & ->).
  pose proof (len_nonneg reloc_data). pose proof (len_nonneg pe).
  destruct (reloc_header_fields (len reloc_data) (append_rva last)
              (append_raw_size reloc_data) (append_raw_off pe))
    as (_ & _ & _ & _ & _ & Hflags); [lia..|].
  exists last. split_and!; [done| | |].
  - apply read_pe_header_Ok. by apply append_header_view.
  - by eapply append_sections.
  - apply append_header_field; [done..|lia|lia|done].
Qed.

Lemma X21_append_section_table_witness :
  read_pe_header sample_pe_plain = Ok sample_hdr_plain
  ∧ read_pe_sections sample_pe_plain sample_hdr_plain
    = Ok ([sample_text_sec], None)
  ∧ wf_pe_headers sample_pe_plain sample_hdr_plain
  ∧ append_taken [sample_text_sec] None sample_table
  ∧ patch_pe sample_table sample_pe_plain
    = (Ok (), (patch_pe sample_table sample_pe_plain).2)
  ∧ ∃ last,
      max_by virtual_address [sample_text_sec] = Ok last
      ∧ read_pe_header (patch_pe sample_table sample_pe_plain).2
        = Ok (with_num_sections sample_hdr_plain
                (num_sections sample_hdr_plain + 1))
      ∧ read_pe_sections (patch_pe sample_table sample_pe_plain).2
          (with_num_sections sample_hdr_plain
             (num_sections sample_hdr_plain + 1))
        = Ok ([sample_text_sec]
                ++ [appended_section sample_hdr_plain (len sample_table)
                      (append_rva last) (append_raw_size sample_table)
                      (append_raw_off sample_pe_plain)],
              Some (num_sections sample_hdr_plain))
      ∧ unpack_from 4 (patch_pe sample_table sample_pe_plain).2
          (sec_table_off sample_hdr_plain
           + num_sections sample_hdr_plain * 40 + 36)
        = Ok 0x42000040.
Proof.
  assert (H1 : read_pe_header sample_pe_plain = Ok sample_hdr_plain)
    by (vm_compute; reflexivity).
  assert (H2 : read_pe_sections sample_pe_plain sample_hdr_plain
               = Ok ([sample_text_sec], None)) by (vm_compute; reflexivity).
  assert (H3 : wf_pe_headers sample_pe_plain sample_hdr_plain).
  { split; [by vm_compute|]. split; [by vm_compute|].
    exists 0x200. split; [vm_compute; reflexivity|by vm_compute]. }
  assert (H4 : append_taken [sample_text_sec] None sample_table)
    by (by left).
  assert (Hfst : (patch_pe sample_table sample_pe_plain).1 = Ok ())
    by (vm_compute; reflexivity).
  assert (H5 : patch_pe sample_table sample_pe_plain
               = (Ok (), (patch_pe sample_table sample_pe_plain).2)).
  { rewrite <- Hfst. apply surjective_pairing. }
  clear Hfst.
  refine (conj H1 (conj H2 (conj H3 (conj H4 (conj H5 _))))).
  exact (X21_append_section_table _ _ _ _ _ _ H1 H2 H3 H4 H5).
Defined.

(** X22. The new section is placed behind the section with the highest
    virtual address: its virtual address is the end of that section (the
    larger of its virtual and raw size) rounded up to a multiple of 0x1000,
    so it is not below the start of any section.  The base-relocation data
    directory entry is set to that address and the table length, the image
    size to that address plus 0x1000, and the relocations-stripped flag is
    cleared while every other flag keeps its value. *)
Theorem X22_append_directory (reloc_data pe pe' : bytes) (hdr : pe_header)
    (sections : list pe_section) (reloc_idx : option Z) (chars : Z) :
  read_pe_header pe = Ok hdr →
  read_pe_sections pe hdr = Ok (sections, reloc_idx) →
  wf_pe_headers pe hdr →
  append_taken sections reloc_idx reloc_data →
  unpack_from 2 pe (coff_chars_off hdr) = Ok chars →
  patch_pe reloc_data pe = (Ok (), pe') →
  ∃ last chars',
    max_by virtual_address sections = Ok last
    ∧ last ∈ sections
    ∧ (∀ s, s ∈ sections → virtual_address s ≤ append_rva last)
    ∧ append_rva last `mod` 0x1000 = 0
    ∧ virtual_address last + Z.max (virtual_size last) (raw_size last)
      ≤ append_rva last
      < virtual_address last + Z.max (virtual_size last) (raw_size last)
        + 0x1000
    ∧ unpack_from 4 pe' (dd5_off hdr) = Ok (append_rva last)
    ∧ unpack_from 4 pe' (dd5_off hdr + 4) = Ok (len reloc_data)
    ∧ unpack_from 4 pe' (size_of_image_off hdr)
      = Ok (append_rva last + 0x1000)
    ∧ unpack_from 2 pe' (coff_chars_off hdr) = Ok chars'
    ∧ Z.testbit chars' 0 = false
    ∧ ∀ k, 0 < k → Z.testbit chars' k = Z.testbit chars k.
Proof.
  intros Hhdr Hsecs Hwf Htaken Hchars0 Hpatch.
  destruct (patch_pe_append_image _ _ _ _ _ _ Hhdr Hsecs Hwf Htaken Hpatch)
    as (last & chars1 & Hlast & Hview & Hcoff & Hopt & Hchars & Hroom & Hnum
        & Hrva & Hrsz & Hroff & ->).
  assert (chars1 = chars) as -> by congruence.
  destruct (max_by_Ok _ _ _ Hlast) as [Hin Hmax].
  destruct (align_up_section
              (virtual_address last
               + Z.max (virtual_size last) (raw_size last)))
    as [Hmod Hle].
  fold (append_rva last) in Hmod, Hle.
  destruct (land_lnot_1_bits chars) as [Hbit0 Hbits].
  assert (Hvs : 0 ≤ virtual_size last ∧ 0 ≤ raw_size last).
  { apply list_elem_of_lookup in Hin as [k Hk].
    destruct (read_pe_sections_lookup _ _ _ _ _ _ Hsecs Hk) as [_ Hread].
    apply read_section_header_Ok in Hread
      as (vs & va & rs & ro & Hvs & _ & Hrs & _ & ->). cbn zeta in *.
    apply unpack_from_range in Hvs, Hrs. simpl. lia. }
  exists last, (Z.land chars (Z.lnot 0x0001)).
  split_and!; [done|done| |done|apply Hle|apply Hle
               |by apply append_dd_address|by apply append_dd_size
               |by apply append_size_of_image|by apply append_chars_cleared
               |done|done].
  intros s Hs. specialize (Hmax s Hs). destruct Hle as [Hle _]. lia.
Qed.

Lemma X22_append_directory_witness :
  read_pe_header sample_pe_plain = Ok sample_hdr_plain
  ∧ read_pe_sections sample_pe_plain sample_hdr_plain
    = Ok ([sample_text_sec], None)
  ∧ wf_pe_headers sample_pe_plain sample_hdr_plain
  ∧ append_taken [sample_text_sec] None sample_table
  ∧ unpack_from 2 sample_pe_plain (coff_chars_off sample_hdr_plain)
    = Ok 0x0023
  ∧ patch_pe sample_table sample_pe_plain
    = (Ok (), (patch_pe sample_table sample_pe_plain).2)
  ∧ ∃ last chars',
      max_by virtual_address [sample_text_sec] = Ok last
      ∧ last ∈ [sample_text_sec]
      ∧ (∀ s, s ∈ [sample_text_sec] → virtual_address s ≤ append_rva last)
      ∧ append_rva last `mod` 0x1000 = 0
      ∧ virtual_address last + Z.max (virtual_size last) (raw_size last)
        ≤ append_rva last
        < virtual_address last + Z.max (virtual_size last) (raw_size last)
          + 0x1000
      ∧ unpack_from 4 (patch_pe sample_table sample_pe_plain).2
          (dd5_off sample_hdr_plain) = Ok (append_rva last)
      ∧ unpack_from 4 (patch_pe sample_table sample_pe_plain).2
          (dd5_off sample_hdr_plain + 4) = Ok (len sample_table)
      ∧ unpack_from 4 (patch_pe sample_table sample_pe_plain).2
          (size_of_image_off sample_hdr_plain)
        = Ok (append_rva last + 0x1000)
      ∧ unpack_from 2 (patch_pe sample_table sample_pe_plain).2
          (coff_chars_off sample_hdr_plain) = Ok chars'
      ∧ Z.testbit chars' 0 = false
      ∧ ∀ k, 0 < k → Z.testbit chars' k = Z.testbit 0x0023 k.
Proof.
  assert (H1 : read_pe_header sample_pe_plain = Ok sample_hdr_plain)
    by (vm_compute; reflexivity).
  assert (H2 : read_pe_sections sample_pe_plain sample_hdr_plain
               = Ok ([sample_text_sec], None)) by (vm_compute; reflexivity).
  assert (H3 : wf_pe_headers sample_pe_plain sample_hdr_plain).
  { split; [by vm_compute|]. split; [by vm_compute|].
    exists 0x200. split; [vm_compute; reflexivity|by vm_compute]. }
  assert (H4 : append_taken [sample_text_sec] None sample_table)
    by (by left).
  assert (H5 : unpack_from 2 sample_pe_plain
                 (coff_chars_off sample_hdr_plain) = Ok 0x0023)
    by (vm_compute; reflexivity).
  assert (Hfst : (patch_pe sample_table sample_pe_plain).1 = Ok ())
    by (vm_compute; reflexivity).
  assert (H6 : patch_pe sample_table sample_pe_plain
               = (Ok (), (patch_pe sample_table sample_pe_plain).2)).
  { rewrite <- Hfst. apply surjective_pairing. }
  clear Hfst.
  refine (conj H1 (conj H2 (conj H3 (conj H4 (conj H5 (conj H6 _)))))).
  exact (X22_append_directory _ _ _ _ _ _ _ H1 H2 H3 H4 H5 H6).
Defined.

(** X23. The add-a-new-section path changes the original bytes of the file
    only in the slot of the new section header, the section count, the image
    size, the base-relocation data directory entry and the characteristics:
    every other byte, so the headers and the raw data of all existing
    sections, keeps its value. *)
Theorem X23_append_frame (reloc_data pe pe' : bytes) (hdr : pe_header)
    (sections : list pe_section) (reloc_idx : option Z) (pos : nat) :
  read_pe_header pe = Ok hdr →
  read_pe_sections pe hdr = Ok (sections, reloc_idx) →
  wf_pe_headers pe hdr →
  append_taken sections reloc_idx reloc_data →
  patch_pe reloc_data pe = (Ok (), pe') →
  Z.of_nat pos < len pe → ¬ append_written hdr (Z.of_nat pos) →
  pe' !! pos = pe !! pos.
Proof.
  intros Hhdr Hsecs Hwf Htaken Hpatch Hpos Hfree.
  destruct (patch_pe_append_image _ _ _ _ _ _ Hhdr Hsecs Hwf Htaken Hpatch)
    as (last & chars & Hlast & Hview & Hcoff & Hopt & Hchars & Hroom & Hnum
        & Hrva & Hrsz & Hroff & ->).
  by apply append_frame.
Qed.

Lemma X23_append_frame_witness :
  read_pe_header sample_pe_plain = Ok sample_hdr_plain
  ∧ read_pe_sections sample_pe_plain sample_hdr_plain
    = Ok ([sample_text_sec], None)
  ∧ wf_pe_headers sample_pe_plain sample_hdr_plain
  ∧ append_taken [sample_text_sec] None sample_table
  ∧ patch_pe sample_table sample_pe_plain
    = (Ok (), (patch_pe sample_table sample_pe_plain).2)
  ∧ Z.of_nat 512 < len sample_pe_plain
  ∧ ¬ append_written sample_hdr_plain (Z.of_nat 512)
  ∧ (patch_pe sample_table sample_pe_plain).2 !! 512%nat
    = sample_pe_plain !! 512%nat.
Proof.
  assert (H1 : read_pe_header sample_pe_plain = Ok sample_hdr_plain)
    by (vm_compute; reflexivity).
  assert (H2 : read_pe_sections sample_pe_plain sample_hdr_plain
               = Ok ([sample_text_sec], None)) by (vm_compute; reflexivity).
  assert (H3 : wf_pe_headers sample_pe_plain sample_hdr_plain).
  { split; [by vm_compute|]. split; [by vm_compute|].
    exists 0x200. split; [vm_compute; reflexivity|by vm_compute]. }
  assert (H4 : append_taken [sample_text_sec] None sample_table)
    by (by left).
  assert (H6 : Z.of_nat 512 < len sample_pe_plain) by (by vm_compute).
  assert (H7 : ¬ append_written sample_hdr_plain (Z.of_nat 512)).
  { unfold append_written. simpl. lia. }
  assert (Hfst : (patch_pe sample_table sample_pe_plain).1 = Ok ())
    by (vm_compute; reflexivity).
  assert (H5 : patch_pe sample_table sample_pe_plain
               = (Ok (), (patch_pe sample_table sample_pe_plain).2)).
  { rewrite <- Hfst. apply surjective_pairing. }
  clear Hfst.
  refine (conj H1 (conj H2 (conj H3 (conj H4 (conj H5 (conj H6
            (conj H7 _))))))).
  exact (X23_append_frame _ _ _ _ _ _ _ H1 H2 H3 H4 H5 H6 H7).
Defined.

(** X24. A second run after the add-a-new-section path does not append
    again: it finds the section added by the first run, takes the
    replace-in-place path, and leaves every byte of the file as it is. *)
Theorem X24_append_then_in_place (reloc_data pe pe' : bytes)
    (hdr : pe_header) (sections : list pe_section) (reloc_idx : option Z) :
  read_pe_header pe = Ok hdr →
  read_pe_sections pe hdr = Ok (sections, reloc_idx) →
  wf_pe_headers pe hdr →
  append_taken sections reloc_idx reloc_data →
  patch_pe reloc_data pe = (Ok (), pe') →
  patch_pe reloc_data pe' = (Ok (), pe').
Proof.
  intros Hhdr Hsecs Hwf Htaken Hpatch.
  destruct (patch_pe_append_image _ _ _ _ _ _ Hhdr Hsecs Hwf Htaken Hpatch)
    as (last & chars & Hlast & Hview & Hcoff & Hopt & Hchars & Hroom & Hnum
        & Hrva & Hrsz & Hroff & ->).
  by eapply append_again.
Qed.

Lemma X24_append_then_in_place_witness :
  read_pe_header sample_pe_plain = Ok sample_hdr_plain
  ∧ read_pe_sections sample_pe_plain sample_hdr_plain
    = Ok ([sample_text_sec], None)
  ∧ wf_pe_headers sample_pe_plain sample_hdr_plain
  ∧ append_taken [sample_text_sec] None sample_table
  ∧ patch_pe sample_table sample_pe_plain
    = (Ok (), (patch_pe sample_table sample_pe_plain).2)
  ∧ patch_pe sample_table (patch_pe sample_table sample_pe_plain).2
    = (Ok (), (patch_pe sample_table sample_pe_plain).2).
Proof.
  assert (H1 : read_pe_header sample_pe_plain = Ok sample_hdr_plain)
    by (vm_compute; reflexivity).
  assert (H2 : read_pe_sections sample_pe_plain sample_hdr_plain
               = Ok ([sample_text_sec], None)) by (vm_compute; reflexivity).
  assert (H3 : wf_pe_headers sample_pe_plain sample_hdr_plain).
  { split; [by vm_compute|]. split; [by vm_compute|].
    exists 0x200. split; [vm_compute; reflexivity|by vm_compute]. }
  assert (H4 : append_taken [sample_text_sec] None sample_table)
    by (by left).
  assert (Hfst : (patch_pe sample_table sample_pe_plain).1 = Ok ())
    by (vm_compute; reflexivity).
  assert (H5 : patch_pe sample_table sample_pe_plain
               = (Ok (), (patch_pe sample_table sample_pe_plain).2)).
  { rewrite <- Hfst. apply surjective_pairing. }
  clear Hfst.
  refine (conj H1 (conj H2 (conj H3 (conj H4 (conj H5 _))))).
  exact (X24_append_then_in_place _ _ _ _ _ _ H1 H2 H3 H4 H5).
Defined.
